(** * Swarm-cooling simulations: a shallow embedding and its properties

    The repository holds three client-side simulations of a cooling swarm:

    - [Ring]  : the React hook [useSimulation(agentCount)] with a circular
                topology, explicit failure/repair commands and a load
                redistribution rule (features/simulation/hooks/useSimulation.ts);
    - [Tick]  : the React hook [useSimulation(scenario)] whose snapshot is a
                function of the tick counter and of a fault latch;
    - [Swarm] : the plain-JavaScript demo (script.js, two copies that differ in
                the order of the last two phases of [swarmStep]).

    Numbers.  JavaScript numbers are IEEE-754 doubles.  The development works
    with exact rationals: rounding and the sign of zero are not modelled.
    Where the source divides by a computed array length (the ring variant) the
    numbers are the rationals extended with [+Infinity], [-Infinity] and [NaN],
    following the IEEE rules for these values; the other two variants only
    add, subtract, multiply and divide by a non-zero literal, so plain [Q]
    is used there.

    Randomness.  [Math.random()] is a stream of draws read through a cursor
    that every call advances; [fair] says that every draw lies in [0,1). *)

From Stdlib Require Import ZArith QArith Qround Lqa Lia Bool String Ascii List.
From Stdlib Require DecimalString.
Import ListNotations.

Local Open Scope Q_scope.

(* ------------------------------------------------------------------ *)
(** ** The random source *)

Record Rng : Type := { draws : nat -> Q; cursor : nat }.

(** One call of [Math.random()]. *)
Definition random (g : Rng) : Q * Rng :=
  (draws g (cursor g), {| draws := draws g; cursor := S (cursor g) |}).

Definition fair (g : Rng) : Prop := forall n, 0 <= draws g n /\ draws g n < 1.

(** A source that always returns the same draw. *)
Definition constant_rng (q : Q) : Rng := {| draws := fun _ => q; cursor := 0 |}.

(** A source that replays a finite script and then returns [d]. *)
Definition scripted_rng (l : list Q) (d : Q) : Rng :=
  {| draws := fun n => nth n l d; cursor := 0 |}.

(** Computations that consume random draws. *)
Definition Rand (A : Type) : Type := Rng -> A * Rng.

Definition ret {A} (a : A) : Rand A := fun g => (a, g).

Definition bind {A B} (m : Rand A) (k : A -> Rand B) : Rand B :=
  fun g => let (a, g') := m g in k a g'.

Declare Scope rand_scope.
Delimit Scope rand_scope with rand.
Notation "x <- m ;; k" := (bind m (fun x => k))
  (at level 61, m at next level, right associativity) : rand_scope.

(** [rnd(a,b) = Math.random()*(b-a)+a] (script.js). *)
Definition rnd (a b : Q) : Rand Q :=
  fun g => let (r, g') := random g in (r * (b - a) + a, g').

(* ------------------------------------------------------------------ *)
(** ** Boolean comparisons on rationals *)

Definition Qlt_bool (x y : Q) : bool := negb (Qle_bool y x).

(** [Math.min], [Math.max] and the [clamp] helper of script.js on finite
    numbers: [clamp=(v,a,b)=>Math.max(a,Math.min(b,v))]. *)
Definition Math_min (x y : Q) : Q := if Qle_bool x y then x else y.
Definition Math_max (x y : Q) : Q := if Qle_bool x y then y else x.
Definition Math_abs (x : Q) : Q := if Qlt_bool x 0 then - x else x.
Definition clamp (v a b : Q) : Q := Math_max a (Math_min b v).

(* ------------------------------------------------------------------ *)
(** ** JavaScript numbers with the non-finite values *)

Module JS.

Inductive num : Type :=
| Fin (q : Q)
| PInf
| NInf
| NaN.

Definition neg (a : num) : num :=
  match a with
  | Fin q => Fin (- q)
  | PInf => NInf
  | NInf => PInf
  | NaN => NaN
  end.

Definition add (a b : num) : num :=
  match a, b with
  | NaN, _ | _, NaN => NaN
  | Fin p, Fin q => Fin (p + q)
  | PInf, NInf | NInf, PInf => NaN
  | PInf, _ | _, PInf => PInf
  | NInf, _ | _, NInf => NInf
  end.

Definition sub (a b : num) : num := add a (neg b).

(** The sign of an infinity multiplied or divided by a finite number. *)
Definition signed (pos : bool) : num := if pos then PInf else NInf.

Definition mul (a b : num) : num :=
  match a, b with
  | NaN, _ | _, NaN => NaN
  | Fin p, Fin q => Fin (p * q)
  | Fin p, PInf | PInf, Fin p =>
      match p ?= 0 with Gt => PInf | Lt => NInf | Eq => NaN end
  | Fin p, NInf | NInf, Fin p =>
      match p ?= 0 with Gt => NInf | Lt => PInf | Eq => NaN end
  | PInf, PInf | NInf, NInf => PInf
  | PInf, NInf | NInf, PInf => NaN
  end.

(** Division.  A zero divisor is the positive zero: the only divisors of
    the source that can be zero are array lengths. *)
Definition div (a b : num) : num :=
  match a, b with
  | NaN, _ | _, NaN => NaN
  | Fin p, Fin q =>
      if Qeq_bool q 0
      then match p ?= 0 with Gt => PInf | Lt => NInf | Eq => NaN end
      else Fin (p / q)
  | Fin _, PInf | Fin _, NInf => Fin 0
  | PInf, Fin q => signed (Qle_bool 0 q)
  | NInf, Fin q => signed (negb (Qle_bool 0 q))
  | PInf, PInf | PInf, NInf | NInf, PInf | NInf, NInf => NaN
  end.

(** [a < b]; every comparison with [NaN] is false. *)
Definition lt (a b : num) : bool :=
  match a, b with
  | NaN, _ | _, NaN => false
  | Fin p, Fin q => Qlt_bool p q
  | NInf, NInf => false
  | NInf, _ => true
  | Fin _, PInf => true
  | Fin _, NInf => false
  | PInf, _ => false
  end.

Definition gt (a b : num) : bool := lt b a.

(** [a <= b]. *)
Definition le (a b : num) : bool :=
  match a, b with
  | NaN, _ | _, NaN => false
  | Fin p, Fin q => Qle_bool p q
  | NInf, _ => true
  | _, PInf => true
  | Fin _, NInf => false
  | PInf, _ => false
  end.

(** [Math.min] and [Math.max]: [NaN] as soon as one argument is. *)
Definition min (a b : num) : num :=
  match a, b with
  | NaN, _ | _, NaN => NaN
  | _, _ => if le a b then a else b
  end.

Definition max (a b : num) : num :=
  match a, b with
  | NaN, _ | _, NaN => NaN
  | _, _ => if le a b then b else a
  end.

(** Truthiness of a number: [0] and [NaN] are falsy. *)
Definition truthy (a : num) : bool :=
  match a with
  | Fin q => negb (Qeq_bool q 0)
  | PInf | NInf => true
  | NaN => false
  end.

(** [a || b] on numbers. *)
Definition or_else (a b : num) : num := if truthy a then a else b.

(** The length of an array, as a number. *)
Definition of_nat (n : nat) : num := Fin (inject_Z (Z.of_nat n)).

(** Equality of the denoted values. *)
Definition eqv (a b : num) : Prop :=
  match a, b with
  | Fin p, Fin q => p == q
  | PInf, PInf | NInf, NInf | NaN, NaN => True
  | _, _ => False
  end.

(** A finite number between two rationals. *)
Definition within (lo hi : Q) (a : num) : Prop :=
  match a with
  | Fin q => lo <= q /\ q <= hi
  | _ => False
  end.

(** A number that is neither [NaN] nor negative: a non-negative rational
    or [+Infinity]. *)
Definition nonneg (a : num) : Prop :=
  match a with
  | Fin q => 0 <= q
  | PInf => True
  | _ => False
  end.

End JS.

(** Sequencing of partial steps: [None] stands for an uncaught [TypeError]
    (a property read on [undefined]). *)
Definition obind {A B} (m : option A) (k : A -> option B) : option B :=
  match m with
  | Some a => k a
  | None => None
  end.

(** [l.map(f)] where [f] may throw. *)
Fixpoint map_opt {A B} (f : A -> option B) (l : list A) : option (list B) :=
  match l with
  | [] => Some []
  | x :: l' =>
      obind (f x) (fun y => obind (map_opt f l') (fun ys => Some (y :: ys)))
  end.

(* ------------------------------------------------------------------ *)
(** ** The ring variant (features/simulation/hooks/useSimulation.ts) *)

Module Ring.
Import JS.

Inductive HealthStatus : Type := healthy | warning | failed | healing.

Definition status_eqb (a b : HealthStatus) : bool :=
  match a, b with
  | healthy, healthy | warning, warning | failed, failed | healing, healing => true
  | _, _ => false
  end.

Record Agent : Type := {
  id : Z;
  temperature : num;
  targetTemperature : num;
  load : num;
  fanSpeed : num;
  healthStatus : HealthStatus;
  neighbors : list Z;
  isHealing : bool;
  communicating : bool
}.

Record SimulationStats : Type := {
  averageTemperature : num;
  healthyAgents : nat;
  failedAgents : nat;
  totalLoad : num
}.

Definition INITIAL_TEMP : Q := 25.
Definition TARGET_TEMP : Q := 22.
Definition TEMP_THRESHOLD_HIGH : Q := 28.
Definition TEMP_THRESHOLD_LOW : Q := 20.
Definition COOLING_RATE : Q := 5 # 10.
Definition HEATING_RATE : Q := 3 # 10.

(** The two neighbours of agent [i] in a ring of [count] agents; [%] is the
    remainder that takes the sign of the dividend, [Z.rem]. *)
Definition ring_neighbors (i count : Z) : list Z :=
  [Z.rem (i - 1 + count) count; Z.rem (i + 1) count].

(** The object pushed by one iteration of the loop of
    [createInitialAgents]; the draws are taken in the order of the fields. *)
Definition new_agent (i count : Z) : Rand Agent :=
  (r1 <- random;;
   r2 <- random;;
   ret {| id := i;
          temperature := Fin (INITIAL_TEMP + r1 * 4 - 2);
          targetTemperature := Fin TARGET_TEMP;
          load := Fin (r2 * 50 + 25);
          fanSpeed := Fin 50;
          healthStatus := healthy;
          neighbors := ring_neighbors i count;
          isHealing := false;
          communicating := false |})%rand.

(** [for (let i = 0; i < count; i++)]: the loop from [i] on, for at most
    [fuel] iterations. *)
Fixpoint create_loop (fuel : nat) (i count : Z) : Rand (list Agent) :=
  match fuel with
  | O => ret []
  | S fuel' =>
      if (i <? count)%Z
      then (a <- new_agent i count;;
            rest <- create_loop fuel' (i + 1)%Z count;;
            ret (a :: rest))%rand
      else ret []
  end.

Definition createInitialAgents (count : Z) : Rand (list Agent) :=
  create_loop (Z.to_nat count) 0%Z count.

Definition sum_temperature (l : list Agent) : num :=
  fold_left (fun sum a => add sum (temperature a)) l (Fin 0).

Definition sum_load (l : list Agent) : num :=
  fold_left (fun sum a => add sum (load a)) l (Fin 0).

Definition calculateStats (currentAgents : list Agent) : SimulationStats :=
  {| averageTemperature :=
       div (sum_temperature currentAgents) (of_nat (length currentAgents));
     healthyAgents :=
       length (filter (fun a => status_eqb (healthStatus a) healthy) currentAgents);
     failedAgents :=
       length (filter (fun a => status_eqb (healthStatus a) failed) currentAgents);
     totalLoad := sum_load currentAgents |}.

(** [allAgents[id]]: [None] is [undefined]. *)
Definition lookup (allAgents : list Agent) (i : Z) : option Agent :=
  if (i <? 0)%Z then None else nth_error allAgents (Z.to_nat i).

Definition failed_of (l : list Agent) : list Agent :=
  filter (fun n => status_eqb (healthStatus n) failed) l.

Definition healthy_of (l : list Agent) : list Agent :=
  filter (fun n => status_eqb (healthStatus n) healthy
                   || status_eqb (healthStatus n) healing) l.

(** [failedNeighbors.reduce((sum, n) => sum + n.load, 0) / healthyNeighbors.length]. *)
Definition extraLoad (failedNeighbors healthyNeighbors : list Agent) : num :=
  div (sum_load failedNeighbors) (of_nat (length healthyNeighbors)).

Definition targetFanSpeed0 (agent : Agent) : num :=
  if gt (temperature agent) (Fin TEMP_THRESHOLD_HIGH) then Fin 100
  else if gt (temperature agent) (add (targetTemperature agent) (Fin 2)) then Fin 75
  else if lt (temperature agent) (Fin TEMP_THRESHOLD_LOW) then Fin 25
  else Fin 50.

Definition updateAgent (agent : Agent) (allAgents : list Agent) : option Agent :=
  if status_eqb (healthStatus agent) failed then
    Some {| id := id agent;
            temperature :=
              min (add (temperature agent) (Fin (HEATING_RATE * 2))) (Fin 40);
            targetTemperature := targetTemperature agent;
            load := load agent;
            fanSpeed := Fin 0;
            healthStatus := healthStatus agent;
            neighbors := neighbors agent;
            isHealing := isHealing agent;
            communicating := communicating agent |}
  else
    obind (map_opt (lookup allAgents) (neighbors agent)) (fun neighborAgents =>
    let failedNeighbors := failed_of neighborAgents in
    let healthyNeighbors := healthy_of neighborAgents in
    let '(newHealthStatus, isHealing') :=
      if (0 <? length failedNeighbors)%nat
         && status_eqb (healthStatus agent) healthy
      then (healing, true)
      else if isHealing agent && (length failedNeighbors =? 0)%nat
      then (healthy, false)
      else (healthStatus agent, isHealing agent) in
    let effectiveLoad :=
      add (load agent)
          (or_else (extraLoad failedNeighbors healthyNeighbors) (Fin 0)) in
    let targetFanSpeed := targetFanSpeed0 agent in
    let targetFanSpeed :=
      if gt effectiveLoad (Fin 60)
      then min (Fin 100) (add targetFanSpeed (Fin 20))
      else targetFanSpeed in
    let newFanSpeed :=
      add (fanSpeed agent)
          (mul (sub targetFanSpeed (fanSpeed agent)) (Fin (3 # 10))) in
    let coolingEffect := mul (div newFanSpeed (Fin 100)) (Fin COOLING_RATE) in
    let heatingEffect := mul (div effectiveLoad (Fin 100)) (Fin HEATING_RATE) in
    let tempChange := sub heatingEffect coolingEffect in
    let newTemp := add (temperature agent) tempChange in
    let newHealthStatus :=
      if gt newTemp (Fin 35) then warning
      else if le newTemp (add (targetTemperature agent) (Fin 3))
              && status_eqb newHealthStatus warning
      then (if isHealing' then healing else healthy)
      else newHealthStatus in
    Some {| id := id agent;
            temperature := max (Fin 18) (min (Fin 40) newTemp);
            targetTemperature := targetTemperature agent;
            load := if gt effectiveLoad (load agent)
                    then mul effectiveLoad (Fin (95 # 100))
                    else load agent;
            fanSpeed := newFanSpeed;
            healthStatus := newHealthStatus;
            neighbors := neighbors agent;
            isHealing := isHealing';
            communicating := (0 <? length failedNeighbors)%nat |}).

(** The state of the hook.  [temperatureHistory], a buffer of rounded
    temperatures kept for the chart, is not part of the model. *)
Record State : Type := {
  agents : list Agent;
  isRunning : bool;
  time : Z;
  rng : Rng
}.

Definition with_agents (s : State) (l : list Agent) : State :=
  {| agents := l; isRunning := isRunning s; time := time s; rng := rng s |}.

Definition mark_failed (agent : Agent) : Agent :=
  {| id := id agent;
     temperature := temperature agent;
     targetTemperature := targetTemperature agent;
     load := load agent;
     fanSpeed := Fin 0;
     healthStatus := failed;
     neighbors := neighbors agent;
     isHealing := isHealing agent;
     communicating := communicating agent |}.

Definition mark_repaired (agent : Agent) : Agent :=
  {| id := id agent;
     temperature := temperature agent;
     targetTemperature := targetTemperature agent;
     load := load agent;
     fanSpeed := fanSpeed agent;
     healthStatus := healthy;
     neighbors := neighbors agent;
     isHealing := false;
     communicating := communicating agent |}.

Definition triggerFailure (agentId : Z) (s : State) : State :=
  with_agents s
    (map (fun agent => if (id agent =? agentId)%Z then mark_failed agent else agent)
         (agents s)).

Definition repairAgent (agentId : Z) (s : State) : State :=
  with_agents s
    (map (fun agent => if (id agent =? agentId)%Z then mark_repaired agent else agent)
         (agents s)).

Definition toggleSimulation (s : State) : State :=
  {| agents := agents s; isRunning := negb (isRunning s);
     time := time s; rng := rng s |}.

(** One run of [simulationStep]: every agent is updated from the array of
    the previous tick. *)
Definition simulationStep (s : State) : option State :=
  obind (map_opt (fun agent => updateAgent agent (agents s)) (agents s))
        (fun updatedAgents =>
           Some {| agents := updatedAgents; isRunning := isRunning s;
                   time := (time s + 1)%Z; rng := rng s |}).

(** The interval timer exists only while [isRunning]. *)
Definition timer (s : State) : option State :=
  if isRunning s then simulationStep s else Some s.

Section Hook.

(** The argument of [useSimulation]. *)
Variable agentCount : Z.

Definition init (g : Rng) : State :=
  let (l, g') := createInitialAgents agentCount g in
  {| agents := l; isRunning := false; time := 0%Z; rng := g' |}.

Definition resetSimulation (s : State) : State := init (rng s).

Inductive Command : Type :=
| Timer
| Toggle
| Reset
| TriggerFailure (agentId : Z)
| RepairAgent (agentId : Z).

Definition exec (c : Command) (s : State) : option State :=
  match c with
  | Timer => timer s
  | Toggle => Some (toggleSimulation s)
  | Reset => Some (resetSimulation s)
  | TriggerFailure agentId => Some (triggerFailure agentId s)
  | RepairAgent agentId => Some (repairAgent agentId s)
  end.

Fixpoint run (cs : list Command) (s : State) : option State :=
  match cs with
  | [] => Some s
  | c :: cs' => obind (exec c s) (run cs')
  end.

End Hook.

End Ring.

(* ------------------------------------------------------------------ *)
(** ** The tick-counter variant (the hook [useSimulation(scenario)]) *)

Module Tick.

Local Open Scope string_scope.

Inductive Scenario : Type := prototype | vision.

Inductive AgentStatus : Type := healthy | faulty | compensating | cooling.

Record AgentData : Type := {
  id : Z;
  temperature : Q;
  fanSpeed : Q;
  power : Q;
  status : AgentStatus
}.

Record SimulationData : Type := {
  agents : list AgentData;
  avgTemp : Q;
  variance : Q;
  avgPower : Q;
  recoveryTime : Z;
  efficiency : Q;
  phase : string;
  phaseDescription : string
}.

(** A number appended to a string. *)
Definition show_Z (z : Z) : string :=
  DecimalString.NilZero.string_of_int (Z.to_int z).

Section Hook.

Variable scenario : Scenario.

Definition is_prototype : bool :=
  match scenario with prototype => true | vision => false end.

Definition is_vision : bool :=
  match scenario with vision => true | prototype => false end.

Definition maxSteps : Z := if is_prototype then 200 else 250.
Definition numAgents : Z := if is_prototype then 6 else 20.
Definition faultStep : Z := if is_prototype then 50 else 100.

Definition targetTemp : Q := 25.

(** The phase label and its description. *)
Definition phase_of (currentStep : Z) (manualFault : bool) : string * string :=
  if (currentStep <? faultStep)%Z then
    ("Stable Operation",
     if is_prototype
     then "System Stable — Energy Efficient Cooling"
     else "AI Swarm Maintaining Thermal Balance")
  else if (currentStep =? faultStep)%Z || manualFault then
    ("Fault Detected",
     if is_prototype
     then "⚠️ Fault Detected — Cooling Failure in Agent "
          ++ show_Z (numAgents - 1)
     else "⚙️ Autonomous Self-Healing in Progress — Multi-Fault Adaptation")
  else if (currentStep <? faultStep + 50)%Z then
    ("Self-Healing Response",
     if is_prototype
     then "Self-Healing in Progress — Adaptive Load Redistribution"
     else "⚙️ Autonomous Self-Healing in Progress")
  else
    ("System Stabilized",
     if is_prototype
     then "✅ System Stabilized — Partial Recovery Achieved"
     else "✅ System Restored — Zero Downtime Achieved").

Definition isFaultyAgent (i : Z) : bool :=
  if is_prototype
  then (i =? numAgents - 1)%Z
  else (i =? numAgents - 1)%Z || (i =? numAgents - 2)%Z || (i =? numAgents - 3)%Z.

(** The body of the loop that generates agent [i]; the draws are taken
    in the order of the assignments. *)
Definition agent_at (currentStep : Z) (manualFault : bool) (i : Z)
  : Rand AgentData :=
  if (currentStep >=? faultStep)%Z || manualFault then
    if isFaultyAgent i && (currentStep <? faultStep + 100)%Z then
      (r <- random;;
       ret {| id := i; temperature := targetTemp + 5 + r * 3;
              fanSpeed := 0; power := 0; status := faulty |})%rand
    else if negb (isFaultyAgent i)
            && (Z.abs (i - (numAgents - 1)) <=? (if is_vision then 5 else 2))%Z
    then
      if (currentStep <? faultStep + 50)%Z then
        (rf <- random;;
         rp <- random;;
         rt <- random;;
         ret {| id := i; temperature := targetTemp - (5 # 10) - rt;
                fanSpeed := 75 + rf * 20; power := 500 + rp * 100;
                status := compensating |})%rand
      else
        (rf <- random;;
         rp <- random;;
         rt <- random;;
         ret {| id := i; temperature := targetTemp + (rt - (5 # 10)) * (5 # 10);
                fanSpeed := 55 + rf * 10; power := 440 + rp * 20;
                status := healthy |})%rand
    else
      (rt <- random;;
       rf <- random;;
       rp <- random;;
       ret {| id := i;
              temperature :=
                targetTemp + (rt - (5 # 10)) * (if is_vision then 2 # 10 else 1);
              fanSpeed := 50 + rf * 10; power := 430 + rp * 20;
              status := healthy |})%rand
  else
    (rt <- random;;
     rf <- random;;
     rp <- random;;
     ret {| id := i;
            temperature :=
              targetTemp + (rt - (5 # 10)) * (if is_vision then 1 # 10 else 4 # 10);
            fanSpeed := 50 + rf * 5; power := 430 + rp * 10;
            status := healthy |})%rand.

(** [for (let i = 0; i < numAgents; i++)] from [i] on. *)
Fixpoint generate (fuel : nat) (currentStep : Z) (manualFault : bool) (i : Z)
  : Rand (list AgentData) :=
  match fuel with
  | O => ret []
  | S fuel' =>
      if (i <? numAgents)%Z
      then (a <- agent_at currentStep manualFault i;;
            rest <- generate fuel' currentStep manualFault (i + 1)%Z;;
            ret (a :: rest))%rand
      else ret []
  end.

Definition sum_by (f : AgentData -> Q) (l : list AgentData) : Q :=
  fold_left (fun sum a => sum + f a) l 0.

Definition calculateSimulationData (currentStep : Z) (manualFault : bool)
  : Rand SimulationData :=
  (agents <- generate (Z.to_nat numAgents) currentStep manualFault 0%Z;;
   let avgTemp := sum_by temperature agents / inject_Z numAgents in
   let variance :=
     sum_by (fun a => (temperature a - avgTemp) ^ 2) agents / inject_Z numAgents in
   let avgPower := sum_by power agents / inject_Z numAgents in
   let recoveryTime :=
     if (currentStep >? faultStep)%Z && (currentStep <? faultStep + 50)%Z
     then (currentStep - faultStep)%Z else 0%Z in
   let efficiency :=
     if is_vision
     then (if (currentStep >? faultStep + 100)%Z then 1 else 85 # 100)
     else (if (currentStep <? faultStep)%Z then 42 # 100
           else if (currentStep >? faultStep + 100)%Z then 38 # 100
           else 30 # 100) in
   ret {| agents := agents; avgTemp := avgTemp; variance := variance;
          avgPower := avgPower; recoveryTime := recoveryTime;
          efficiency := efficiency;
          phase := fst (phase_of currentStep manualFault);
          phaseDescription := snd (phase_of currentStep manualFault) |})%rand.

Record State : Type := {
  step : Z;
  isPlaying : bool;
  faultInjected : bool;
  data : SimulationData;
  rng : Rng
}.

Definition init (g : Rng) : State :=
  let (d, g') := calculateSimulationData 0 false g in
  {| step := 0; isPlaying := false; faultInjected := false;
     data := d; rng := g' |}.

(** The callback of the interval, which exists only while [isPlaying]:
    the counter wraps to 0 once it has reached [maxSteps]. *)
Definition timer (s : State) : State :=
  if isPlaying s then
    let next := if (step s >=? maxSteps)%Z then 0%Z else (step s + 1)%Z in
    let (d, g') := calculateSimulationData next (faultInjected s) (rng s) in
    {| step := next; isPlaying := isPlaying s;
       faultInjected := faultInjected s; data := d; rng := g' |}
  else s.

Definition handlePlayPause (s : State) : State :=
  {| step := step s; isPlaying := negb (isPlaying s);
     faultInjected := faultInjected s; data := data s; rng := rng s |}.

Definition handleReset (s : State) : State :=
  let (d, g') := calculateSimulationData 0 false (rng s) in
  {| step := 0; isPlaying := false; faultInjected := false;
     data := d; rng := g' |}.

Definition handleInjectFault (s : State) : State :=
  if negb (faultInjected s) then
    let (d, g') := calculateSimulationData faultStep true (rng s) in
    {| step := faultStep; isPlaying := isPlaying s;
       faultInjected := true; data := d; rng := g' |}
  else s.

Definition canInjectFault (s : State) : bool :=
  negb (faultInjected s) && (step s <? faultStep)%Z.

Inductive Command : Type := Timer | PlayPause | Reset | InjectFault.

Definition exec (c : Command) (s : State) : State :=
  match c with
  | Timer => timer s
  | PlayPause => handlePlayPause s
  | Reset => handleReset s
  | InjectFault => handleInjectFault s
  end.

Definition run (cs : list Command) (s : State) : State :=
  fold_left (fun s c => exec c s) cs s.

End Hook.

End Tick.

(* ------------------------------------------------------------------ *)
(** ** The plain-JavaScript variant (script.js) *)

(** [l.forEach(x => body)] where [body] updates a store and may throw. *)
Fixpoint for_each {A S} (body : S -> A -> option S) (l : list A) (s : S)
  : option S :=
  match l with
  | [] => Some s
  | x :: l' => obind (body s x) (for_each body l')
  end.

Module Swarm.

Local Open Scope string_scope.

Inductive Status : Type := OK | HOT | FAIL.

Definition status_eqb (a b : Status) : bool :=
  match a, b with
  | OK, OK | HOT, HOT | FAIL, FAIL => true
  | _, _ => false
  end.

Record Agent : Type := {
  id : string;
  temp : Q;
  load : Q;
  power : Q;
  neighbors : list string;
  status : Status
}.

(** [state.data]. *)
Record Data : Type := {
  energyMW : Q;
  lossPct : Q;
  uptime : Q;
  renMix : Q
}.

(** The two copies of script.js: [swarmStep] ends with failure and then
    settling in one, with settling and then failure in the other. *)
Inductive Copy : Type := HacktonWeb1 | newWeb.

(** The global [state] object, the global [agents] array and the random
    source.  [running] is also the presence of the interval [loopId]. *)
Record State : Type := {
  running : bool;
  tick : Z;
  history : list Data;
  data : Data;
  agents : list Agent;
  rng : Rng
}.

Definition agentNames : list string :=
  ["Z1-A"; "Z1-B"; "Z2-A"; "Z2-B"; "Z3-A"; "Z3-B"].

Definition initial_data : Data :=
  {| energyMW := 22; lossPct := 36 # 10; uptime := 9996 # 100; renMix := 32 |}.

(** Field updates on the agent objects. *)
Definition set_temp (v : Q) (a : Agent) : Agent :=
  {| id := id a; temp := v; load := load a; power := power a;
     neighbors := neighbors a; status := status a |}.

Definition set_load (v : Q) (a : Agent) : Agent :=
  {| id := id a; temp := temp a; load := v; power := power a;
     neighbors := neighbors a; status := status a |}.

Definition set_power (v : Q) (a : Agent) : Agent :=
  {| id := id a; temp := temp a; load := load a; power := v;
     neighbors := neighbors a; status := status a |}.

Definition set_status (v : Status) (a : Agent) : Agent :=
  {| id := id a; temp := temp a; load := load a; power := power a;
     neighbors := neighbors a; status := v |}.

Definition set_neighbors (v : list string) (a : Agent) : Agent :=
  {| id := id a; temp := temp a; load := load a; power := power a;
     neighbors := v; status := status a |}.

(** The array holds objects: an agent is referred to by its position in
    the array, and a write through any reference changes that object. *)
Fixpoint modify (i : nat) (f : Agent -> Agent) (l : list Agent) : list Agent :=
  match l, i with
  | [], _ => []
  | a :: l', O => f a :: l'
  | a :: l', S i' => a :: modify i' f l'
  end.

(** [agents.find(a => a.id === id)], as the position of the object. *)
Fixpoint agentById (l : list Agent) (nid : string) : option nat :=
  match l with
  | [] => None
  | a :: l' =>
      if String.eqb (id a) nid then Some O
      else option_map S (agentById l' nid)
  end.

(** The objects created by [agentNames.map(...)]. *)
Fixpoint create (names : list string) : Rand (list Agent) :=
  match names with
  | [] => ret []
  | name :: names' =>
      (t <- rnd 25 28;;
       l <- rnd (35 # 100) (65 # 100);;
       p <- rnd (25 # 10) (45 # 10);;
       rest <- create names';;
       ret ({| id := name; temp := t; load := l; power := p;
               neighbors := []; status := OK |} :: rest))%rand
  end.

(** The loop that links every agent to the previous and to the next one.
    The two tests keep [i - 1] and [i + 1] inside the array, so the reads
    [agents[i-1]] and [agents[i+1]] always find an object. *)
Definition link_one (l : list Agent) (i : nat) : list Agent :=
  let l1 :=
    if (0 <? i)%nat
    then match nth_error l (i - 1) with
         | Some p => modify i (fun a => set_neighbors (neighbors a ++ [id p]) a) l
         | None => l
         end
    else l in
  if (i <? length l - 1)%nat
  then match nth_error l1 (i + 1) with
       | Some n => modify i (fun a => set_neighbors (neighbors a ++ [id n]) a) l1
       | None => l1
       end
  else l1.

Definition link (l : list Agent) : list Agent :=
  fold_left link_one (seq 0 (length l)) l.

Definition initial_agents : Rand (list Agent) :=
  (l <- create agentNames;; ret (link l))%rand.

(** First phase of [swarmStep]: the local update of every agent. *)
Fixpoint local_update (ambient renBoost : Q) (l : list Agent) : Rand (list Agent) :=
  match l with
  | [] => ret []
  | a :: l' =>
      let heat := load a * 8 in
      let cooling := power a * ((18 # 10) + renBoost) in
      (jt <- rnd (- (15 # 100)) (2 # 10);;
       jl <- rnd (- (2 # 100)) (2 # 100);;
       let a1 :=
         set_temp (clamp (temp a + (5 # 100) * heat - (6 # 100) * cooling + jt)
                         (ambient - 1) 42) a in
       let a2 := set_load (clamp (load a1 + jl) (15 # 100) (95 # 100)) a1 in
       rest <- local_update ambient renBoost l';;
       ret (a2 :: rest))%rand
  end.

(** The positions of the agents selected by [agents.filter(a => a.temp > 33)]. *)
Fixpoint hot_from (i : nat) (l : list Agent) : list nat :=
  match l with
  | [] => []
  | a :: l' =>
      if Qlt_bool 33 (temp a) then i :: hot_from (S i) l' else hot_from (S i) l'
  end.

Definition hot (l : list Agent) : list nat := hot_from 0 l.

Definition raise_power (d : Q) (n : Agent) : Agent :=
  set_power (clamp (power n + d) (15 # 10) 6) n.

Definition lower_power (a : Agent) : Agent :=
  set_power (clamp (power a - (12 # 100)) 1 6) a.

(** The body of [a.neighbors.forEach] for the hot agent at position [a]. *)
Definition share_duty (a : nat) (l : list Agent) (nid : string)
  : option (list Agent) :=
  obind (agentById l nid) (fun n =>
    Some (modify a lower_power (modify n (raise_power (15 # 100)) l))).

(** The body of [hot.forEach]. *)
Definition heal (l : list Agent) (a : nat) : option (list Agent) :=
  obind (nth_error l a) (fun x =>
    for_each (share_duty a) (neighbors x) (modify a (set_status HOT) l)).

(** Second phase: anomaly detection and neighbour balancing. *)
Definition balance (l : list Agent) : option (list Agent) :=
  for_each heal (hot l) l.

Definition boost (l : list Agent) (nid : string) : option (list Agent) :=
  obind (agentById l nid) (fun n => Some (modify n (raise_power (5 # 10)) l)).

Definition fail_agent (a : Agent) : Agent :=
  let a1 := set_status FAIL a in
  set_power (clamp (power a1 * (2 # 10)) (2 # 10) 1) a1.

(** The rare failure. *)
Definition rare_failure (l : list Agent) (g : Rng) : option (list Agent * Rng) :=
  let (r, g1) := random g in
  if Qlt_bool r (2 # 100) then
    let (r', g2) := random g1 in
    let i := Qfloor (r' * inject_Z (Z.of_nat (length l))) in
    if (i <? 0)%Z then None
    else
      obind (nth_error l (Z.to_nat i)) (fun failing =>
      obind (for_each boost (neighbors failing)
                      (modify (Z.to_nat i) fail_agent l)) (fun l' =>
      Some (l', g2)))
  else Some (l, g1).

(** The settling of the agents that are neither hot nor failed. *)
Fixpoint settle (l : list Agent) : Rand (list Agent) :=
  match l with
  | [] => ret []
  | a :: l' =>
      if Qle_bool (temp a) 33 && negb (status_eqb (status a) FAIL) then
        (j <- rnd (- (8 # 100)) (8 # 100);;
         let a1 := set_status OK a in
         let a2 := set_power (clamp (power a1 + j) (15 # 10) 6) a1 in
         rest <- settle l';;
         ret (a2 :: rest))%rand
      else
        (rest <- settle l';; ret (a :: rest))%rand
  end.

Section Script.

(** [Math.sin], which the development does not compute. *)
Variable Math_sin : Q -> Q.

Variable copy : Copy.

Definition swarmStep (s : State) : option State :=
  let ambient := 24 + Math_sin (inject_Z (tick s) / 25) * 1 in
  let renBoost := (renMix (data s) - 30) * (2 # 1000) in
  let (l1, g1) := local_update ambient renBoost (agents s) (rng s) in
  obind (balance l1) (fun l2 =>
  obind (match copy with
         | HacktonWeb1 =>
             obind (rare_failure l2 g1) (fun '(l3, g3) => Some (settle l3 g3))
         | newWeb =>
             let (l3, g3) := settle l2 g1 in rare_failure l3 g3
         end) (fun '(l4, g4) =>
  Some {| running := running s; tick := tick s; history := history s;
          data := data s; agents := l4; rng := g4 |})).

(** [step()], the callback of the interval. *)
Definition step (s : State) : option State :=
  let tick' := (tick s + 1)%Z in
  let day := Math_sin (inject_Z tick' / 20) in
  let (je, g1) := rnd (- (4 # 10)) (6 # 10) (rng s) in
  let energyMW' := clamp (energyMW (data s) + je + day * (25 # 100)) 12 40 in
  let (jr, g2) := rnd (- (8 # 10)) 1 g1 in
  let renMix' := clamp (renMix (data s) + jr) 15 80 in
  let (jl, g3) := rnd (- (8 # 100)) (10 # 100) g2 in
  let lossPct' :=
    clamp (lossPct (data s) + jl - (renMix' - 30) * (2 # 1000)) 2 (62 # 10) in
  let uptime' :=
    clamp ((9990 # 100) + Math_abs (Math_sin (inject_Z tick' / 200)) * (1 # 10))
          (997 # 10) 100 in
  let data' := {| energyMW := energyMW'; lossPct := lossPct';
                  uptime := uptime'; renMix := renMix' |} in
  let history1 := (history s ++ [data'])%list in
  let history' := if (120 <? length history1)%nat then tl history1 else history1 in
  obind (swarmStep {| running := running s; tick := tick'; history := history';
                      data := data'; agents := agents s; rng := g3 |})
        (fun s' =>
           let (_, g') := random (rng s') in
           Some {| running := running s'; tick := tick s'; history := history s';
                   data := data s'; agents := agents s'; rng := g' |}).

Definition timer (s : State) : option State :=
  if running s then step s else Some s.

Definition start (s : State) : State :=
  if running s then s
  else {| running := true; tick := tick s; history := history s;
          data := data s; agents := agents s; rng := rng s |}.

Definition stop (s : State) : State :=
  if running s
  then {| running := false; tick := tick s; history := history s;
          data := data s; agents := agents s; rng := rng s |}
  else s.

(** The redraw of every agent by [reset()]. *)
Fixpoint redraw (l : list Agent) : Rand (list Agent) :=
  match l with
  | [] => ret []
  | a :: l' =>
      (t <- rnd 25 28;;
       ld <- rnd (35 # 100) (65 # 100);;
       p <- rnd (25 # 10) (45 # 10);;
       rest <- redraw l';;
       ret (set_status OK (set_power p (set_load ld (set_temp t a))) :: rest))%rand
  end.

Definition reset (s : State) : State :=
  let s1 := stop s in
  let (l, g) := redraw (agents s1) (rng s1) in
  {| running := running s1; tick := 0; history := [];
     data := initial_data; agents := l; rng := g |}.

(** The state once the script has been loaded: it ends with [start()]. *)
Definition init (g : Rng) : State :=
  let (l, g') := initial_agents g in
  start {| running := false; tick := 0; history := [];
           data := initial_data; agents := l; rng := g' |}.

Inductive Command : Type := Timer | Start | Stop | Reset.

Definition exec (c : Command) (s : State) : option State :=
  match c with
  | Timer => timer s
  | Start => Some (start s)
  | Stop => Some (stop s)
  | Reset => Some (reset s)
  end.

Fixpoint run (cs : list Command) (s : State) : option State :=
  match cs with
  | [] => Some s
  | c :: cs' => obind (exec c s) (run cs')
  end.

End Script.

End Swarm.

(* ------------------------------------------------------------------ *)
(** ** Vocabulary of the specification *)

(** The four phase labels of the specification and the text the hook
    shows for each of them. *)
Inductive PhaseLabel : Type := Stable | FaultDetected | SelfHealing | Stabilized.

Definition label_text (p : PhaseLabel) : string :=
  match p with
  | Stable => "Stable Operation"
  | FaultDetected => "Fault Detected"
  | SelfHealing => "Self-Healing Response"
  | Stabilized => "System Stabilized"
  end.

(** The only engine-level error of the specification, and the two ways a
    construction can end. *)
Inductive EngineError : Type := InvalidConfig.

Inductive Completion (A : Type) : Type :=
| Returned (a : A)
| Threw (e : EngineError).

Arguments Returned {A} a.
Arguments Threw {A} e.

(** Construction of the ring engine: the initial render of
    [useSimulation(agentCount)].  Neither the hook nor
    [createInitialAgents] has a [throw]. *)
Definition create_engine (agentCount : Z) (g : Rng) : Completion Ring.State :=
  Returned (Ring.init agentCount g).

(* ------------------------------------------------------------------ *)
(** ** Closed forms and invariants used by the proofs *)

Module RingInv.
Import JS Ring.

(** The source advanced by [n] draws. *)
Definition skip (n : nat) (g : Rng) : Rng :=
  {| draws := draws g; cursor := (cursor g + n)%nat |}.

(** The [k]-th agent built by [createInitialAgents count] from the source
    [g]: it uses the draws [2k] and [2k+1] after the cursor. *)
Definition initial_agent (g : Rng) (count : Z) (k : nat) : Agent :=
  {| id := Z.of_nat k;
     temperature :=
       Fin (INITIAL_TEMP + draws g (cursor g + 2 * k)%nat * 4 - 2);
     targetTemperature := Fin TARGET_TEMP;
     load := Fin (draws g (cursor g + 2 * k + 1)%nat * 50 + 25);
     fanSpeed := Fin 50;
     healthStatus := healthy;
     neighbors := ring_neighbors (Z.of_nat k) count;
     isHealing := false;
     communicating := false |}.

(** The neighbour list of the agent stored at index [i] (empty when there
    is no such agent). *)
Definition neighbors_of (l : list Agent) (i : Z) : list Z :=
  match lookup l i with
  | Some a => neighbors a
  | None => []
  end.

(** Every neighbour id is an index of the array. *)
Definition linked (l : list Agent) : Prop :=
  Forall (fun a => Forall (fun n => (0 <= n < Z.of_nat (length l))%Z) (neighbors a)) l.

(** The bounds that the ring variant keeps: temperature in [18,40], fan
    speed in [0,100], and a load that is never negative and never [NaN]
    (it may be [+Infinity]). *)
Definition agent_ok (a : Agent) : Prop :=
  within 18 40 (temperature a) /\
  within 0 100 (fanSpeed a) /\
  nonneg (load a).

Definition inv (s : State) : Prop :=
  linked (agents s) /\ Forall agent_ok (agents s) /\ fair (rng s).

End RingInv.

Module RingStep.
Import JS Ring.

(** The quantities that [updateAgent] computes for an agent that has not
    failed, as functions of the agent and of its neighbour objects. *)
Definition effectiveLoad_of (agent : Agent) (neighborAgents : list Agent) : num :=
  add (load agent)
      (or_else (extraLoad (failed_of neighborAgents) (healthy_of neighborAgents))
               (Fin 0)).

Definition fan_target (agent : Agent) (effectiveLoad : num) : num :=
  if gt effectiveLoad (Fin 60)
  then min (Fin 100) (add (targetFanSpeed0 agent) (Fin 20))
  else targetFanSpeed0 agent.

Definition new_fan (agent : Agent) (effectiveLoad : num) : num :=
  add (fanSpeed agent)
      (mul (sub (fan_target agent effectiveLoad) (fanSpeed agent)) (Fin (3 # 10))).

Definition new_temp (agent : Agent) (effectiveLoad : num) : num :=
  add (temperature agent)
      (sub (mul (div effectiveLoad (Fin 100)) (Fin HEATING_RATE))
           (mul (div (new_fan agent effectiveLoad) (Fin 100)) (Fin COOLING_RATE))).

Definition new_load (agent : Agent) (effectiveLoad : num) : num :=
  if gt effectiveLoad (load agent)
  then mul effectiveLoad (Fin (95 # 100))
  else load agent.

(** The rewriting of one agent by [triggerFailure k]. *)
Definition fail_if (k : Z) (agent : Agent) : Agent :=
  if (id agent =? k)%Z then mark_failed agent else agent.

End RingStep.

(** Aggregates in the words of the specification: the arithmetic mean, the
    sum, and the population variance (divisor = number of values). *)
Module Aggregate.

Definition total (l : list Q) : Q := fold_right Qplus 0 l.

Definition count (l : list Q) : Q := inject_Z (Z.of_nat (length l)).

Definition mean (l : list Q) : Q := total l / count l.

Definition population_variance (l : list Q) : Q :=
  total (map (fun x => (x - mean l) * (x - mean l)) l) / count l.

(** The same over JavaScript numbers. *)
Definition js_total (l : list JS.num) : JS.num := fold_right JS.add (JS.Fin 0) l.

Definition js_mean (l : list JS.num) : JS.num :=
  JS.div (js_total l) (JS.of_nat (length l)).

End Aggregate.

Module TickInv.
Import Tick.

(** The aggregates of a snapshot agree with its own agent list. *)
Definition consistent (sc : Scenario) (d : SimulationData) : Prop :=
  Z.of_nat (length (agents d)) = numAgents sc /\
  avgTemp d == Aggregate.mean (map temperature (agents d)) /\
  variance d == Aggregate.population_variance (map temperature (agents d)) /\
  avgPower d == Aggregate.mean (map power (agents d)).

(** The ranges that the constants of [calculateSimulationData] imply. *)
Definition agent_ok (a : AgentData) : Prop :=
  (235 # 10) <= temperature a /\ temperature a <= 33 /\
  0 <= fanSpeed a /\ fanSpeed a <= 100 /\
  0 <= power a /\ power a <= 600.

(** The fault window of a snapshot: the fault has happened (by the tick or
    by hand) and fewer than 100 ticks separate the tick from the fault tick. *)
Definition in_fault_window (sc : Scenario) (currentStep : Z) (manualFault : bool) : Prop :=
  ((faultStep sc <= currentStep)%Z \/ manualFault = true) /\
  (currentStep < faultStep sc + 100)%Z.

(** What a snapshot shows of the agents selected as faulty.  The upper
    bound is not strict: a draw below 1 gives a value below 33, which the
    rounding of the sum can bring to 33 itself. *)
Definition faulty_shown (sc : Scenario) (a : AgentData) : Prop :=
  isFaultyAgent sc (id a) = true ->
  status a = faulty /\ fanSpeed a == 0 /\ power a == 0 /\
  30 <= temperature a /\ temperature a <= 33.

Definition inv (sc : Scenario) (s : State) : Prop :=
  fair (rng s) /\ Forall agent_ok (agents (data s)) /\ consistent sc (data s).

End TickInv.

Module SwarmInv.
Import Swarm.

Local Open Scope string_scope.

(** The neighbour lists that the linking loop gives to the six agents. *)
Definition line_table : list (list string) :=
  [["Z1-B"]; ["Z1-A"; "Z2-A"]; ["Z1-B"; "Z2-B"];
   ["Z2-A"; "Z3-A"]; ["Z2-B"; "Z3-B"]; ["Z3-A"]].

(** The fixed part of the population: the ids and the line topology. *)
Definition shape (l : list Agent) : Prop :=
  map id l = agentNames /\ map neighbors l = line_table.

(** The bounds that script.js keeps: the temperature clamp runs from
    [ambient - 1 >= 22] to 42, the power clamps from 0.2 (failed agent),
    1.0 (hot agent) or 1.5 to 6.0, the load clamp from 0.15 to 0.95. *)
Definition agent_ok (a : Agent) : Prop :=
  22 <= temp a /\ temp a <= 42 /\
  (2 # 10) <= power a /\ power a <= 6 /\
  (15 # 100) <= load a /\ load a <= (95 # 100).

(** The part of the invariant that concerns the agent array. *)
Definition kept (l : list Agent) : Prop := shape l /\ Forall agent_ok l.

Definition inv (s : State) : Prop := kept (agents s) /\ fair (rng s).

(** What the development assumes of [Math.sin]. *)
Definition bounded_sine (f : Q -> Q) : Prop := forall x, -1 <= f x /\ f x <= 1.

(** The decrement of a hot agent applied [n] times, clamped each time. *)
Definition lowered (n : nat) (p : Q) : Q :=
  Nat.iter n (fun v => clamp (v - (12 # 100)) 1 6) p.

(** The increment of a neighbour of a hot agent. *)
Definition raised (p : Q) : Q := clamp (p + (15 # 100)) (15 # 10) 6.

(** Positions next to each other on the line. *)
Definition adjacent (i j : nat) : bool := ((i =? S j) || (j =? S i))%nat.

End SwarmInv.

(* ------------------------------------------------------------------ *)
(** ** The ring variant: status, structure and the chart history *)

Module RingMore.
Import JS Ring RingStep.

(** The first decision of [updateAgent] on the health status and the
    healing flag, from the failed neighbours. *)
Definition healing_step (agent : Agent) (neighborAgents : list Agent)
  : HealthStatus * bool :=
  if (0 <? length (failed_of neighborAgents))%nat
     && status_eqb (healthStatus agent) healthy
  then (healing, true)
  else if isHealing agent && (length (failed_of neighborAgents) =? 0)%nat
  then (healthy, false)
  else (healthStatus agent, isHealing agent).

(** The status that [updateAgent] stores, after the temperature check. *)
Definition new_status (agent : Agent) (neighborAgents : list Agent) : HealthStatus :=
  let newTemp := new_temp agent (effectiveLoad_of agent neighborAgents) in
  if gt newTemp (Fin 35) then warning
  else if le newTemp (add (targetTemperature agent) (Fin 3))
          && status_eqb (fst (healing_step agent neighborAgents)) warning
  then (if snd (healing_step agent neighborAgents) then healing else healthy)
  else fst (healing_step agent neighborAgents).

(** The ids, the neighbour lists and the targets of a population: what no
    step and no command changes. *)
Definition frame (l : list Agent) : list (Z * list Z * num) :=
  map (fun a => (id a, neighbors a, targetTemperature a)) l.

(** [Math.round]: the nearest integer, halves upwards. *)
Definition Math_round (a : num) : num :=
  match a with
  | Fin q => Fin (inject_Z (Qfloor (q + (1 # 2))))
  | other => other
  end.

(** The rounding of a result to a number of the machine, which the
    development does not compute: [rounding eps fl] says what it uses of
    it on results between 1 and 1000.  The rounding is monotone, it keeps
    the integers, and its relative error is at most [eps]; the rounding to
    the nearest double has these properties with [eps] = 2^-53. *)
Definition rounding (eps : Q) (fl : Q -> Q) : Prop :=
  0 <= eps /\
  (forall x y, x <= y -> fl x <= fl y) /\
  (forall n : Z, (0 <= n <= 1000)%Z -> fl (inject_Z n) == inject_Z n) /\
  (forall x, 1 <= x -> x <= 1000 -> fl x - x <= eps * x /\ x - fl x <= eps * x).

(** The rounding to the nearest multiple of 2^-40, halves upwards: a
    rounding with [eps] = 2^-41. *)
Definition two_40 : Q := 1099511627776.

Definition nearest_40 (x : Q) : Q :=
  inject_Z (Qfloor (x * two_40 + (1 # 2))) / two_40.

Section Rounding.

Variable fl : Q -> Q.

(** A finite result rounded. *)
Definition rounded (a : num) : num :=
  match a with
  | Fin q => Fin (fl q)
  | other => other
  end.

(** [Math.round(agent.temperature * 10) / 10], the value the chart gets:
    the product and the quotient are rounded, [Math.round] is exact. *)
Definition chart_value (agent : Agent) : num :=
  rounded (div (Math_round (rounded (mul (temperature agent) (Fin 10)))) (Fin 10)).

(** [`agent${agent.id}`]. *)
Definition chart_key (agent : Agent) : string :=
  ("agent" ++ Tick.show_Z (id agent))%string.

(** [entry[key] = v] on an object: an existing key keeps its place. *)
Fixpoint assign (key : string) (v : num) (entry : list (string * num))
  : list (string * num) :=
  match entry with
  | [] => [(key, v)]
  | (k, w) :: rest =>
      if String.eqb k key then (k, v) :: rest else (k, w) :: assign key v rest
  end.

(** One point of [temperatureHistory]: the [time] key and the keys of the
    agents. *)
Record Entry : Type := { at_time : Z; readings : list (string * num) }.

(** [l.slice(-n)]: the last [n] elements. *)
Definition slice_last {A} (n : nat) (l : list A) : list A :=
  skipn (length l - n) l.

(** The hook with its chart history. *)
Record Hook : Type := { core : State; temperatureHistory : list Entry }.

Definition newEntry (time : Z) (updatedAgents : list Agent) : Entry :=
  {| at_time := time;
     readings :=
       fold_left (fun e agent => assign (chart_key agent) (chart_value agent) e)
                 updatedAgents [] |}.

(** [simulationStep] with the update of the history that it performs. *)
Definition simulationStep_h (h : Hook) : option Hook :=
  obind (simulationStep (core h)) (fun s' =>
    Some {| core := s';
            temperatureHistory :=
              slice_last 50
                (temperatureHistory h ++ [newEntry (time (core h)) (agents s')]) |}).

Definition timer_h (h : Hook) : option Hook :=
  if isRunning (core h) then simulationStep_h h else Some h.

Definition on_core (f : State -> State) (h : Hook) : Hook :=
  {| core := f (core h); temperatureHistory := temperatureHistory h |}.

Definition init_h (agentCount : Z) (g : Rng) : Hook :=
  {| core := init agentCount g; temperatureHistory := [] |}.

Definition resetSimulation_h (agentCount : Z) (h : Hook) : Hook :=
  {| core := resetSimulation agentCount (core h); temperatureHistory := [] |}.

Definition exec_h (agentCount : Z) (c : Command) (h : Hook) : option Hook :=
  match c with
  | Timer => timer_h h
  | Toggle => Some (on_core toggleSimulation h)
  | Reset => Some (resetSimulation_h agentCount h)
  | TriggerFailure agentId => Some (on_core (triggerFailure agentId) h)
  | RepairAgent agentId => Some (on_core (repairAgent agentId) h)
  end.

Fixpoint run_h (agentCount : Z) (cs : list Command) (h : Hook) : option Hook :=
  match cs with
  | [] => Some h
  | c :: cs' => obind (exec_h agentCount c h) (run_h agentCount cs')
  end.

End Rounding.

(** What the agent card shows (components/CoolingAgent.tsx of the ring
    variant): the colour of the temperature, the two progress bars that
    are fed a computed value, and which button the card offers. *)
Inductive TempColor : Type := text_destructive | text_warning | text_primary.

Definition getTempColor (agent : Agent) : TempColor :=
  if gt (temperature agent) (Fin 30) then text_destructive
  else if gt (temperature agent) (Fin 25) then text_warning
  else text_primary.

Definition temperature_progress (agent : Agent) : num :=
  mul (div (temperature agent) (Fin 40)) (Fin 100).

Inductive CardButton : Type := Repair_button | TriggerFailure_button.

Definition card_button (agent : Agent) : CardButton :=
  if status_eqb (healthStatus agent) failed
  then Repair_button else TriggerFailure_button.

(** The click on the button of the card of [agent] (pages/Index.tsx). *)
Definition click_card (agent : Agent) (s : State) : State :=
  match card_button agent with
  | Repair_button => repairAgent (id agent) s
  | TriggerFailure_button => triggerFailure (id agent) s
  end.

(** Every value of a chart point lies in the domain of the chart. *)
Definition values_ok (e : Entry) : Prop :=
  Forall (fun kv => within 18 40 (snd kv)) (readings e).

(** The invariant of the hook with its history. *)
Definition hinv (h : Hook) : Prop :=
  RingInv.inv (core h) /\
  (length (temperatureHistory h) <= 50)%nat /\
  Forall values_ok (temperatureHistory h).

End RingMore.

(* ------------------------------------------------------------------ *)
(** ** The tick-counter variant: what the components show *)

Module TickView.
Import Tick.

Local Open Scope string_scope.

(** [s.includes(sub)]. *)
Definition includes (s sub : string) : bool :=
  match String.index 0 sub s with
  | Some _ => true
  | None => false
  end.

(** [getPhaseIcon] of PhaseIndicator.tsx. *)
Definition getPhaseIcon (phase : string) : string :=
  if includes phase "Stable" then "🌱"
  else if includes phase "Fault" then "⚠️"
  else if includes phase "Healing" then "⚙️"
  else if includes phase "Recovery" then "✅"
  else "🔄".

(** The width of the progress bar of PhaseIndicator.tsx, in percent:
    [(step / maxSteps) * 100]. *)
Definition progress_width (step maxSteps : Z) : Q :=
  inject_Z step / inject_Z maxSteps * 100.

(** The text beside the status light of the metrics panel. *)
Definition performance_text (efficiency : Q) : string :=
  if Qlt_bool (8 # 10) efficiency then "Optimal Performance"
  else if Qlt_bool (5 # 10) efficiency then "Stabilizing"
  else "Recovery in Progress".

(** The colour of the status light of the metrics panel. *)
Definition performance_light (efficiency : Q) : string :=
  if Qlt_bool (8 # 10) efficiency then "bg-optimal"
  else if Qlt_bool (5 # 10) efficiency then "bg-warning"
  else "bg-fault".

(** [getStatusColor] and [getGlow] of the agent circle (CoolingAgent.tsx of
    the tick-counter variant). *)
Definition getStatusColor (a : AgentData) : string :=
  match status a with
  | faulty => "bg-fault"
  | compensating => "bg-warning"
  | _ =>
      if Qlt_bool (temperature a) 24 then "bg-cooling"
      else if Qlt_bool (temperature a) 26 then "bg-optimal"
      else "bg-heating"
  end.

Definition getGlow (a : AgentData) : string :=
  match status a with
  | faulty => "glow-fault"
  | _ => if Qlt_bool (temperature a) 26 then "glow-optimal" else ""
  end.

(** The snapshot of a state was computed for its tick and its latch. *)
Definition synced (sc : Scenario) (s : State) : Prop :=
  phase (data s) = fst (phase_of sc (step s) (faultInjected s)) /\
  phaseDescription (data s) = snd (phase_of sc (step s) (faultInjected s)).

(** The radius around the last agent inside which the agents compensate. *)
Definition radius (sc : Scenario) : Z := if is_vision sc then 5%Z else 2%Z.

(** The fault has happened, by the tick or by hand. *)
Definition fault_seen (sc : Scenario) (currentStep : Z) (manualFault : bool) : Prop :=
  (faultStep sc <= currentStep)%Z \/ manualFault = true.

(** The clock stays between 0 and [maxSteps], and the snapshot is the one
    of the tick and of the latch. *)
Definition clocked (sc : Scenario) (s : State) : Prop :=
  (0 <= step s <= maxSteps sc)%Z /\ synced sc s.

(** The status that the body of the loop gives to agent [i]: the tests of
    [agent_at] without the draws. *)
Definition status_at (sc : Scenario) (currentStep : Z) (manualFault : bool) (i : Z)
  : AgentStatus :=
  if (currentStep >=? faultStep sc)%Z || manualFault then
    if isFaultyAgent sc i && (currentStep <? faultStep sc + 100)%Z then faulty
    else if negb (isFaultyAgent sc i)
            && (Z.abs (i - (numAgents sc - 1)) <=? (if is_vision sc then 5 else 2))%Z
    then (if (currentStep <? faultStep sc + 50)%Z then compensating else healthy)
    else healthy
  else healthy.

Definition is_compensating (st : AgentStatus) : bool :=
  match st with compensating => true | _ => false end.

(** [data.agents.filter((a) => a.status === "compensating").length], the
    number that the network panel of the vision page reports. *)
Definition coordinating (l : list AgentData) : nat :=
  length (filter (fun a => is_compensating (status a)) l).

(** The ids [0 .. n-1] of a snapshot of [n] agents. *)
Definition ids_upto (n : Z) : list Z := map Z.of_nat (seq 0 (Z.to_nat n)).

(** The snapshot of a state is the one computed for its tick and its latch,
    from some position in the stream of draws of [g0]. *)
Definition snapshot_of (sc : Scenario) (g0 : Rng) (s : State) : Prop :=
  draws (rng s) = draws g0 /\
  exists g', draws g' = draws g0 /\
    data s = fst (calculateSimulationData sc (step s) (faultInjected s) g').

End TickView.

(* ------------------------------------------------------------------ *)
(** ** The tick-counter variant: the page that selects the scenario *)

Module TickPage.
Import Tick.

(** pages/Index.tsx holds the scenario in a state of its own and calls the
    hook with it on every render.  A click on a scenario button changes
    the argument only: the states of the hook ([step], [isPlaying],
    [faultInjected], [data]) stay as they are, and [maxSteps], [faultStep],
    [numAgents] and [calculateSimulationData] are those of the new
    scenario from the next render on. *)
Record Page : Type := { scenario : Scenario; hook : State }.

Inductive Event : Type :=
| SetScenario (sc : Scenario)
| Hook (c : Command).

Definition init (g : Rng) : Page :=
  {| scenario := prototype; hook := Tick.init prototype g |}.

Definition handle (e : Event) (p : Page) : Page :=
  match e with
  | SetScenario sc => {| scenario := sc; hook := hook p |}
  | Hook c => {| scenario := scenario p; hook := exec (scenario p) c (hook p) |}
  end.

Definition run (es : list Event) (p : Page) : Page :=
  fold_left (fun p e => handle e p) es p.

(** The width that the page gives to the progress bar of the phase
    indicator, from the [step] and the [maxSteps] that the hook returns. *)
Definition progress (p : Page) : Q :=
  TickView.progress_width (step (hook p)) (maxSteps (scenario p)).

(** The vision scenario played up to its last tick, then the prototype
    scenario selected. *)
Definition overrun : list Event :=
  (SetScenario vision :: Hook PlayPause :: map Hook (repeat Timer 250)
   ++ [SetScenario prototype])%list.

(** The tick is at most the larger [maxSteps], and the snapshot was
    computed for the tick and the latch of the state, in the scenario that
    was selected at the time. *)
Definition inv (g0 : Rng) (p : Page) : Prop :=
  (0 <= step (hook p) <= 250)%Z /\
  draws (rng (hook p)) = draws g0 /\
  exists sc0 g',
    draws g' = draws g0 /\
    data (hook p)
    = fst (calculateSimulationData sc0 (step (hook p)) (faultInjected (hook p)) g').

End TickPage.

(* ------------------------------------------------------------------ *)
(** ** The script variant: the KPI cards, the badges and the anomaly check *)

Module SwarmMore.
Import Swarm.

Local Open Scope string_scope.

(** [l.at(-1)]. *)
Definition at_last {A} (l : list A) : option A := last (map Some l) None.

(** [renderKPIs], for the card of the KPI [key]:
    [prev = state.history.at(-1)?.[k.key] ?? state.data[k.key]] and
    [delta = cur - prev], shown with the class [up] when [delta >= 0]. *)
Definition kpi_prev (key : Data -> Q) (s : State) : Q :=
  match at_last (history s) with
  | Some h => key h
  | None => key (data s)
  end.

Definition kpi_delta (key : Data -> Q) (s : State) : Q :=
  key (data s) - kpi_prev key s.

Definition delta_class (delta : Q) : string :=
  if Qle_bool 0 delta then "up" else "down".

(** The four KPIs of the table [KPIS]. *)
Definition KPIS : list (Data -> Q) := [energyMW; lossPct; uptime; renMix].

(** [runAI]: one [bad] item for every agent above 33 degrees, in the order
    of the array, and the [good] item when [count] is still 0. *)
Inductive Finding : Type :=
| bad_item (agent : string) (shown : Q)
| good_item.

Definition runAI_loop (l : list Agent) : nat * list Finding :=
  fold_left
    (fun (acc : nat * list Finding) a =>
       if Qlt_bool 33 (temp a)
       then (S (fst acc), (snd acc ++ [bad_item (id a) (temp a)])%list)
       else acc)
    l (O, []).

Definition runAI (l : list Agent) : list Finding :=
  let (count, ul) := runAI_loop l in
  if (count =? 0)%nat then (ul ++ [good_item])%list else ul.

(** [tempClass] of [renderAgents]. *)
Definition tempClass (a : Agent) : string :=
  if Qlt_bool 33 (temp a) then "hot"
  else if Qlt_bool (temp a) 23 then "cold" else "ok".

(** The bounds of the KPIs that [step] keeps. *)
Definition kpi_ok (d : Data) : Prop :=
  12 <= energyMW d /\ energyMW d <= 40 /\
  2 <= lossPct d /\ lossPct d <= (62 # 10) /\
  (999 # 10) <= uptime d /\ uptime d <= 100 /\
  15 <= renMix d /\ renMix d <= 80.

(** The invariant of the KPI part of the state. *)
Definition kinv (s : State) : Prop :=
  (0 <= tick s)%Z /\
  Z.of_nat (length (history s)) = Z.min (tick s) 120 /\
  kpi_ok (data s) /\
  Forall kpi_ok (history s) /\
  (forall h, at_last (history s) = Some h -> h = data s).

(** What the card of an agent shows of its state: the temperature and the
    badge. *)
Definition view (a : Agent) : Q * Status := (temp a, status a).

Definition views (l : list Agent) : list (Q * Status) := map view l.

(** The badge at position [i] replaced by [st]. *)
Fixpoint upd_status (st : Status) (i : nat) (vs : list (Q * Status))
  : list (Q * Status) :=
  match vs, i with
  | [], _ => []
  | v :: r, O => (fst v, st) :: r
  | v :: r, S i' => v :: upd_status st i' r
  end.

(** What the balancing phase and the settling phase do to one card. *)
Definition mark_view (v : Q * Status) : Q * Status :=
  if Qlt_bool 33 (fst v) then (fst v, HOT) else v.

Definition settle_view (v : Q * Status) : Q * Status :=
  if Qle_bool (fst v) 33 && negb (status_eqb (snd v) FAIL)
  then (fst v, OK) else v.

(** The badge agrees with the temperature. *)
Definition view_ok (v : Q * Status) : Prop :=
  (snd v = OK -> fst v <= 33) /\ (snd v = HOT -> 33 < fst v).

Definition badge_ok (a : Agent) : Prop := view_ok (view a).

(** No agent above 33 degrees carries the badge OK. *)
Definition hot_flagged (v : Q * Status) : Prop := 33 < fst v -> snd v <> OK.

(** The invariant of the whole state of the script. *)
Definition full_inv (s : State) : Prop :=
  SwarmInv.inv s /\ kinv s /\ Forall badge_ok (agents s).

End SwarmMore.

(* ------------------------------------------------------------------ *)
(** ** The optimizer panel of script.js *)

Module Optimizer.

(** The four numbers that [computeKPIs] writes into the page. *)
Record Kpis : Type := { loss : Q; uptime : Q; co2 : Q; pue : Q }.

Definition baseLoss : Q := 1200000.

(** [computeKPIs] on the values [r], [b] and [g] of the three sliders
    (renewables in percent, battery in MWh, growth in percent). *)
Definition computeKPIs (r b g : Q) : Kpis :=
  {| loss := baseLoss * (1 - r * (3 # 1000)) * (1 - Math_min b 15 * (1 # 100))
             * (1 + g * (4 # 1000));
     uptime := clamp ((998 # 10) + Math_min b 10 * (5 # 100) - g * (2 # 100)
                      + r * (1 # 100))
                     99 (99999 # 1000);
     co2 := r * 12 + b * 4;
     pue := clamp ((145 # 100) - r * (2 # 1000) - Math_min b 10 * (1 # 100)
                   + g * (3 # 1000))
                  (115 # 100) (16 # 10) |}.

End Optimizer.

(* ------------------------------------------------------------------ *)
(** ** The diagram of script.js: zoom and pan *)

Module Diagram.

(** The variables of the closure: [scale], [panX], [panY], [dragging] and
    the point [last]. *)
Record View : Type := {
  scale : Q;
  panX : Q;
  panY : Q;
  dragging : bool;
  last_x : Q;
  last_y : Q
}.

Definition minS : Q := 7 # 10.
Definition maxS : Q := 22 # 10.

Definition initial : View :=
  {| scale := 1; panX := 0; panY := 0; dragging := false;
     last_x := 0; last_y := 0 |}.

(** The events of the diagram.  [MouseDown] says whether the target lies
    inside a node; [Wheel] carries the pointer in the coordinates of the
    svg element, the point [pt.matrixTransform(ctm)] of the handler. *)
Inductive Event : Type :=
| ZoomIn
| ZoomOut
| ZoomReset
| MouseDown (onNode : bool) (clientX clientY : Q)
| MouseMove (clientX clientY : Q)
| MouseUp
| Wheel (ctrlKey : bool) (deltaY : Q) (px py : Q).

Definition handle (e : Event) (v : View) : View :=
  match e with
  | ZoomIn =>
      {| scale := Math_min maxS (scale v * (115 # 100));
         panX := panX v; panY := panY v; dragging := dragging v;
         last_x := last_x v; last_y := last_y v |}
  | ZoomOut =>
      {| scale := Math_max minS (scale v / (115 # 100));
         panX := panX v; panY := panY v; dragging := dragging v;
         last_x := last_x v; last_y := last_y v |}
  | ZoomReset =>
      {| scale := 1; panX := 0; panY := 0; dragging := dragging v;
         last_x := last_x v; last_y := last_y v |}
  | MouseDown onNode x y =>
      if onNode then v
      else {| scale := scale v; panX := panX v; panY := panY v;
              dragging := true; last_x := x; last_y := y |}
  | MouseMove x y =>
      if dragging v then
        let dx := x - last_x v in
        let dy := y - last_y v in
        {| scale := scale v; panX := panX v + dx; panY := panY v + dy;
           dragging := true; last_x := x; last_y := y |}
      else v
  | MouseUp =>
      {| scale := scale v; panX := panX v; panY := panY v;
         dragging := false; last_x := last_x v; last_y := last_y v |}
  | Wheel ctrlKey deltaY px py =>
      if ctrlKey then
        let dir := if Qlt_bool 0 deltaY then - (1) else 1 in
        let old := scale v in
        let scale' := clamp (scale v * (1 + dir * (12 # 100))) minS maxS in
        {| scale := scale';
           panX := px - (px - panX v) * (scale' / old);
           panY := py - (py - panY v) * (scale' / old);
           dragging := dragging v; last_x := last_x v; last_y := last_y v |}
      else v
  end.

Definition run (es : list Event) (v : View) : View :=
  fold_left (fun v e => handle e v) es v.

(** The point of the content that the viewport transform
    [translate(panX, panY) scale(scale)] shows at the abscissa [px]. *)
Definition content_x (v : View) (px : Q) : Q := (px - panX v) / scale v.
Definition content_y (v : View) (py : Q) : Q := (py - panY v) / scale v.

(** The moves of one drag gesture, and the point where the pointer is
    after them. *)
Definition moves (ps : list (Q * Q)) : list Event :=
  map (fun p => MouseMove (fst p) (snd p)) ps.

Definition pointer_after (x0 y0 : Q) (ps : list (Q * Q)) : Q * Q :=
  last ps (x0, y0).

Definition zoom_ok (v : View) : Prop := minS <= scale v /\ scale v <= maxS.

End Diagram.

(* ------------------------------------------------------------------ *)
(** ** The dashboard of the SmartGrid Edge script *)

Module Grid.

Local Open Scope string_scope.

(** [state.data]. *)
Record Data : Type := {
  gridLoad : Q;
  lossPct : Q;
  uptime : Q;
  renMix : Q;
  rackTemp : Q;
  rackAmps : Q
}.

Record State : Type := {
  running : bool;
  tick : Z;
  data : Data;
  history : list Data;
  rng : Rng
}.

Definition initial_data : Data :=
  {| gridLoad := 20; lossPct := 38 # 10; uptime := 9995 # 100; renMix := 34;
     rackTemp := 27; rackAmps := 420 |}.

Section Script.

Variable Math_sin : Q -> Q.

(** [step()]: each assignment reads the fields as the assignments before
    it have left them, so the loss uses the renewable mix of the previous
    tick and the rack values use the new grid load; the two draws at the
    end decide on the log lines. *)
Definition step (s : State) : State :=
  let tick' := (tick s + 1)%Z in
  let dayPhase := Math_sin (inject_Z tick' / 20) in
  let (jg, g1) := rnd (- (4 # 10)) (6 # 10) (rng s) in
  let gridLoad' := clamp (gridLoad (data s) + jg + dayPhase * (25 # 100)) 12 40 in
  let (jl, g2) := rnd (- (10 # 100)) (10 # 100) g1 in
  let lossPct' :=
    clamp (lossPct (data s) + jl - (renMix (data s) - 30) * (2 # 1000))
          (22 # 10) (65 # 10) in
  let uptime' :=
    clamp ((9990 # 100) + Math_abs (Math_sin (inject_Z tick' / 200)) * (1 # 10))
          (997 # 10) 100 in
  let (jr, g3) := rnd (- (1)) (12 # 10) g2 in
  let renMix' := clamp (renMix (data s) + jr) 15 80 in
  let (jt, g4) := rnd (- (25 # 100)) (35 # 100) g3 in
  let rackTemp' :=
    clamp (rackTemp (data s) + jt + (gridLoad' - 20) * (1 # 100)) 20 40 in
  let (ja, g5) := rnd (- (8)) 10 g4 in
  let rackAmps' :=
    clamp (rackAmps (data s) + ja + (gridLoad' - 20) * 2) 200 1000 in
  let data' := {| gridLoad := gridLoad'; lossPct := lossPct'; uptime := uptime';
                  renMix := renMix'; rackTemp := rackTemp';
                  rackAmps := rackAmps' |} in
  let history1 := (history s ++ [data'])%list in
  let history' := if (120 <? length history1)%nat then tl history1 else history1 in
  let (_, g6) := random g5 in
  let (_, g7) := random g6 in
  {| running := running s; tick := tick'; data := data'; history := history';
     rng := g7 |}.

Definition timer (s : State) : State := if running s then step s else s.

Definition start (s : State) : State :=
  if running s then s
  else {| running := true; tick := tick s; data := data s;
          history := history s; rng := rng s |}.

Definition stop (s : State) : State :=
  if running s
  then {| running := false; tick := tick s; data := data s;
          history := history s; rng := rng s |}
  else s.

Definition reset (s : State) : State :=
  let s1 := stop s in
  {| running := running s1; tick := 0; data := initial_data; history := [];
     rng := rng s1 |}.

(** The state once the script has been loaded: it ends with [start()]. *)
Definition init (g : Rng) : State :=
  start {| running := false; tick := 0; data := initial_data; history := [];
           rng := g |}.

Inductive Command : Type := Timer | Start | Stop | Reset.

Definition exec (c : Command) (s : State) : State :=
  match c with
  | Timer => timer s
  | Start => start s
  | Stop => stop s
  | Reset => reset s
  end.

Definition run (cs : list Command) (s : State) : State :=
  fold_left (fun s c => exec c s) cs s.

End Script.

(** [renderKPIs] for the card of the KPI [key]. *)
Definition kpi_prev (key : Data -> Q) (s : State) : Q :=
  match SwarmMore.at_last (history s) with
  | Some h => key h
  | None => key (data s)
  end.

Definition kpi_delta (key : Data -> Q) (s : State) : Q :=
  key (data s) - kpi_prev key s.

Definition KPIS : list (Data -> Q) := [gridLoad; lossPct; uptime; renMix].

(** [runAI]: the findings with their level, or the single good item. *)
Inductive Level : Type := bad | warn | good.

Inductive Subject : Type := HighRackTemp | HighLoss | CurrentNearLimit | LowRenewables.

Inductive Item : Type :=
| finding (level : Level) (subject : Subject) (shown : Q)
| no_deviation.

Definition findings (d : Data) : list Item :=
  ((if Qlt_bool 33 (rackTemp d) then [finding bad HighRackTemp (rackTemp d)] else [])
   ++ (if Qlt_bool (55 # 10) (lossPct d) then [finding warn HighLoss (lossPct d)] else [])
   ++ (if Qlt_bool 850 (rackAmps d)
       then [finding bad CurrentNearLimit (rackAmps d)] else [])
   ++ (if Qlt_bool (renMix d) 22
       then [finding good LowRenewables (renMix d)] else []))%list.

Definition runAI (d : Data) : list Item :=
  if (length (findings d) =? 0)%nat then [no_deviation] else findings d.

(** The bounds of the data that [step] keeps. *)
Definition data_ok (d : Data) : Prop :=
  12 <= gridLoad d /\ gridLoad d <= 40 /\
  (22 # 10) <= lossPct d /\ lossPct d <= (65 # 10) /\
  (999 # 10) <= uptime d /\ uptime d <= 100 /\
  15 <= renMix d /\ renMix d <= 80 /\
  20 <= rackTemp d /\ rackTemp d <= 40 /\
  200 <= rackAmps d /\ rackAmps d <= 1000.

Definition inv (s : State) : Prop :=
  (0 <= tick s)%Z /\
  Z.of_nat (length (history s)) = Z.min (tick s) 120 /\
  data_ok (data s) /\
  Forall data_ok (history s) /\
  (forall h, SwarmMore.at_last (history s) = Some h -> h = data s).

End Grid.

(* ------------------------------------------------------------------ *)
(** ** The presentation page: the active scene *)

Module Presentation.
Import JS.

(** [handleScroll]: [Math.round(scrollPosition / windowHeight)]. *)
Definition currentScene (scrollPosition windowHeight : num) : num :=
  RingMore.Math_round (div scrollPosition windowHeight).

(** The [top] that [scrollToScene] asks for: [sceneId * windowHeight]. *)
Definition scroll_top (sceneId windowHeight : num) : num :=
  mul sceneId windowHeight.

End Presentation.

(* ================================================================== *)
(** * Properties *)

(** ** Rational tests *)

Lemma Qlt_bool_iff x y : Qlt_bool x y = true <-> x < y.
Proof.
  unfold Qlt_bool. rewrite negb_true_iff.
  split; intro H.
  - destruct (Qlt_le_dec x y) as [L|L]; [exact L|].
    apply Qle_bool_iff in L. congruence.
  - destruct (Qle_bool y x) eqn:E; [|reflexivity].
    apply Qle_bool_iff in E. lra.
Qed.

Lemma Qlt_bool_false x y : Qlt_bool x y = false <-> y <= x.
Proof.
  unfold Qlt_bool. rewrite negb_false_iff. apply Qle_bool_iff.
Qed.

Lemma Qle_bool_false x y : Qle_bool x y = false <-> y < x.
Proof.
  rewrite <- Qlt_bool_iff. unfold Qlt_bool.
  destruct (Qle_bool x y); simpl; intuition congruence.
Qed.

(** Case analysis on every rational test of the goal, leaving the facts
    in a form [lra] reads. *)
Ltac no_test t :=
  lazymatch t with
  | context [Qle_bool _ _] => fail
  | context [Qlt_bool _ _] => fail
  | _ => idtac
  end.

Ltac qtest :=
  repeat match goal with
  | |- context [Qle_bool ?a ?b] =>
      no_test a; no_test b;
      let E := fresh "E" in
      destruct (Qle_bool a b) eqn:E;
      [apply Qle_bool_iff in E | apply Qle_bool_false in E]
  | |- context [Qlt_bool ?a ?b] =>
      no_test a; no_test b;
      let E := fresh "E" in
      destruct (Qlt_bool a b) eqn:E;
      [apply Qlt_bool_iff in E | apply Qlt_bool_false in E]
  end.

Lemma clamp_bounds v a b : a <= b -> a <= clamp v a b /\ clamp v a b <= b.
Proof.
  intro H. unfold clamp, Math_max, Math_min. qtest; lra.
Qed.

(* ------------------------------------------------------------------ *)
(** ** The tick-counter variant: phases, fault latch, tick counter *)

Module TickFacts.
Import Tick.

Lemma calculate_phase sc t mf g :
  phase (fst (calculateSimulationData sc t mf g)) = fst (phase_of sc t mf).
Proof.
  unfold calculateSimulationData, bind, ret.
  destruct (generate sc (Z.to_nat (numAgents sc)) t mf 0 g) as [l g'].
  reflexivity.
Qed.

Lemma inject_sets_latch sc s : faultInjected (handleInjectFault sc s) = true.
Proof.
  unfold handleInjectFault.
  destruct (faultInjected s) eqn:E; simpl; [exact E|].
  destruct (calculateSimulationData sc (faultStep sc) true (rng s)); reflexivity.
Qed.

Lemma inject_when_latched sc s :
  faultInjected s = true -> handleInjectFault sc s = s.
Proof.
  intro H. unfold handleInjectFault. rewrite H. reflexivity.
Qed.

Lemma inject_tick sc s :
  faultInjected s = false -> step (handleInjectFault sc s) = faultStep sc.
Proof.
  intro H. unfold handleInjectFault. rewrite H. simpl.
  destruct (calculateSimulationData sc (faultStep sc) true (rng s)); reflexivity.
Qed.

Lemma timer_tick sc s :
  isPlaying s = true ->
  step (timer sc s) = if (step s >=? maxSteps sc)%Z then 0%Z else (step s + 1)%Z.
Proof.
  intro H. unfold timer. rewrite H.
  destruct (calculateSimulationData sc _ (faultInjected s) (rng s)); reflexivity.
Qed.

Lemma timer_paused sc s : isPlaying s = false -> timer sc s = s.
Proof.
  intro H. unfold timer. rewrite H. reflexivity.
Qed.

End TickFacts.

(* ------------------------------------------------------------------ *)
(** ** Partial maps over lists *)

Lemma map_opt_total {A B} (f : A -> option B) (l : list A) :
  Forall (fun a => exists b, f a = Some b) l ->
  exists l', map_opt f l = Some l'.
Proof.
  induction 1 as [|a l [b Hb] _ [l' Hl']]; simpl.
  - eexists; reflexivity.
  - rewrite Hb. simpl. rewrite Hl'. simpl. eexists; reflexivity.
Qed.

Lemma map_opt_nth {A B} (f : A -> option B) (l : list A) (l' : list B) :
  map_opt f l = Some l' ->
  forall k a, nth_error l k = Some a ->
  exists b, f a = Some b /\ nth_error l' k = Some b.
Proof.
  revert l'. induction l as [|x l IH]; intros l' H k a Hk.
  - destruct k; discriminate.
  - simpl in H. destruct (f x) as [y|] eqn:Ey; [|discriminate]. simpl in H.
    destruct (map_opt f l) as [ys|] eqn:El; [|discriminate].
    injection H as <-.
    destruct k as [|k]; simpl in *.
    + injection Hk as <-. eauto.
    + eapply IH; eauto.
Qed.

Lemma map_opt_Forall {A B} (f : A -> option B) (P : A -> Prop) (Q : B -> Prop)
      (l : list A) (l' : list B) :
  (forall a b, P a -> f a = Some b -> Q b) ->
  Forall P l -> map_opt f l = Some l' -> Forall Q l'.
Proof.
  intros HPQ HP. revert l'. induction HP as [|x l Hx _ IH]; intros l' H.
  - injection H as <-. constructor.
  - simpl in H. destruct (f x) as [y|] eqn:Ey; [|discriminate]. simpl in H.
    destruct (map_opt f l) as [ys|] eqn:El; [|discriminate].
    injection H as <-. constructor; eauto.
Qed.

Lemma map_opt_length {A B} (f : A -> option B) (l : list A) (l' : list B) :
  map_opt f l = Some l' -> length l' = length l.
Proof.
  revert l'. induction l as [|x l IH]; intros l' H.
  - injection H as <-. reflexivity.
  - simpl in H. destruct (f x) as [y|]; [|discriminate]. simpl in H.
    destruct (map_opt f l) as [ys|]; [|discriminate].
    injection H as <-. simpl. f_equal. apply IH. reflexivity.
Qed.

(* ------------------------------------------------------------------ *)
(** ** The ring variant: the initial population *)

Module RingFacts.
Import JS Ring RingInv.

Lemma skip_0 g : skip 0 g = g.
Proof. destruct g. unfold skip. simpl. f_equal. lia. Qed.

Lemma create_loop_closed count g :
  forall fuel j,
    (j + fuel)%nat = Z.to_nat count ->
    create_loop fuel (Z.of_nat j) count (skip (2 * j) g)
    = (map (initial_agent g count) (seq j fuel), skip (2 * (j + fuel)) g).
Proof.
  induction fuel as [|fuel IH]; intros j Hj.
  - simpl. unfold ret. do 2 f_equal. lia.
  - simpl. destruct (Z.ltb_spec (Z.of_nat j) count) as [L|L]; [|lia].
    unfold bind at 1. unfold new_agent, bind, ret, random. simpl.
    replace (Z.of_nat j + 1)%Z with (Z.of_nat (S j)) by lia.
    specialize (IH (S j)).
    replace {| draws := draws g; cursor := S (S (cursor g + (j + (j + 0)))) |}
      with (skip (2 * S j) g) by (unfold skip; f_equal; lia).
    rewrite IH by lia.
    f_equal.
    + f_equal. unfold initial_agent. f_equal; repeat f_equal; lia.
    + f_equal. lia.
Qed.

(** The loop has ended when the fuel runs out: a larger fuel gives the
    same population and the same source. *)
Lemma create_loop_ended count g :
  forall fuel j,
    (Z.to_nat count <= j + fuel)%nat -> (j <= Z.to_nat count)%nat ->
    create_loop fuel (Z.of_nat j) count (skip (2 * j) g)
    = (map (initial_agent g count) (seq j (Z.to_nat count - j)),
       skip (2 * Z.to_nat count) g).
Proof.
  induction fuel as [|fuel IH]; intros j H1 H2.
  - replace (Z.to_nat count - j)%nat with 0%nat by lia.
    replace j with (Z.to_nat count) by lia. reflexivity.
  - simpl. destruct (Z.ltb_spec (Z.of_nat j) count) as [L|L].
    + unfold bind at 1. unfold new_agent, bind, ret, random. simpl.
      replace (Z.of_nat j + 1)%Z with (Z.of_nat (S j)) by lia.
      replace {| draws := draws g; cursor := S (S (cursor g + (j + (j + 0)))) |}
        with (skip (2 * S j) g) by (unfold skip; f_equal; lia).
      rewrite (IH (S j)) by lia.
      replace (Z.to_nat count - j)%nat with (S (Z.to_nat count - S j)) by lia.
      simpl. f_equal. f_equal.
      unfold initial_agent. f_equal; repeat f_equal; lia.
    + replace (Z.to_nat count - j)%nat with 0%nat by lia.
      replace j with (Z.to_nat count) by lia. reflexivity.
Qed.

Lemma create_loop_stable count g extra :
  create_loop (Z.to_nat count + extra) 0%Z count g = createInitialAgents count g.
Proof.
  unfold createInitialAgents.
  pose proof (create_loop_ended count g (Z.to_nat count + extra) 0) as H1.
  pose proof (create_loop_ended count g (Z.to_nat count) 0) as H2.
  simpl in H1, H2. rewrite skip_0 in H1, H2.
  rewrite H1, H2 by lia. reflexivity.
Qed.

Lemma createInitialAgents_closed count g :
  createInitialAgents count g
  = (map (initial_agent g count) (seq 0 (Z.to_nat count)),
     skip (2 * Z.to_nat count) g).
Proof.
  unfold createInitialAgents.
  pose proof (create_loop_closed count g (Z.to_nat count) 0 eq_refl) as H.
  simpl in H. rewrite skip_0 in H. exact H.
Qed.

Lemma init_agents count g :
  agents (init count g) = map (initial_agent g count) (seq 0 (Z.to_nat count)).
Proof.
  unfold init. rewrite createInitialAgents_closed. reflexivity.
Qed.

Lemma init_rng count g : rng (init count g) = skip (2 * Z.to_nat count) g.
Proof.
  unfold init. rewrite createInitialAgents_closed. reflexivity.
Qed.

Lemma lookup_initial count g i :
  (0 <= i < count)%Z ->
  lookup (map (initial_agent g count) (seq 0 (Z.to_nat count))) i
  = Some (initial_agent g count (Z.to_nat i)).
Proof.
  intro H. unfold lookup.
  destruct (Z.ltb_spec i 0); [lia|].
  rewrite nth_error_map, nth_error_seq.
  destruct (Nat.ltb_spec (Z.to_nat i) (Z.to_nat count)); [reflexivity|lia].
Qed.

(** The two neighbours, without the remainder. *)
Lemma rem_pred i count :
  (0 <= i < count)%Z ->
  Z.rem (i - 1 + count) count = if (i =? 0)%Z then (count - 1)%Z else (i - 1)%Z.
Proof.
  intro H. rewrite Z.rem_mod_nonneg by lia.
  destruct (Z.eqb_spec i 0) as [->|N].
  - replace (0 - 1 + count)%Z with (count - 1)%Z by lia.
    apply Z.mod_small; lia.
  - replace (i - 1 + count)%Z with (i - 1 + 1 * count)%Z by lia.
    rewrite Z.mod_add by lia. apply Z.mod_small; lia.
Qed.

Lemma rem_succ i count :
  (0 <= i < count)%Z ->
  Z.rem (i + 1) count = if (i + 1 =? count)%Z then 0%Z else (i + 1)%Z.
Proof.
  intro H. rewrite Z.rem_mod_nonneg by lia.
  destruct (Z.eqb_spec (i + 1) count) as [E|N].
  - rewrite E. apply Z.mod_same; lia.
  - apply Z.mod_small; lia.
Qed.

Lemma ring_neighbors_range i count :
  (0 <= i < count)%Z ->
  Forall (fun n => (0 <= n < count)%Z) (ring_neighbors i count).
Proof.
  intro H. unfold ring_neighbors.
  rewrite rem_pred, rem_succ by exact H.
  destruct (Z.eqb_spec i 0), (Z.eqb_spec (i + 1) count);
    repeat constructor; lia.
Qed.

End RingFacts.

(* ------------------------------------------------------------------ *)
(** ** The ring variant: one update *)

Module RingStepFacts.
Import JS Ring RingInv RingStep.

Lemma status_eqb_eq a b : status_eqb a b = true <-> a = b.
Proof. destruct a, b; simpl; split; congruence. Qed.

Lemma updateAgent_failed agent allAgents :
  healthStatus agent = failed ->
  exists a',
    updateAgent agent allAgents = Some a' /\
    temperature a' = min (add (temperature agent) (Fin (6 # 10))) (Fin 40) /\
    fanSpeed a' = Fin 0 /\ load a' = load agent /\
    healthStatus a' = failed /\
    neighbors a' = neighbors agent /\ id a' = id agent.
Proof.
  intro H. unfold updateAgent. rewrite H. simpl.
  eexists. split; [reflexivity|]. simpl. repeat split.
Qed.

Lemma updateAgent_fields agent allAgents neighborAgents :
  healthStatus agent <> failed ->
  map_opt (lookup allAgents) (neighbors agent) = Some neighborAgents ->
  let E := effectiveLoad_of agent neighborAgents in
  exists a',
    updateAgent agent allAgents = Some a' /\
    temperature a' = max (Fin 18) (min (Fin 40) (new_temp agent E)) /\
    fanSpeed a' = new_fan agent E /\
    load a' = new_load agent E /\
    neighbors a' = neighbors agent /\ id a' = id agent.
Proof.
  intros Hs Hn E. unfold updateAgent.
  destruct (status_eqb (healthStatus agent) failed) eqn:F.
  { apply status_eqb_eq in F. contradiction. }
  rewrite Hn. simpl.
  destruct ((0 <? length (failed_of neighborAgents))%nat
            && status_eqb (healthStatus agent) healthy);
    [|destruct (isHealing agent && (length (failed_of neighborAgents) =? 0)%nat)];
    (eexists; split; [reflexivity|]; simpl; repeat split).
Qed.

(** Numbers that are not negative. *)
Lemma nonneg_add a b : nonneg a -> nonneg b -> nonneg (add a b).
Proof.
  destruct a, b; simpl; try tauto. intros; lra.
Qed.

Lemma nonneg_sum_from (l : list Agent) :
  Forall (fun a => nonneg (load a)) l ->
  forall acc, nonneg acc ->
  nonneg (fold_left (fun sum a => add sum (load a)) l acc).
Proof.
  induction 1 as [|a l Ha _ IH]; intros acc Hacc; simpl.
  - exact Hacc.
  - apply IH. apply nonneg_add; assumption.
Qed.

Lemma nonneg_sum_load l :
  Forall (fun a => nonneg (load a)) l -> nonneg (sum_load l).
Proof.
  intro H. unfold sum_load. apply nonneg_sum_from; [exact H|]. simpl. lra.
Qed.

Lemma inject_nat_nonneg n : 0 <= inject_Z (Z.of_nat n).
Proof.
  unfold Qle. simpl. lia.
Qed.

Lemma Qcompare_nonneg p : 0 <= p -> (p ?= 0) <> Lt.
Proof.
  intros H E. rewrite <- Qlt_alt in E. lra.
Qed.

Lemma nonneg_share s n :
  nonneg s -> nonneg (or_else (div s (of_nat n)) (Fin 0)).
Proof.
  pose proof (inject_nat_nonneg n) as Hn.
  destruct s as [p| | |]; simpl; try tauto; intro Hp.
  - unfold div, of_nat.
    destruct (Qeq_bool (inject_Z (Z.of_nat n)) 0) eqn:Z0.
    + destruct (p ?= 0) eqn:C; simpl; try lra; try exact I.
      apply Qcompare_nonneg in Hp. contradiction.
    + unfold or_else, truthy.
      apply Qeq_bool_neq in Z0.
      destruct (Qeq_bool (p / inject_Z (Z.of_nat n)) 0); simpl; [lra|].
      apply Qle_shift_div_l; lra.
  - unfold of_nat. apply Qle_bool_iff in Hn. rewrite Hn. exact I.
Qed.

Lemma filter_Forall {A} (P : A -> Prop) f (l : list A) :
  Forall P l -> Forall P (filter f l).
Proof.
  induction 1; simpl; [constructor|].
  destruct (f x); [constructor|]; assumption.
Qed.

Lemma nonneg_effectiveLoad agent neighborAgents :
  nonneg (load agent) ->
  Forall (fun a => nonneg (load a)) neighborAgents ->
  nonneg (effectiveLoad_of agent neighborAgents).
Proof.
  intros Ha Hn. unfold effectiveLoad_of, extraLoad.
  apply nonneg_add; [exact Ha|].
  apply nonneg_share, nonneg_sum_load, filter_Forall, Hn.
Qed.

Lemma target0_range agent :
  exists x, targetFanSpeed0 agent = Fin x /\ 25 <= x /\ x <= 100.
Proof.
  unfold targetFanSpeed0.
  destruct (gt (temperature agent) (Fin TEMP_THRESHOLD_HIGH));
    [eexists; split; [reflexivity|lra]|].
  destruct (gt (temperature agent) (add (targetTemperature agent) (Fin 2)));
    [eexists; split; [reflexivity|lra]|].
  destruct (lt (temperature agent) (Fin TEMP_THRESHOLD_LOW));
    eexists; split; try reflexivity; lra.
Qed.

Lemma fan_target_range agent E :
  exists y, fan_target agent E = Fin y /\ 25 <= y /\ y <= 100.
Proof.
  destruct (target0_range agent) as (x & Hx & L & U).
  unfold fan_target. rewrite Hx.
  destruct (gt E (Fin 60)); [|eauto].
  simpl. destruct (Qle_bool 100 (x + 20)) eqn:T.
  - eexists; split; [reflexivity|lra].
  - apply Qle_bool_false in T. eexists; split; [reflexivity|lra].
Qed.

Lemma new_fan_range agent E :
  within 0 100 (fanSpeed agent) -> within 0 100 (new_fan agent E).
Proof.
  destruct (fan_target_range agent E) as (y & Hy & L & U).
  unfold new_fan. rewrite Hy.
  destruct (fanSpeed agent) as [f| | |]; simpl; try tauto.
  intros [F0 F1]. lra.
Qed.

Lemma new_temp_clamped agent E :
  within 18 40 (temperature agent) ->
  within 0 100 (fanSpeed agent) ->
  nonneg E ->
  within 18 40 (max (Fin 18) (min (Fin 40) (new_temp agent E))).
Proof.
  intros Ht Hf HE.
  pose proof (new_fan_range agent E Hf) as Hnf.
  unfold new_temp.
  destruct (new_fan agent E) as [nf| | |]; try contradiction.
  destruct (temperature agent) as [t| | |]; try contradiction.
  destruct E as [e| | |]; try contradiction; simpl.
  - match goal with |- context [Qle_bool 40 ?v] => destruct (Qle_bool 40 v) eqn:T end.
    + simpl. lra.
    + apply Qle_bool_false in T.
      match goal with |- context [Qle_bool 18 ?v] => destruct (Qle_bool 18 v) eqn:T' end.
      * apply Qle_bool_iff in T'. simpl. lra.
      * simpl. lra.
  - lra.
Qed.

Lemma new_load_nonneg agent E :
  nonneg (load agent) -> nonneg E -> nonneg (new_load agent E).
Proof.
  intros Hl HE. unfold new_load.
  destruct (gt E (load agent)); [|exact Hl].
  destruct E as [e| | |]; try contradiction; simpl in *; [lra|exact I].
Qed.

Lemma failed_temp_range t :
  within 18 40 t -> within 18 40 (min (add t (Fin (6 # 10))) (Fin 40)).
Proof.
  destruct t as [t| | |]; simpl; try tauto. intros [L U].
  destruct (Qle_bool (t + (6 # 10)) 40) eqn:T.
  - apply Qle_bool_iff in T. simpl. lra.
  - simpl. lra.
Qed.

(** The neighbour objects of an agent of a linked array. *)
Lemma linked_neighbors (l : list Agent) ids :
  Forall (fun n => (0 <= n < Z.of_nat (length l))%Z) ids ->
  exists nb, map_opt (lookup l) ids = Some nb /\ Forall (fun a => In a l) nb.
Proof.
  induction 1 as [|n ids Hn _ (nb & E & F)]; simpl.
  - eexists; split; [reflexivity|constructor].
  - unfold lookup at 1. destruct (Z.ltb_spec n 0); [lia|].
    destruct (nth_error l (Z.to_nat n)) as [a|] eqn:Ea.
    + simpl. rewrite E. simpl. eexists. split; [reflexivity|].
      constructor; [|exact F]. eapply nth_error_In; eauto.
    + apply nth_error_None in Ea. lia.
Qed.

(** One update keeps the bounds and the links. *)
Lemma updateAgent_ok l agent :
  Forall agent_ok l ->
  Forall (fun n => (0 <= n < Z.of_nat (length l))%Z) (neighbors agent) ->
  agent_ok agent ->
  exists a', updateAgent agent l = Some a' /\ agent_ok a' /\
             neighbors a' = neighbors agent /\ id a' = id agent.
Proof.
  intros Hl Hn (Ht & Hf & Hld).
  destruct (status_eqb (healthStatus agent) failed) eqn:F.
  - apply status_eqb_eq in F.
    destruct (updateAgent_failed agent l F) as (a' & E & T & Fn & L & _ & N & I).
    exists a'. split; [exact E|]. split; [|split; assumption].
    unfold agent_ok. rewrite T, Fn, L.
    split; [apply failed_temp_range; exact Ht|].
    split; [simpl; lra|exact Hld].
  - assert (Hs : healthStatus agent <> failed).
    { intro E. apply status_eqb_eq in E. congruence. }
    destruct (linked_neighbors l _ Hn) as (nb & Enb & Fnb).
    destruct (updateAgent_fields agent l nb Hs Enb) as (a' & E & T & Fn & L & N & I).
    assert (HE : nonneg (effectiveLoad_of agent nb)).
    { apply nonneg_effectiveLoad; [exact Hld|].
      eapply Forall_impl; [|exact Fnb].
      intros a Ha. rewrite Forall_forall in Hl. apply Hl in Ha. apply Ha. }
    exists a'. split; [exact E|]. split; [|split; assumption].
    unfold agent_ok. rewrite T, Fn, L.
    split; [apply new_temp_clamped; assumption|].
    split; [apply new_fan_range; assumption|].
    apply new_load_nonneg; assumption.
Qed.

End RingStepFacts.

(* ------------------------------------------------------------------ *)
(** ** The ring variant: the invariant along every run *)

Module RingRun.
Import JS Ring RingInv RingStep RingFacts RingStepFacts.

Lemma fair_skip n g : fair g -> fair (skip n g).
Proof. intros H k. apply H. Qed.

Lemma initial_agent_ok g count k : fair g -> agent_ok (initial_agent g count k).
Proof.
  intro H. unfold agent_ok, initial_agent, INITIAL_TEMP.
  pose proof (H (cursor g + 2 * k)%nat) as [A B].
  pose proof (H (cursor g + 2 * k + 1)%nat) as [C D].
  simpl in *. repeat split; lra.
Qed.

Lemma ring_inv_init count g : fair g -> inv (init count g).
Proof.
  intro H. unfold inv. rewrite init_agents, init_rng.
  split; [|split].
  - unfold linked. rewrite Forall_forall. intros a Ha.
    apply in_map_iff in Ha. destruct Ha as (k & <- & Hk).
    apply in_seq in Hk. rewrite length_map, length_seq. simpl.
    eapply Forall_impl; [|apply ring_neighbors_range with (count := count); lia].
    simpl. intros n Hn. lia.
  - rewrite Forall_forall. intros a Ha.
    apply in_map_iff in Ha. destruct Ha as (k & <- & _).
    apply initial_agent_ok. exact H.
  - apply fair_skip. exact H.
Qed.

(** A command that rewrites agents one by one, keeping their neighbours. *)
Lemma inv_map (f : Agent -> Agent) s :
  (forall a, neighbors (f a) = neighbors a) ->
  (forall a, agent_ok a -> agent_ok (f a)) ->
  inv s -> inv (with_agents s (map f (agents s))).
Proof.
  intros Hn Hok (L & O & F). unfold inv. simpl.
  split; [|split; [|exact F]].
  - unfold linked in *. rewrite length_map.
    rewrite Forall_forall in *. intros a Ha.
    apply in_map_iff in Ha. destruct Ha as (b & <- & Hb).
    rewrite Hn. apply L. exact Hb.
  - rewrite Forall_forall in *. intros a Ha.
    apply in_map_iff in Ha. destruct Ha as (b & <- & Hb).
    apply Hok, O, Hb.
Qed.

Lemma inv_triggerFailure agentId s : inv s -> inv (triggerFailure agentId s).
Proof.
  apply inv_map.
  - intro a. destruct (id a =? agentId)%Z; reflexivity.
  - intros a (T & F & L). destruct (id a =? agentId)%Z; [|repeat split; assumption].
    repeat split; try assumption; simpl; lra.
Qed.

Lemma inv_repairAgent agentId s : inv s -> inv (repairAgent agentId s).
Proof.
  apply inv_map.
  - intro a. destruct (id a =? agentId)%Z; reflexivity.
  - intros a (T & F & L). destruct (id a =? agentId)%Z; repeat split; assumption.
Qed.

Lemma inv_simulationStep s :
  inv s -> exists s', simulationStep s = Some s' /\ inv s' /\
                      time s' = (time s + 1)%Z.
Proof.
  intros (L & O & F). unfold simulationStep.
  assert (T : Forall (fun a => exists b, updateAgent a (agents s) = Some b) (agents s)).
  { unfold linked in L. rewrite Forall_forall in *. intros a Ha.
    destruct (updateAgent_ok (agents s) a) as (a' & E & _);
      [rewrite Forall_forall; exact O|apply L, Ha|apply O, Ha|].
    eauto. }
  apply map_opt_total in T. destruct T as (l' & E).
  rewrite E. simpl. eexists. split; [reflexivity|].
  split; [|reflexivity].
  unfold inv. simpl. split; [|split; [|exact F]].
  - unfold linked. rewrite (map_opt_length _ _ _ E).
    eapply map_opt_Forall
      with (P := fun a => agent_ok a /\
                  Forall (fun n => (0 <= n < Z.of_nat (length (agents s)))%Z)
                         (neighbors a)); [| |exact E].
    + intros a b [Ha Hn] Hb.
      destruct (updateAgent_ok (agents s) a O Hn Ha) as (a' & E' & _ & N & _).
      rewrite Hb in E'. injection E' as <-. rewrite N. exact Hn.
    + unfold linked in L. rewrite Forall_forall in *. intros a Ha.
      split; [apply O|apply L]; exact Ha.
  - eapply map_opt_Forall
      with (P := fun a => agent_ok a /\
                  Forall (fun n => (0 <= n < Z.of_nat (length (agents s)))%Z)
                         (neighbors a)); [| |exact E].
    + intros a b [Ha Hn] Hb.
      destruct (updateAgent_ok (agents s) a O Hn Ha) as (a' & E' & K & _).
      rewrite Hb in E'. injection E' as <-. exact K.
    + unfold linked in L. rewrite Forall_forall in *. intros a Ha.
      split; [apply O|apply L]; exact Ha.
Qed.

Lemma ring_inv_exec count c s :
  inv s -> exists s', exec count c s = Some s' /\ inv s'.
Proof.
  intro H. destruct c; simpl.
  - unfold timer. destruct (isRunning s).
    + destruct (inv_simulationStep s H) as (s' & E & I & _). eauto.
    + eauto.
  - eexists. split; [reflexivity|]. exact H.
  - eexists. split; [reflexivity|]. apply ring_inv_init. apply H.
  - eexists. split; [reflexivity|]. apply inv_triggerFailure, H.
  - eexists. split; [reflexivity|]. apply inv_repairAgent, H.
Qed.

Lemma ring_inv_run count cs :
  forall s, inv s -> exists s', run count cs s = Some s' /\ inv s'.
Proof.
  induction cs as [|c cs IH]; intros s H; simpl.
  - eauto.
  - destruct (ring_inv_exec count c s H) as (s1 & E & H1).
    rewrite E. simpl. apply IH, H1.
Qed.

End RingRun.

(* ------------------------------------------------------------------ *)
(** ** The ring variant: a healthy agent between failed neighbours *)

Module RingFailure.
Import JS Ring RingInv RingStep RingFacts RingStepFacts RingRun.

Lemma fail_if_id k a : id (fail_if k a) = id a.
Proof. unfold fail_if. destruct (id a =? k)%Z; reflexivity. Qed.

Lemma fail_if_load k a : load (fail_if k a) = load a.
Proof. unfold fail_if. destruct (id a =? k)%Z; reflexivity. Qed.

Lemma fail_if_other k a : id a <> k -> fail_if k a = a.
Proof.
  intro H. unfold fail_if. destruct (Z.eqb_spec (id a) k); [contradiction|reflexivity].
Qed.

Lemma fail_if_status k a :
  id a = k \/ healthStatus a = failed -> healthStatus (fail_if k a) = failed.
Proof.
  unfold fail_if. intros [H|H].
  - rewrite H, Z.eqb_refl. reflexivity.
  - destruct (id a =? k)%Z; [reflexivity|exact H].
Qed.

Lemma lookup_map f l i : lookup (map f l) i = option_map f (lookup l i).
Proof.
  unfold lookup. destruct (i <? 0)%Z; [reflexivity|]. apply nth_error_map.
Qed.

Lemma inv_toggle s : inv s -> inv (toggleSimulation s).
Proof. intro H. exact H. Qed.

Lemma infinite_share p : 0 < p -> div (Fin p) (of_nat 0) = PInf.
Proof.
  intro H. unfold div, of_nat. simpl.
  apply Qgt_alt in H. rewrite H. reflexivity.
Qed.

End RingFailure.

(* ------------------------------------------------------------------ *)
(** ** The tick-counter variant: the generated snapshot *)

Module TickData.
Import Tick TickInv.

Lemma draws_agent_at sc t mf i g : draws (snd (agent_at sc t mf i g)) = draws g.
Proof.
  unfold agent_at.
  destruct ((t >=? faultStep sc)%Z || mf);
    [destruct (isFaultyAgent sc i && (t <? faultStep sc + 100)%Z);
       [|destruct (negb (isFaultyAgent sc i)
                   && (Z.abs (i - (numAgents sc - 1))
                       <=? (if is_vision sc then 5 else 2))%Z);
         [destruct (t <? faultStep sc + 50)%Z|]]|];
    reflexivity.
Qed.

Lemma draws_generate sc t mf :
  forall fuel i g, draws (snd (generate sc fuel t mf i g)) = draws g.
Proof.
  induction fuel as [|fuel IH]; intros i g; simpl; [reflexivity|].
  destruct (i <? numAgents sc)%Z; [|reflexivity].
  unfold bind.
  destruct (agent_at sc t mf i g) as [a g1] eqn:E1.
  destruct (generate sc fuel t mf (i + 1) g1) as [r g2] eqn:E2.
  simpl. change g2 with (snd (r, g2)). rewrite <- E2, IH.
  change g1 with (snd (a, g1)). rewrite <- E1. apply draws_agent_at.
Qed.

Lemma fair_draws g g' : draws g' = draws g -> fair g -> fair g'.
Proof. intros E H n. rewrite E. apply H. Qed.

Lemma generate_length sc t mf :
  forall fuel i g,
    (i + Z.of_nat fuel <= numAgents sc)%Z ->
    length (fst (generate sc fuel t mf i g)) = fuel.
Proof.
  induction fuel as [|fuel IH]; intros i g H; simpl; [reflexivity|].
  destruct (Z.ltb_spec i (numAgents sc)); [|lia].
  unfold bind.
  destruct (agent_at sc t mf i g) as [a g1].
  specialize (IH (i + 1)%Z g1).
  destruct (generate sc fuel t mf (i + 1) g1) as [r g2].
  simpl in *. f_equal. apply IH. lia.
Qed.

(** The loop has ended when the fuel runs out. *)
Lemma generate_ended sc t mf extra :
  forall fuel i g,
    (i + Z.of_nat fuel = numAgents sc)%Z ->
    generate sc (fuel + extra) t mf i g = generate sc fuel t mf i g.
Proof.
  induction fuel as [|fuel IH]; intros i g H; simpl.
  - destruct extra; simpl; [reflexivity|].
    destruct (Z.ltb_spec i (numAgents sc)); [lia|reflexivity].
  - destruct (i <? numAgents sc)%Z; [|reflexivity].
    unfold bind. destruct (agent_at sc t mf i g) as [a g1].
    rewrite IH by lia. reflexivity.
Qed.

Lemma generate_Forall sc t mf (P : AgentData -> Prop) :
  (forall i g, fair g -> P (fst (agent_at sc t mf i g))) ->
  forall fuel i g, fair g -> Forall P (fst (generate sc fuel t mf i g)).
Proof.
  intros HP. induction fuel as [|fuel IH]; intros i g Hg; simpl; [constructor|].
  destruct (i <? numAgents sc)%Z; [|constructor].
  unfold bind.
  pose proof (HP i g Hg) as Ha.
  pose proof (draws_agent_at sc t mf i g) as Hd.
  destruct (agent_at sc t mf i g) as [a g1].
  specialize (IH (i + 1)%Z g1 (fair_draws _ _ Hd Hg)).
  destruct (generate sc fuel t mf (i + 1) g1) as [r g2].
  simpl in *. constructor; assumption.
Qed.

Lemma numAgents_pos sc : (0 < numAgents sc)%Z.
Proof. destruct sc; reflexivity. Qed.

Lemma calculate_agents sc t mf g :
  agents (fst (calculateSimulationData sc t mf g))
  = fst (generate sc (Z.to_nat (numAgents sc)) t mf 0 g).
Proof.
  unfold calculateSimulationData, bind, ret.
  destruct (generate sc (Z.to_nat (numAgents sc)) t mf 0 g). reflexivity.
Qed.

Lemma calculate_draws sc t mf g :
  draws (snd (calculateSimulationData sc t mf g)) = draws g.
Proof.
  unfold calculateSimulationData, bind, ret.
  pose proof (draws_generate sc t mf (Z.to_nat (numAgents sc)) 0 g) as H.
  destruct (generate sc (Z.to_nat (numAgents sc)) t mf 0 g). exact H.
Qed.

(** The three draws that one agent uses. *)
Ltac three_draws g H :=
  pose proof (H (cursor g)) as [? ?];
  pose proof (H (S (cursor g))) as [? ?];
  pose proof (H (S (S (cursor g)))) as [? ?].

Lemma agent_at_ok sc t mf i g : fair g -> agent_ok (fst (agent_at sc t mf i g)).
Proof.
  intro H. three_draws g H. unfold agent_at, agent_ok, targetTemp.
  destruct ((t >=? faultStep sc)%Z || mf);
    [destruct (isFaultyAgent sc i && (t <? faultStep sc + 100)%Z);
       [|destruct (negb (isFaultyAgent sc i)
                   && (Z.abs (i - (numAgents sc - 1))
                       <=? (if is_vision sc then 5 else 2))%Z);
         [destruct (t <? faultStep sc + 50)%Z|]]|];
    destruct sc; simpl; repeat split; lra.
Qed.

Lemma agent_at_id sc t mf i g : id (fst (agent_at sc t mf i g)) = i.
Proof.
  unfold agent_at.
  destruct ((t >=? faultStep sc)%Z || mf);
    [destruct (isFaultyAgent sc i && (t <? faultStep sc + 100)%Z);
       [|destruct (negb (isFaultyAgent sc i)
                   && (Z.abs (i - (numAgents sc - 1))
                       <=? (if is_vision sc then 5 else 2))%Z);
         [destruct (t <? faultStep sc + 50)%Z|]]|];
    reflexivity.
Qed.

Lemma agent_at_faulty sc t mf i g :
  fair g -> in_fault_window sc t mf ->
  faulty_shown sc (fst (agent_at sc t mf i g)).
Proof.
  intros H [W1 W2] F. rewrite agent_at_id in F.
  pose proof (H (cursor g)) as [? ?].
  unfold agent_at, targetTemp.
  replace ((t >=? faultStep sc)%Z || mf) with true.
  - rewrite F. destruct (Z.ltb_spec t (faultStep sc + 100)); [|lia].
    simpl. repeat split; lra.
  - symmetry. apply orb_true_iff. destruct W1 as [W1|W1]; [left|right; exact W1].
    apply Z.geb_le. exact W1.
Qed.

End TickData.

(* ------------------------------------------------------------------ *)
(** ** Aggregates *)

Module AggregateFacts.
Import Aggregate.

Lemma fold_left_total {A} (f : A -> Q) (l : list A) :
  forall acc, fold_left (fun sum a => sum + f a) l acc == acc + total (map f l).
Proof.
  induction l as [|a l IH]; intro acc; simpl.
  - ring.
  - rewrite IH. ring.
Qed.

Lemma total_ext {A} (f h : A -> Q) (l : list A) :
  (forall a, f a == h a) -> total (map f l) == total (map h l).
Proof.
  intro H. induction l as [|a l IH]; simpl; [reflexivity|].
  rewrite IH, H. reflexivity.
Qed.

Lemma sum_by_total f l : Tick.sum_by f l == total (map f l).
Proof.
  unfold Tick.sum_by. rewrite fold_left_total. ring.
Qed.

(** Equality of JavaScript numbers. *)
Lemma eqv_trans a b c : JS.eqv a b -> JS.eqv b c -> JS.eqv a c.
Proof.
  destruct a, b, c; simpl; try tauto. intros H1 H2. rewrite H1. exact H2.
Qed.

Lemma add_assoc a b c : JS.eqv (JS.add (JS.add a b) c) (JS.add a (JS.add b c)).
Proof.
  destruct a, b, c; simpl; auto. ring.
Qed.

Lemma add_zero_r a : JS.eqv a (JS.add a (JS.Fin 0)).
Proof.
  destruct a; simpl; auto. ring.
Qed.

Lemma div_eqv_l a b c : JS.eqv a b -> JS.eqv (JS.div a c) (JS.div b c).
Proof.
  destruct a as [p| | |], b as [q| | |], c as [r| | |]; simpl; try tauto.
  - intro H. destruct (Qeq_bool r 0).
    + rewrite H. destruct (q ?= 0); simpl; auto.
    + simpl. rewrite H. reflexivity.
  - intros _. reflexivity.
  - intros _. reflexivity.
  - intros _. destruct (Qle_bool 0 r); simpl; auto.
  - intros _. destruct (Qle_bool 0 r); simpl; auto.
Qed.

Lemma fold_left_js_total {A} (f : A -> JS.num) (l : list A) :
  forall acc,
    JS.eqv (fold_left (fun sum a => JS.add sum (f a)) l acc)
           (JS.add acc (js_total (map f l))).
Proof.
  induction l as [|a l IH]; intro acc; simpl.
  - apply add_zero_r.
  - eapply eqv_trans; [apply IH|]. apply add_assoc.
Qed.

Lemma zero_add a : JS.eqv (JS.add (JS.Fin 0) a) a.
Proof.
  destruct a; simpl; auto. ring.
Qed.

Lemma reduce_js_total {A} (f : A -> JS.num) (l : list A) :
  JS.eqv (fold_left (fun sum a => JS.add sum (f a)) l (JS.Fin 0))
         (js_total (map f l)).
Proof.
  eapply eqv_trans; [apply fold_left_js_total|]. apply zero_add.
Qed.

End AggregateFacts.

Module TickAggregate.
Import Tick TickInv TickData Aggregate AggregateFacts.

Lemma calculate_consistent sc t mf g :
  consistent sc (fst (calculateSimulationData sc t mf g)).
Proof.
  unfold calculateSimulationData, bind, ret.
  pose proof (generate_length sc t mf (Z.to_nat (numAgents sc)) 0 g) as L.
  pose proof (numAgents_pos sc) as P.
  destruct (generate sc (Z.to_nat (numAgents sc)) t mf 0 g) as [l g'].
  simpl in *. specialize (L ltac:(lia)).
  assert (N : Z.of_nat (length l) = numAgents sc) by lia.
  assert (A : sum_by temperature l / inject_Z (numAgents sc)
              == mean (map temperature l)).
  { unfold mean, count. rewrite length_map, N, sum_by_total. reflexivity. }
  unfold consistent. simpl.
  split; [exact N|]. split; [exact A|]. split.
  - unfold population_variance, count. rewrite length_map, N, map_map.
    rewrite sum_by_total.
    apply Qmult_comp; [|reflexivity].
    apply total_ext. intro a. rewrite A. ring.
  - unfold mean, count. rewrite length_map, N, sum_by_total. reflexivity.
Qed.

Lemma calculate_ok sc t mf g :
  fair g -> Forall agent_ok (agents (fst (calculateSimulationData sc t mf g))).
Proof.
  intro H. rewrite calculate_agents.
  apply generate_Forall; [|exact H].
  intros i g0 H0. apply agent_at_ok. exact H0.
Qed.

Lemma calculate_faulty sc t mf g :
  fair g -> in_fault_window sc t mf ->
  Forall (faulty_shown sc) (agents (fst (calculateSimulationData sc t mf g))).
Proof.
  intros H W. rewrite calculate_agents.
  apply generate_Forall; [|exact H].
  intros i g0 H0. apply agent_at_faulty; assumption.
Qed.

(** Every command leaves a snapshot that [calculateSimulationData] built. *)
Lemma inv_calculate sc t mf g :
  fair g ->
  let r := calculateSimulationData sc t mf g in
  fair (snd r) /\ Forall agent_ok (agents (fst r)) /\ consistent sc (fst r).
Proof.
  intros H r. split; [|split].
  - eapply fair_draws; [apply calculate_draws|exact H].
  - apply calculate_ok, H.
  - apply calculate_consistent.
Qed.

Lemma tick_inv_init sc g : fair g -> inv sc (init sc g).
Proof.
  intro H. unfold init.
  pose proof (inv_calculate sc 0 false g H) as I.
  destruct (calculateSimulationData sc 0 false g). exact I.
Qed.

Lemma tick_inv_exec sc c s : inv sc s -> inv sc (exec sc c s).
Proof.
  intros (F & O & C). destruct c; simpl.
  - unfold timer. destruct (isPlaying s); [|exact (conj F (conj O C))].
    match goal with
    | |- context [calculateSimulationData sc ?t ?mf ?g] =>
        pose proof (inv_calculate sc t mf g F) as I;
        destruct (calculateSimulationData sc t mf g)
    end.
    exact I.
  - exact (conj F (conj O C)).
  - unfold handleReset.
    pose proof (inv_calculate sc 0 false (rng s) F) as I.
    destruct (calculateSimulationData sc 0 false (rng s)). exact I.
  - unfold handleInjectFault. destruct (negb (faultInjected s));
      [|exact (conj F (conj O C))].
    pose proof (inv_calculate sc (faultStep sc) true (rng s) F) as I.
    destruct (calculateSimulationData sc (faultStep sc) true (rng s)). exact I.
Qed.

Lemma tick_inv_run sc cs : forall s, inv sc s -> inv sc (run sc cs s).
Proof.
  unfold run. induction cs as [|c cs IH]; intros s H; simpl; [exact H|].
  apply IH, tick_inv_exec, H.
Qed.

End TickAggregate.

(* ------------------------------------------------------------------ *)
(** ** Failed agents *)

Module RingFailed.
Import JS Ring RingInv RingStep RingFacts RingStepFacts RingRun.

Lemma reachable_inv count g cs s :
  fair g -> run count cs (init count g) = Some s -> inv s.
Proof.
  intros Hg E.
  destruct (ring_inv_run count cs (init count g) (ring_inv_init count g Hg)) as (s' & E' & I).
  congruence.
Qed.

Lemma step_lookup s s' k agent :
  simulationStep s = Some s' ->
  lookup (agents s) k = Some agent ->
  exists a', updateAgent agent (agents s) = Some a' /\
             lookup (agents s') k = Some a'.
Proof.
  unfold simulationStep. intros E L.
  destruct (map_opt (fun a => updateAgent a (agents s)) (agents s)) as [l'|] eqn:El;
    [|discriminate].
  simpl in E. injection E as <-. simpl.
  unfold lookup in *. destruct (k <? 0)%Z; [discriminate|].
  eapply map_opt_nth in El; [|exact L]. exact El.
Qed.

Lemma failed_heating t :
  t <= 40 ->
  exists t', min (add (Fin t) (Fin (6 # 10))) (Fin 40) = Fin t' /\
             t <= t' /\ t' <= 40 /\ (t < 40 -> t < t') /\
             (t + (6 # 10) <= 40 -> t' == t + (6 # 10)) /\
             (40 <= t + (6 # 10) -> t' == 40).
Proof.
  intro H. simpl. destruct (Qle_bool (t + (6 # 10)) 40) eqn:T.
  - apply Qle_bool_iff in T. eexists. split; [reflexivity|].
    repeat split; lra.
  - apply Qle_bool_false in T. eexists. split; [reflexivity|].
    repeat split; lra.
Qed.

End RingFailed.

(* ------------------------------------------------------------------ *)
(** ** The script variant: writes through references *)

Module SwarmFacts.
Import Swarm SwarmInv.

Lemma modify_map {B} (g : Agent -> B) i f l :
  (forall a, g (f a) = g a) -> map g (modify i f l) = map g l.
Proof.
  intro H. revert i. induction l as [|a l IH]; intros [|i]; simpl;
    try reflexivity.
  - rewrite H. reflexivity.
  - rewrite IH. reflexivity.
Qed.

Lemma modify_Forall (P : Agent -> Prop) i f l :
  (forall a, P a -> P (f a)) -> Forall P l -> Forall P (modify i f l).
Proof.
  intros H F. revert i. induction F as [|a l Ha Hl IH]; intros [|i]; simpl;
    constructor; auto.
Qed.

Lemma shape_modify i f l :
  (forall a, id (f a) = id a) -> (forall a, neighbors (f a) = neighbors a) ->
  shape l -> shape (modify i f l).
Proof.
  intros Hi Hn [S1 S2]. split; rewrite modify_map; assumption.
Qed.

Lemma agentById_found l nid :
  In nid (map id l) -> exists n, agentById l nid = Some n /\ (n < length l)%nat.
Proof.
  induction l as [|a l IH]; simpl; [contradiction|].
  intros H. destruct (String.eqb_spec (id a) nid) as [E|N].
  - exists O. split; [reflexivity|lia].
  - destruct H as [H|H]; [contradiction|].
    destruct (IH H) as (n & E & L). rewrite E. exists (S n). split; [reflexivity|lia].
Qed.

Lemma table_closed :
  Forall (Forall (fun nid => In nid agentNames)) line_table.
Proof.
  unfold line_table, agentNames.
  repeat (apply Forall_cons || apply Forall_nil);
    simpl; repeat first [left; reflexivity | right].
Qed.

Lemma shape_neighbors l a x :
  shape l -> nth_error l a = Some x ->
  Forall (fun nid => In nid (map id l)) (neighbors x).
Proof.
  intros [S1 S2] E. rewrite S1.
  pose proof table_closed as T. rewrite Forall_forall in T. apply T.
  rewrite <- S2. apply in_map. eapply nth_error_In; eauto.
Qed.

Lemma shape_length l : shape l -> length l = 6%nat.
Proof.
  intros [S1 _]. rewrite <- (length_map id), S1. reflexivity.
Qed.

(** A loop whose body keeps an invariant of the store. *)
Lemma for_each_inv {A S} (I : S -> Prop) (body : S -> A -> option S) (l : list A) :
  (forall s x, In x l -> I s -> exists s', body s x = Some s' /\ I s') ->
  forall s, I s -> exists s', for_each body l s = Some s' /\ I s'.
Proof.
  induction l as [|x l IH]; intros H s Hs; simpl.
  - eauto.
  - destruct (H s x (or_introl eq_refl) Hs) as (s1 & E & H1).
    rewrite E. simpl. apply IH; [|exact H1].
    intros s0 y Hy. apply H. right. exact Hy.
Qed.

(** Field updates and the bounds. *)
Lemma raise_power_ok d a : agent_ok a -> agent_ok (raise_power d a).
Proof.
  intros (T1 & T2 & P1 & P2 & L1 & L2). unfold agent_ok, raise_power. simpl.
  pose proof (clamp_bounds (power a + d) (15 # 10) 6 ltac:(lra)) as [C1 C2].
  repeat split; lra.
Qed.

Lemma lower_power_ok a : agent_ok a -> agent_ok (lower_power a).
Proof.
  intros (T1 & T2 & P1 & P2 & L1 & L2). unfold agent_ok, lower_power. simpl.
  pose proof (clamp_bounds (power a - (12 # 100)) 1 6 ltac:(lra)) as [C1 C2].
  repeat split; lra.
Qed.

Lemma fail_agent_ok a : agent_ok a -> agent_ok (fail_agent a).
Proof.
  intros (T1 & T2 & P1 & P2 & L1 & L2). unfold agent_ok, fail_agent. simpl.
  pose proof (clamp_bounds (power a * (2 # 10)) (2 # 10) 1 ltac:(lra)) as [C1 C2].
  repeat split; lra.
Qed.

End SwarmFacts.

(* ------------------------------------------------------------------ *)
(** ** The script variant: the phases of [swarmStep] *)

Module SwarmPhases.
Import Swarm SwarmInv SwarmFacts.

Lemma share_duty_kept a l nid :
  kept l -> In nid agentNames ->
  exists l', share_duty a l nid = Some l' /\ kept l'.
Proof.
  intros [S O] H. unfold share_duty.
  destruct (agentById_found l nid) as (n & E & _).
  { rewrite (proj1 S). exact H. }
  rewrite E. simpl. eexists. split; [reflexivity|]. split.
  - do 2 (apply shape_modify; [reflexivity|reflexivity|]). exact S.
  - apply modify_Forall; [apply lower_power_ok|].
    apply modify_Forall; [apply raise_power_ok|]. exact O.
Qed.

Lemma boost_kept l nid :
  kept l -> In nid agentNames ->
  exists l', boost l nid = Some l' /\ kept l'.
Proof.
  intros [S O] H. unfold boost.
  destruct (agentById_found l nid) as (n & E & _).
  { rewrite (proj1 S). exact H. }
  rewrite E. simpl. eexists. split; [reflexivity|]. split.
  - apply shape_modify; [reflexivity|reflexivity|]. exact S.
  - apply modify_Forall; [apply raise_power_ok|]. exact O.
Qed.

Lemma neighbors_named l a x :
  shape l -> nth_error l a = Some x ->
  forall nid, In nid (neighbors x) -> In nid agentNames.
Proof.
  intros S E nid H.
  pose proof (shape_neighbors l a x S E) as F.
  rewrite Forall_forall in F. rewrite <- (proj1 S). apply F, H.
Qed.

Lemma heal_kept l a :
  kept l -> (a < length l)%nat -> exists l', heal l a = Some l' /\ kept l'.
Proof.
  intros [S O] H. unfold heal.
  destruct (nth_error l a) as [x|] eqn:E;
    [|apply nth_error_None in E; lia].
  simpl.
  apply (for_each_inv (fun l => kept l)).
  - intros s nid Hn Hs. apply share_duty_kept; [exact Hs|].
    eapply neighbors_named; eauto.
  - split.
    + apply shape_modify; [reflexivity|reflexivity|]. exact S.
    + apply modify_Forall; [|exact O]. intros b Hb. exact Hb.
Qed.

Lemma hot_from_range l : forall i x, In x (hot_from i l) -> (i <= x < i + length l)%nat.
Proof.
  induction l as [|a l IH]; intros i x H; simpl in *; [contradiction|].
  destruct (Qlt_bool 33 (temp a)).
  - destruct H as [<-|H]; [lia|]. apply IH in H. lia.
  - apply IH in H. lia.
Qed.

Lemma balance_kept l : kept l -> exists l', balance l = Some l' /\ kept l'.
Proof.
  intro K. unfold balance.
  apply (for_each_inv (fun l => kept l)); [|exact K].
  intros s a Ha Hs. apply heal_kept; [exact Hs|].
  apply hot_from_range in Ha.
  rewrite (shape_length s (proj1 Hs)), <- (shape_length l (proj1 K)). lia.
Qed.

(** The draws of [rnd]. *)
Lemma fair_same g g' : draws g' = draws g -> fair g -> fair g'.
Proof. intros E H n. rewrite E. apply H. Qed.

(** First phase. *)
Lemma local_update_spec ambient renBoost l :
  22 <= ambient - 1 -> ambient - 1 <= 42 ->
  Forall agent_ok l ->
  forall g,
    let r := local_update ambient renBoost l g in
    map id (fst r) = map id l /\
    map neighbors (fst r) = map neighbors l /\
    Forall agent_ok (fst r) /\
    draws (snd r) = draws g.
Proof.
  intros A1 A2 F. induction F as [|a l Ha _ IH]; intro g; simpl.
  - repeat split; constructor.
  - unfold bind. unfold rnd at 1 2. unfold random. simpl.
    match goal with
    | |- context [local_update ambient renBoost l ?g1] =>
        specialize (IH g1); destruct (local_update ambient renBoost l g1) as [r g2]
    end.
    simpl in *. destruct IH as (I1 & I2 & I3 & I4).
    split; [f_equal; exact I1|]. split; [f_equal; exact I2|].
    split; [|exact I4].
    constructor; [|exact I3].
    destruct Ha as (T1 & T2 & P1 & P2 & L1 & L2).
    unfold agent_ok. simpl.
    match goal with
    | |- context [clamp ?v (ambient - 1) 42] =>
        pose proof (clamp_bounds v (ambient - 1) 42 ltac:(lra)) as [C1 C2]
    end.
    match goal with
    | |- context [clamp ?v (15 # 100) (95 # 100)] =>
        pose proof (clamp_bounds v (15 # 100) (95 # 100) ltac:(lra)) as [D1 D2]
    end.
    repeat split; lra.
Qed.

(** Settling. *)
Lemma settle_spec l :
  Forall agent_ok l ->
  forall g,
    let r := settle l g in
    map id (fst r) = map id l /\
    map neighbors (fst r) = map neighbors l /\
    Forall agent_ok (fst r) /\
    draws (snd r) = draws g.
Proof.
  intros F. induction F as [|a l Ha _ IH]; intro g; simpl.
  - repeat split; constructor.
  - destruct (Qle_bool (temp a) 33 && negb (status_eqb (status a) FAIL)).
    + unfold bind. unfold rnd at 1. unfold random. simpl.
      match goal with
      | |- context [settle l ?g1] =>
          specialize (IH g1); destruct (settle l g1) as [r g2]
      end.
      simpl in *. destruct IH as (I1 & I2 & I3 & I4).
      split; [f_equal; exact I1|]. split; [f_equal; exact I2|].
      split; [|exact I4].
      constructor; [|exact I3].
      destruct Ha as (T1 & T2 & P1 & P2 & L1 & L2).
      unfold agent_ok. simpl.
      match goal with
      | |- context [clamp ?v (15 # 10) 6] =>
          pose proof (clamp_bounds v (15 # 10) 6 ltac:(lra)) as [C1 C2]
      end.
      repeat split; lra.
    + unfold bind. specialize (IH g). destruct (settle l g) as [r g2].
      simpl in *. destruct IH as (I1 & I2 & I3 & I4).
      split; [f_equal; exact I1|]. split; [f_equal; exact I2|].
      split; [|exact I4].
      constructor; assumption.
Qed.

Lemma settle_kept l g :
  kept l -> kept (fst (settle l g)) /\ draws (snd (settle l g)) = draws g.
Proof.
  intros [[S1 S2] O].
  destruct (settle_spec l O g) as (I1 & I2 & I3 & I4).
  repeat split; try assumption; congruence.
Qed.

(** The index drawn for the failing agent. *)
Lemma failing_index r n :
  0 <= r -> r < 1 -> (0 < n)%nat ->
  (0 <= Qfloor (r * inject_Z (Z.of_nat n)) < Z.of_nat n)%Z.
Proof.
  intros R0 R1 N.
  assert (P : 0 < inject_Z (Z.of_nat n)).
  { replace 0 with (inject_Z 0) by reflexivity. rewrite <- Zlt_Qlt. lia. }
  split.
  - change 0%Z with (Qfloor 0). apply Qfloor_resp_le. nra.
  - rewrite Zlt_Qlt.
    eapply Qle_lt_trans; [apply Qfloor_le|]. nra.
Qed.

Lemma rare_failure_kept l g :
  kept l -> fair g ->
  exists l' g', rare_failure l g = Some (l', g') /\ kept l' /\
                draws g' = draws g.
Proof.
  intros K H. unfold rare_failure, random. cbv beta iota zeta.
  destruct (Qlt_bool (draws g (cursor g)) (2 # 100)).
  - cbn [draws cursor].
    destruct (H (S (cursor g))) as [R0 R1].
    pose proof (failing_index (draws g (S (cursor g))) (length l) R0 R1) as I.
    rewrite (shape_length l (proj1 K)) in *. specialize (I ltac:(lia)).
    set (i := Qfloor (draws g (S (cursor g)) * inject_Z (Z.of_nat 6))) in *.
    clearbody i.
    destruct (Z.ltb_spec i 0); [lia|].
    destruct (nth_error l (Z.to_nat i)) as [failing|] eqn:E.
    2:{ apply nth_error_None in E. rewrite (shape_length l (proj1 K)) in E. lia. }
    cbn [obind].
    destruct (for_each_inv (fun l => kept l) boost (neighbors failing)) with
      (s := modify (Z.to_nat i) fail_agent l) as (l' & E' & K').
    + intros s nid Hn Hs. apply boost_kept; [exact Hs|].
      eapply neighbors_named; [exact (proj1 K)|exact E|exact Hn].
    + split.
      * apply shape_modify; [reflexivity|reflexivity|]. exact (proj1 K).
      * apply modify_Forall; [apply fail_agent_ok|]. exact (proj2 K).
    + rewrite E'. cbn [obind]. do 2 eexists. split; [reflexivity|].
      split; [exact K'|reflexivity].
  - do 2 eexists. split; [reflexivity|]. split; [exact K|reflexivity].
Qed.

End SwarmPhases.

(* ------------------------------------------------------------------ *)
(** ** The script variant: the invariant along every run *)

Module SwarmRun.
Import Swarm SwarmInv SwarmFacts SwarmPhases.

Section Script.

Variable Math_sin : Q -> Q.
Variable copy : Copy.
Hypothesis sine : bounded_sine Math_sin.

Lemma swarmStep_inv s :
  inv s ->
  exists s', swarmStep Math_sin copy s = Some s' /\ inv s' /\
             tick s' = tick s /\ running s' = running s.
Proof.
  intros [[S O] F]. unfold swarmStep.
  set (ambient := 24 + Math_sin (inject_Z (tick s) / 25) * 1).
  set (renBoost := (renMix (data s) - 30) * (2 # 1000)).
  assert (A : 22 <= ambient - 1 /\ ambient - 1 <= 42).
  { unfold ambient. destruct (sine (inject_Z (tick s) / 25)). split; lra. }
  destruct (local_update_spec ambient renBoost (agents s) (proj1 A) (proj2 A) O (rng s))
    as (I1 & I2 & I3 & I4).
  destruct (local_update ambient renBoost (agents s) (rng s)) as [l1 g1].
  simpl in I1, I2, I3, I4.
  assert (K1 : kept l1).
  { split; [|exact I3]. destruct S as [S1 S2]. split; congruence. }
  assert (F1 : fair g1) by (eapply fair_same; eauto).
  destruct (balance_kept l1 K1) as (l2 & E2 & K2).
  rewrite E2. cbn [obind].
  destruct copy.
  - destruct (rare_failure_kept l2 g1 K2 F1) as (l3 & g3 & E3 & K3 & D3).
    rewrite E3. cbn [obind].
    destruct (settle_kept l3 g3 K3) as [K4 D4].
    destruct (settle l3 g3) as [l4 g4]. simpl in K4, D4. cbn [obind].
    eexists. split; [reflexivity|].
    split; [|split; reflexivity].
    split; [exact K4|]. cbn [rng].
    eapply fair_same; [|exact F1]. congruence.
  - destruct (settle_kept l2 g1 K2) as [K3 D3].
    destruct (settle l2 g1) as [l3 g3]. simpl in K3, D3.
    assert (F3 : fair g3) by (eapply fair_same; eauto).
    destruct (rare_failure_kept l3 g3 K3 F3) as (l4 & g4 & E4 & K4 & D4).
    rewrite E4. cbn [obind].
    eexists. split; [reflexivity|].
    split; [|split; reflexivity].
    split; [exact K4|]. cbn [rng].
    eapply fair_same; [|exact F3]. exact D4.
Qed.

Lemma step_inv s :
  inv s ->
  exists s', step Math_sin copy s = Some s' /\ inv s' /\
             tick s' = (tick s + 1)%Z /\ running s' = running s.
Proof.
  intros [K F]. unfold step, rnd, random. cbv beta iota zeta.
  match goal with
  | |- context [swarmStep Math_sin copy ?s1] =>
      destruct (swarmStep_inv s1) as (s' & E & [K' F'] & T & R)
  end.
  { split; [exact K|]. cbn [rng]. intro n. apply F. }
  rewrite E. cbn [obind].
  eexists. split; [reflexivity|].
  split; [|split; assumption].
  split; [exact K'|]. cbn [rng]. intro n. apply F'.
Qed.

Lemma create_ok names :
  forall g, fair g ->
    Forall agent_ok (fst (create names g)) /\
    draws (snd (create names g)) = draws g.
Proof.
  induction names as [|name names IH]; intros g H; simpl.
  - split; [constructor|reflexivity].
  - unfold bind, rnd, random. cbv beta iota zeta. cbn [draws cursor].
    match goal with
    | |- context [create names ?g1] =>
        destruct (IH g1) as [I1 I2]; [intro n; apply H|];
        destruct (create names g1) as [r g2]
    end.
    simpl in I1, I2. split; [|exact I2].
    constructor; [|exact I1].
    destruct (H (cursor g)), (H (S (cursor g))), (H (S (S (cursor g)))).
    unfold agent_ok. simpl. repeat split; lra.
Qed.

Lemma redraw_spec l :
  forall g, fair g ->
    map id (fst (redraw l g)) = map id l /\
    map neighbors (fst (redraw l g)) = map neighbors l /\
    Forall agent_ok (fst (redraw l g)) /\
    draws (snd (redraw l g)) = draws g.
Proof.
  induction l as [|a l IH]; intros g H; simpl.
  - repeat split; constructor.
  - unfold bind, rnd, random. cbv beta iota zeta. cbn [draws cursor].
    match goal with
    | |- context [redraw l ?g1] =>
        destruct (IH g1) as (I1 & I2 & I3 & I4); [intro n; apply H|];
        destruct (redraw l g1) as [r g2]
    end.
    simpl in I1, I2, I3, I4.
    split; [simpl; f_equal; exact I1|].
    split; [simpl; f_equal; exact I2|].
    split; [|exact I4].
    constructor; [|exact I3].
    destruct (H (cursor g)), (H (S (cursor g))), (H (S (S (cursor g)))).
    unfold agent_ok. simpl. repeat split; lra.
Qed.

Lemma link_one_ok l i : Forall agent_ok l -> Forall agent_ok (link_one l i).
Proof.
  intro O. unfold link_one.
  assert (M : forall l0 v, Forall agent_ok l0 ->
            Forall agent_ok
              (modify i (fun a => set_neighbors (neighbors a ++ [v]) a) l0)).
  { intros l0 v O0. apply modify_Forall; [|exact O0]. intros a Ha. exact Ha. }
  assert (O1 : Forall agent_ok
                 (if (0 <? i)%nat
                  then match nth_error l (i - 1) with
                       | Some p =>
                           modify i (fun a => set_neighbors (neighbors a ++ [id p]) a) l
                       | None => l
                       end
                  else l)).
  { destruct (0 <? i)%nat; [|exact O].
    destruct (nth_error l (i - 1)); [apply M|]; exact O. }
  destruct (i <? length l - 1)%nat; [|exact O1].
  match goal with
  | |- context [nth_error ?l1 (i + 1)] => destruct (nth_error l1 (i + 1))
  end; [apply M|]; exact O1.
Qed.

Lemma link_ok l : Forall agent_ok l -> Forall agent_ok (link l).
Proof.
  unfold link. generalize (seq 0 (length l)). intros idx. revert l.
  induction idx as [|i idx IH]; intros l O; simpl; [exact O|].
  apply IH, link_one_ok, O.
Qed.

Lemma initial_shape g : shape (fst (initial_agents g)).
Proof.
  split; vm_compute; reflexivity.
Qed.

Lemma initial_kept g :
  fair g -> kept (fst (initial_agents g)) /\ fair (snd (initial_agents g)).
Proof.
  intro H. split; [split; [apply initial_shape|]|].
  - unfold initial_agents, bind, ret.
    destruct (create_ok agentNames g H) as [O _].
    destruct (create agentNames g) as [l g']. simpl in *. apply link_ok, O.
  - unfold initial_agents, bind, ret.
    destruct (create_ok agentNames g H) as [_ D].
    destruct (create agentNames g) as [l g']. simpl in *.
    eapply fair_same; eauto.
Qed.

Lemma swarm_inv_init g : fair g -> inv (init g).
Proof.
  intro H. unfold init.
  destruct (initial_kept g H) as [K F].
  destruct (initial_agents g) as [l g']. simpl in *.
  split; assumption.
Qed.

Lemma inv_start s : inv s -> inv (start s).
Proof.
  intro H. unfold start. destruct (running s); exact H.
Qed.

Lemma inv_stop s : inv s -> inv (stop s).
Proof.
  intro H. unfold stop. destruct (running s); exact H.
Qed.

Lemma inv_reset s : inv s -> inv (reset s).
Proof.
  intro H. apply inv_stop in H. unfold reset.
  destruct H as [[[S1 S2] O] F].
  destruct (redraw_spec (agents (stop s)) (rng (stop s)) F) as (I1 & I2 & I3 & I4).
  destruct (redraw (agents (stop s)) (rng (stop s))) as [l g].
  simpl in I1, I2, I3, I4.
  split; [split; [split|exact I3]|].
  - cbn [agents]. rewrite I1. exact S1.
  - cbn [agents]. rewrite I2. exact S2.
  - cbn [rng]. eapply fair_same; eauto.
Qed.

Lemma swarm_inv_exec c s :
  inv s -> exists s', exec Math_sin copy c s = Some s' /\ inv s'.
Proof.
  intro H. destruct c; simpl.
  - unfold timer. destruct (running s).
    + destruct (step_inv s H) as (s' & E & I & _). eauto.
    + eauto.
  - eexists. split; [reflexivity|]. apply inv_start, H.
  - eexists. split; [reflexivity|]. apply inv_stop, H.
  - eexists. split; [reflexivity|]. apply inv_reset, H.
Qed.

Lemma swarm_inv_run cs :
  forall s, inv s -> exists s', run Math_sin copy cs s = Some s' /\ inv s'.
Proof.
  induction cs as [|c cs IH]; intros s H; simpl.
  - eauto.
  - destruct (swarm_inv_exec c s H) as (s1 & E & H1).
    rewrite E. simpl. apply IH, H1.
Qed.

End Script.

End SwarmRun.

(* ------------------------------------------------------------------ *)
(** ** The script variant: one hot agent *)

Module SwarmHeal.
Import Swarm SwarmInv SwarmFacts.

Local Open Scope string_scope.

(** A population of the fixed shape, agent by agent. *)
Lemma shape_cases l :
  shape l ->
  exists t0 l0 p0 s0 t1 l1 p1 s1 t2 l2 p2 s2 t3 l3 p3 s3 t4 l4 p4 s4 t5 l5 p5 s5,
    l = [ {| id := "Z1-A"; temp := t0; load := l0; power := p0;
             neighbors := ["Z1-B"]; status := s0 |};
          {| id := "Z1-B"; temp := t1; load := l1; power := p1;
             neighbors := ["Z1-A"; "Z2-A"]; status := s1 |};
          {| id := "Z2-A"; temp := t2; load := l2; power := p2;
             neighbors := ["Z1-B"; "Z2-B"]; status := s2 |};
          {| id := "Z2-B"; temp := t3; load := l3; power := p3;
             neighbors := ["Z2-A"; "Z3-A"]; status := s3 |};
          {| id := "Z3-A"; temp := t4; load := l4; power := p4;
             neighbors := ["Z2-B"; "Z3-B"]; status := s4 |};
          {| id := "Z3-B"; temp := t5; load := l5; power := p5;
             neighbors := ["Z3-A"]; status := s5 |} ].
Proof.
  intros [S1 S2].
  destruct l as [|[i0 t0 l0 p0 n0 s0] [|[i1 t1 l1 p1 n1 s1] [|[i2 t2 l2 p2 n2 s2]
    [|[i3 t3 l3 p3 n3 s3] [|[i4 t4 l4 p4 n4 s4] [|[i5 t5 l5 p5 n5 s5] [|? ?]]]]]]];
    try discriminate.
  simpl in S1, S2. unfold agentNames in S1. unfold line_table in S2.
  injection S1 as -> -> -> -> -> ->.
  injection S2 as -> -> -> -> -> ->.
  do 24 eexists. reflexivity.
Qed.

(** The effect of the body of [hot.forEach] for the agent at position [a]. *)
Lemma heal_effect l a x :
  shape l -> nth_error l a = Some x ->
  exists l',
    heal l a = Some l' /\
    length (neighbors x) = (if ((a =? 0) || (a =? 5))%nat then 1 else 2)%nat /\
    forall j y, nth_error l j = Some y ->
      exists y',
        nth_error l' j = Some y' /\
        id y' = id y /\ neighbors y' = neighbors y /\
        temp y' = temp y /\ load y' = load y /\
        status y' = (if (j =? a)%nat then HOT else status y) /\
        power y' = (if (j =? a)%nat then lowered (length (neighbors x)) (power y)
                    else if adjacent j a then raised (power y)
                    else power y).
Proof.
  intros S E.
  destruct (shape_cases l S)
    as (t0 & l0 & p0 & s0 & t1 & l1 & p1 & s1 & t2 & l2 & p2 & s2 &
        t3 & l3 & p3 & s3 & t4 & l4 & p4 & s4 & t5 & l5 & p5 & s5 & ->).
  clear S.
  destruct a as [|[|[|[|[|[|a]]]]]]; simpl in E;
    try (destruct a; discriminate);
    injection E as <-;
    (eexists; split; [unfold heal; simpl; reflexivity|]; split; [reflexivity|];
     intros j y Hj;
     destruct j as [|[|[|[|[|[|j]]]]]]; simpl in Hj;
     try (destruct j; discriminate);
     injection Hj as <-;
     (eexists; split; [simpl; reflexivity|]; repeat split)).
Qed.

End SwarmHeal.

(* ================================================================== *)
(** * The claims of the specification *)

(** C1, as stated, fails for the load of the ring variant, which no clamp
    bounds.  In the ring of five agents whose initial loads are all 70
    (inside the initial range [25, 75]), one failure of agent 1 and one
    step leave the healthy neighbour 0 with the load 133; and with both
    neighbours of agent 2 failed, one step leaves agent 2 with the load
    [+Infinity], which lies in no range at all. *)
Lemma C1_counterexample :
  let s0 := Ring.init 5 (constant_rng (9 # 10)) in
  Forall (fun a => JS.within 25 75 (Ring.load a)) (Ring.agents s0) /\
  (exists s a,
     Ring.run 5 [Ring.Toggle; Ring.TriggerFailure 1; Ring.Timer] s0 = Some s /\
     Ring.lookup (Ring.agents s) 0 = Some a /\
     JS.eqv (Ring.load a) (JS.Fin 133) /\
     ~ JS.within 25 75 (Ring.load a)) /\
  (exists s a,
     Ring.run 5 [Ring.Toggle; Ring.TriggerFailure 1; Ring.TriggerFailure 3;
                 Ring.Timer] s0 = Some s /\
     Ring.lookup (Ring.agents s) 2 = Some a /\
     Ring.load a = JS.PInf /\
     forall lo hi, ~ JS.within lo hi (Ring.load a)).
Proof.
  split; [|split].
  - vm_compute. repeat constructor; discriminate.
  - do 2 eexists.
    split; [vm_compute; reflexivity|].
    split; [vm_compute; reflexivity|].
    split; [vm_compute; reflexivity|].
    vm_compute. intros [_ H]. apply H. reflexivity.
  - do 2 eexists.
    split; [vm_compute; reflexivity|].
    split; [vm_compute; reflexivity|].
    split; [reflexivity|].
    intros lo hi H. exact H.
Qed.

(** C1, amended.  After any finite sequence of timer ticks and commands,
    from any fair random source (and, for script.js, any sine with values
    in [-1, 1]), every run succeeds and:
    - ring variant: every temperature is in [18, 40], every fan speed in
      [0, 100], and every load is non-negative in the extended sense
      (never [NaN], never below 0; no upper bound is enforced);
    - tick-counter variant: every temperature is in [23.5, 33], every fan
      speed in [0, 100] and every power in [0, 600];
    - script.js, both copies: every temperature is in [22, 42], every
      power in [0.2, 6.0] and every load in [0.15, 0.95]. *)
Theorem C1_bounds :
  (forall count g cs,
     fair g ->
     exists s,
       Ring.run count cs (Ring.init count g) = Some s /\
       Forall (fun a => JS.within 18 40 (Ring.temperature a) /\
                        JS.within 0 100 (Ring.fanSpeed a) /\
                        JS.nonneg (Ring.load a))
              (Ring.agents s)) /\
  (forall sc g cs,
     fair g ->
     Forall (fun a => (235 # 10) <= Tick.temperature a /\ Tick.temperature a <= 33 /\
                      0 <= Tick.fanSpeed a /\ Tick.fanSpeed a <= 100 /\
                      0 <= Tick.power a /\ Tick.power a <= 600)
            (Tick.agents (Tick.data (Tick.run sc cs (Tick.init sc g))))) /\
  (forall Math_sin copy g cs,
     SwarmInv.bounded_sine Math_sin -> fair g ->
     exists s,
       Swarm.run Math_sin copy cs (Swarm.init g) = Some s /\
       Forall (fun a => 22 <= Swarm.temp a /\ Swarm.temp a <= 42 /\
                        (2 # 10) <= Swarm.power a /\ Swarm.power a <= 6 /\
                        (15 # 100) <= Swarm.load a /\ Swarm.load a <= (95 # 100))
              (Swarm.agents s)).
Proof.
  split; [|split].
  - intros count g cs Hg.
    destruct (RingRun.ring_inv_run count cs (Ring.init count g)
                (RingRun.ring_inv_init count g Hg)) as (s & E & _ & O & _).
    exists s. split; [exact E|exact O].
  - intros sc g cs Hg.
    destruct (TickAggregate.tick_inv_run sc cs (Tick.init sc g)
                (TickAggregate.tick_inv_init sc g Hg)) as (_ & O & _).
    exact O.
  - intros Math_sin copy g cs Hs Hg.
    destruct (SwarmRun.swarm_inv_run Math_sin copy Hs cs (Swarm.init g)
                (SwarmRun.swarm_inv_init g Hg)) as (s & E & [_ O] & _).
    exists s. split; [exact E|exact O].
Qed.

(** The bounds of C1 on a ring of five agents with one failure and on two
    ticks of script.js. *)
Lemma C1_bounds_witness :
  fair (constant_rng (1 # 2)) /\
  SwarmInv.bounded_sine (fun _ => 0) /\
  (exists s,
     Ring.run 5 [Ring.Toggle; Ring.TriggerFailure 1; Ring.Timer]
              (Ring.init 5 (constant_rng (1 # 2))) = Some s /\
     Forall (fun a => JS.within 18 40 (Ring.temperature a) /\
                      JS.within 0 100 (Ring.fanSpeed a) /\
                      JS.nonneg (Ring.load a))
            (Ring.agents s)) /\
  (exists s,
     Swarm.run (fun _ => 0) Swarm.HacktonWeb1 [Swarm.Timer; Swarm.Timer]
               (Swarm.init (constant_rng (1 # 2))) = Some s /\
     Forall (fun a => 22 <= Swarm.temp a /\ Swarm.temp a <= 42 /\
                      (2 # 10) <= Swarm.power a /\ Swarm.power a <= 6 /\
                      (15 # 100) <= Swarm.load a /\ Swarm.load a <= (95 # 100))
            (Swarm.agents s)).
Proof.
  assert (F : fair (constant_rng (1 # 2))) by (intro n; simpl; lra).
  assert (B : SwarmInv.bounded_sine (fun _ => 0)) by (intro x; lra).
  split; [exact F|]. split; [exact B|]. split.
  - apply (proj1 C1_bounds 5%Z (constant_rng (1 # 2))
             [Ring.Toggle; Ring.TriggerFailure 1; Ring.Timer] F).
  - apply (proj2 (proj2 C1_bounds) (fun _ => 0) Swarm.HacktonWeb1
             (constant_rng (1 # 2)) [Swarm.Timer; Swarm.Timer] B F).
Defined.

(** C2.  Tick-counter variant: in the state reached by any sequence of
    commands, the snapshot holds exactly [numAgents] agents and its
    [avgTemp], [variance] and [avgPower] are the arithmetic mean of the
    temperatures, their population variance (divisor = number of agents)
    and the mean of the powers of the agents of that same snapshot.  Ring
    variant: for every agent array, [averageTemperature] is the mean of the
    temperatures and [totalLoad] the sum of the loads. *)
Theorem C2_aggregate_consistency :
  (forall sc g cs,
     let d := Tick.data (Tick.run sc cs (Tick.init sc g)) in
     Z.of_nat (length (Tick.agents d)) = Tick.numAgents sc /\
     Tick.avgTemp d == Aggregate.mean (map Tick.temperature (Tick.agents d)) /\
     Tick.variance d
       == Aggregate.population_variance (map Tick.temperature (Tick.agents d)) /\
     Tick.avgPower d == Aggregate.mean (map Tick.power (Tick.agents d))) /\
  (forall l : list Ring.Agent,
     JS.eqv (Ring.averageTemperature (Ring.calculateStats l))
            (Aggregate.js_mean (map Ring.temperature l)) /\
     JS.eqv (Ring.totalLoad (Ring.calculateStats l))
            (Aggregate.js_total (map Ring.load l))).
Proof.
  split.
  - intros sc g cs d.
    assert (C : forall s, TickInv.consistent sc (Tick.data s) ->
                          TickInv.consistent sc (Tick.data (Tick.run sc cs s))).
    { unfold Tick.run. induction cs as [|c cs IH]; intros s H; simpl; [exact H|].
      apply IH. destruct c; simpl.
      - unfold Tick.timer. destruct (Tick.isPlaying s); [|exact H].
        match goal with
        | |- context [Tick.calculateSimulationData sc ?t ?mf ?r] =>
            pose proof (TickAggregate.calculate_consistent sc t mf r) as I;
            destruct (Tick.calculateSimulationData sc t mf r)
        end.
        exact I.
      - exact H.
      - unfold Tick.handleReset.
        pose proof (TickAggregate.calculate_consistent sc 0 false (Tick.rng s)) as I.
        destruct (Tick.calculateSimulationData sc 0 false (Tick.rng s)). exact I.
      - unfold Tick.handleInjectFault. destruct (negb (Tick.faultInjected s));
          [|exact H].
        pose proof (TickAggregate.calculate_consistent sc (Tick.faultStep sc) true
                      (Tick.rng s)) as I.
        destruct (Tick.calculateSimulationData sc (Tick.faultStep sc) true
                    (Tick.rng s)).
        exact I. }
    apply C. unfold Tick.init.
    pose proof (TickAggregate.calculate_consistent sc 0 false g) as I.
    destruct (Tick.calculateSimulationData sc 0 false g). exact I.
  - intro l. unfold Ring.calculateStats, Aggregate.js_mean. simpl. split.
    + rewrite length_map. apply AggregateFacts.div_eqv_l.
      apply AggregateFacts.reduce_js_total.
    + apply AggregateFacts.reduce_js_total.
Qed.

(** C3.  In every state of the tick-counter hook, injecting a fault twice
    gives the state that injecting it once gives; [canInjectFault] holds
    exactly when the latch is unset and the tick is strictly before the
    fault tick; and it is false after an injection. *)
Theorem C3_inject_fault_idempotent :
  forall sc (s : Tick.State),
    Tick.handleInjectFault sc (Tick.handleInjectFault sc s)
      = Tick.handleInjectFault sc s /\
    (Tick.canInjectFault sc s = true <->
       Tick.faultInjected s = false /\ (Tick.step s < Tick.faultStep sc)%Z) /\
    Tick.canInjectFault sc (Tick.handleInjectFault sc s) = false.
Proof.
  intros sc s. split; [|split].
  - apply TickFacts.inject_when_latched, TickFacts.inject_sets_latch.
  - unfold Tick.canInjectFault.
    rewrite andb_true_iff, negb_true_iff, Z.ltb_lt. reflexivity.
  - unfold Tick.canInjectFault.
    rewrite TickFacts.inject_sets_latch. reflexivity.
Qed.

(** C4.  Prototype scenario, no manual fault: the fault tick is 50 and the
    phase label of the snapshot is Stable at tick 49, FaultDetected at
    tick 50, SelfHealing at tick 75 and Stabilized at tick 150, whatever
    the random draws. *)
Theorem C4_phase_labeling :
  Tick.faultStep Tick.prototype = 50%Z /\
  forall g,
    let label t :=
      Tick.phase (fst (Tick.calculateSimulationData Tick.prototype t false g)) in
    label 49%Z = label_text Stable /\
    label 50%Z = label_text FaultDetected /\
    label 75%Z = label_text SelfHealing /\
    label 150%Z = label_text Stabilized.
Proof.
  split; [reflexivity|].
  intros g label. unfold label.
  rewrite !TickFacts.calculate_phase. repeat split; reflexivity.
Qed.

(** C5, as stated, fails in both variants that have failed agents.  Ring
    variant: in the ring of five agents, all made to fail at time 0, the
    failed agent 0 is at 40 degrees after 26 steps and the next step
    leaves it at 40 (no strict increase), while its load stays 50.
    Tick-counter variant: with a fault injected by hand at tick 50, the
    faulty agent 5 shows 32.7 degrees at tick 50 and 30.3 degrees at
    tick 51. *)
Lemma C5_counterexample :
  (exists s s' a a',
     Ring.run 5 (Ring.Toggle :: map Ring.TriggerFailure [0; 1; 2; 3; 4]%Z
                   ++ repeat Ring.Timer 26)
              (Ring.init 5 (constant_rng (1 # 2))) = Some s /\
     Ring.timer s = Some s' /\
     Ring.lookup (Ring.agents s) 0 = Some a /\
     Ring.lookup (Ring.agents s') 0 = Some a' /\
     Ring.healthStatus a = Ring.failed /\
     Ring.healthStatus a' = Ring.failed /\
     JS.eqv (Ring.temperature a) (JS.Fin 40) /\
     JS.eqv (Ring.temperature a') (JS.Fin 40) /\
     JS.gt (Ring.temperature a') (Ring.temperature a) = false /\
     JS.eqv (Ring.load a') (JS.Fin 50)) /\
  (let s := Tick.run Tick.prototype [Tick.PlayPause; Tick.InjectFault]
              (Tick.init Tick.prototype
                 (scripted_rng (repeat (1 # 10) 33 ++ [9 # 10]) (1 # 10))) in
   let s' := Tick.timer Tick.prototype s in
   exists a a',
     Tick.step s = 50%Z /\ Tick.step s' = 51%Z /\
     nth_error (Tick.agents (Tick.data s)) 5 = Some a /\
     nth_error (Tick.agents (Tick.data s')) 5 = Some a' /\
     Tick.status a = Tick.faulty /\ Tick.status a' = Tick.faulty /\
     Tick.temperature a == 327 # 10 /\ Tick.temperature a' == 303 # 10 /\
     ~ Tick.temperature a < Tick.temperature a').
Proof.
  split.
  - do 4 eexists.
    split; [vm_compute; reflexivity|].
    split; [vm_compute; reflexivity|].
    split; [vm_compute; reflexivity|].
    split; [vm_compute; reflexivity|].
    repeat split; vm_compute; reflexivity.
  - do 2 eexists.
    split; [vm_compute; reflexivity|].
    split; [vm_compute; reflexivity|].
    split; [vm_compute; reflexivity|].
    split; [vm_compute; reflexivity|].
    split; [reflexivity|]. split; [reflexivity|].
    split; [vm_compute; reflexivity|].
    split; [vm_compute; reflexivity|].
    vm_compute. discriminate.
Qed.

(** C5, amended.  Ring variant: an agent on which [triggerFailure] is
    called is failed with fan speed 0 at once; and in every reachable
    running state, a step keeps a failed agent failed, sets its fan speed
    to 0, leaves its load unchanged and replaces its temperature [t] by
    [min(t + 0.6, 40)], that is by [t + 0.6] when this is at most 40 and by
    40 otherwise: the temperature never decreases, never exceeds 40, and
    increases strictly as long as it is below 40.  Tick-counter variant:
    in every snapshot computed inside the fault window (the fault has
    happened, by the tick or by hand, and the tick is below
    [faultStep + 100]), every agent selected as faulty has status faulty,
    fan speed 0, power 0 and a temperature drawn afresh in [30, 33]. *)
Theorem C5_failed_agent_heating :
  (forall agentId s a,
     In a (Ring.agents (Ring.triggerFailure agentId s)) -> Ring.id a = agentId ->
     Ring.healthStatus a = Ring.failed /\ Ring.fanSpeed a = JS.Fin 0) /\
  (forall count g cs s k agent,
     fair g ->
     Ring.run count cs (Ring.init count g) = Some s ->
     Ring.isRunning s = true ->
     Ring.lookup (Ring.agents s) k = Some agent ->
     Ring.healthStatus agent = Ring.failed ->
     exists s' a' t t',
       Ring.timer s = Some s' /\
       Ring.lookup (Ring.agents s') k = Some a' /\
       Ring.healthStatus a' = Ring.failed /\
       Ring.fanSpeed a' = JS.Fin 0 /\
       Ring.load a' = Ring.load agent /\
       Ring.temperature agent = JS.Fin t /\
       Ring.temperature a' = JS.Fin t' /\
       t <= t' /\ t' <= 40 /\ (t < 40 -> t < t') /\
       (t + (6 # 10) <= 40 -> t' == t + (6 # 10)) /\
       (40 <= t + (6 # 10) -> t' == 40)) /\
  (forall sc t mf g,
     fair g -> TickInv.in_fault_window sc t mf ->
     Forall (TickInv.faulty_shown sc)
            (Tick.agents (fst (Tick.calculateSimulationData sc t mf g)))).
Proof.
  split; [|split].
  - intros agentId s a Ha Hid. unfold Ring.triggerFailure in Ha. simpl in Ha.
    apply in_map_iff in Ha. destruct Ha as (b & <- & _).
    destruct (Z.eqb_spec (Ring.id b) agentId) as [E|N].
    + split; reflexivity.
    + contradiction.
  - intros count g cs s k agent Hg Hr Hrun Hk Hf.
    pose proof (RingFailed.reachable_inv count g cs s Hg Hr) as I.
    destruct (RingRun.inv_simulationStep s I) as (s' & Es & _ & _).
    destruct (RingFailed.step_lookup s s' k agent Es Hk) as (a' & Ea & La).
    destruct (RingStepFacts.updateAgent_failed agent (Ring.agents s) Hf)
      as (b & Eb & Tb & Fb & Lb & Sb & _).
    assert (b = a') by congruence. subst b.
    assert (Hok : RingInv.agent_ok agent).
    { destruct I as (_ & O & _). rewrite Forall_forall in O. apply O.
      unfold Ring.lookup in Hk. destruct (k <? 0)%Z; [discriminate|].
      eapply nth_error_In; eauto. }
    destruct Hok as (Ht & _).
    destruct (Ring.temperature agent) as [t| | |] eqn:Et; try contradiction.
    destruct Ht as [_ Ht].
    destruct (RingFailed.failed_heating t Ht)
      as (t' & E' & H1 & H2 & H3 & H4 & H5).
    exists s', a', t, t'.
    split; [unfold Ring.timer; rewrite Hrun; exact Es|].
    split; [exact La|]. split; [exact Sb|]. split; [exact Fb|].
    split; [exact Lb|]. split; [reflexivity|].
    split; [rewrite Tb; exact E'|].
    repeat split; assumption.
  - intros sc t mf g Hg W. apply TickAggregate.calculate_faulty; assumption.
Qed.

(** The ring part of C5 one step after a failure of agent 1 in a running
    ring of five: the failed agent goes from 25 to 25.6 degrees. *)
Lemma C5_failed_agent_heating_witness :
  let s := Ring.triggerFailure 1
             (Ring.toggleSimulation (Ring.init 5 (constant_rng (1 # 2)))) in
  exists s' a' t',
    Ring.timer s = Some s' /\
    Ring.lookup (Ring.agents s') 1 = Some a' /\
    Ring.healthStatus a' = Ring.failed /\
    Ring.fanSpeed a' = JS.Fin 0 /\
    Ring.temperature a' = JS.Fin t' /\ t' == 256 # 10.
Proof.
  assert (F : fair (constant_rng (1 # 2))) by (intro n; simpl; lra).
  destruct (proj1 (proj2 C5_failed_agent_heating)
              5%Z (constant_rng (1 # 2))
              [Ring.Toggle; Ring.TriggerFailure 1]
              (Ring.triggerFailure 1
                 (Ring.toggleSimulation (Ring.init 5 (constant_rng (1 # 2)))))
              1%Z
              (RingStep.fail_if 1 (RingInv.initial_agent (constant_rng (1 # 2)) 5 1))
              F eq_refl eq_refl eq_refl eq_refl)
    as (s' & a' & t & t' & T & L & S & Fn & _ & Et & Et' & _ & _ & _ & Heq & _).
  vm_compute in Et. injection Et as <-.
  exists s', a', t'.
  split; [exact T|]. split; [exact L|]. split; [exact S|]. split; [exact Fn|].
  split; [exact Et'|].
  rewrite Heq; [reflexivity|]. vm_compute. discriminate.
Defined.

(** C6, as stated, fails for a ring of one agent: its neighbour list is
    [0; 0], which contains its own id. *)
Lemma C6_counterexample :
  let l := fst (Ring.createInitialAgents 1 (constant_rng 0)) in
  (1 <= 1)%Z /\
  RingInv.neighbors_of l 0 = [0%Z; 0%Z] /\
  In 0%Z (RingInv.neighbors_of l 0).
Proof.
  vm_compute. repeat split; try discriminate. left. reflexivity.
Qed.

(** C6, amended.  For every [agentCount >= 1] the population created with
    the ring topology stores at index [i] the agent of id [i], whose
    neighbour list is [(i-1+N)%N; (i+1)%N]; membership is symmetric; and
    for [agentCount >= 2] no agent is its own neighbour. *)
Theorem C6_ring_topology :
  forall count g,
    (1 <= count)%Z ->
    let l := fst (Ring.createInitialAgents count g) in
    (forall i, (0 <= i < count)%Z ->
       exists a, Ring.lookup l i = Some a /\ Ring.id a = i /\
                 Ring.neighbors a = [Z.rem (i - 1 + count) count; Z.rem (i + 1) count] /\
                 Ring.neighbors a = [((i - 1 + count) mod count)%Z; ((i + 1) mod count)%Z]) /\
    (forall i j, (0 <= i < count)%Z -> (0 <= j < count)%Z ->
       (In j (RingInv.neighbors_of l i) <-> In i (RingInv.neighbors_of l j))) /\
    ((2 <= count)%Z ->
       forall i, (0 <= i < count)%Z -> ~ In i (RingInv.neighbors_of l i)).
Proof.
  intros count g Hc l. subst l.
  rewrite RingFacts.createInitialAgents_closed. simpl fst.
  assert (N : forall i, (0 <= i < count)%Z ->
            RingInv.neighbors_of
              (map (RingInv.initial_agent g count) (seq 0 (Z.to_nat count))) i
            = [if (i =? 0)%Z then (count - 1)%Z else (i - 1)%Z;
               if (i + 1 =? count)%Z then 0%Z else (i + 1)%Z]).
  { intros i Hi. unfold RingInv.neighbors_of.
    rewrite RingFacts.lookup_initial by exact Hi. simpl.
    unfold Ring.ring_neighbors. rewrite Z2Nat.id by lia.
    rewrite RingFacts.rem_pred, RingFacts.rem_succ by exact Hi. reflexivity. }
  split; [|split].
  - intros i Hi. eexists. split; [apply RingFacts.lookup_initial; exact Hi|].
    simpl. rewrite Z2Nat.id by lia. split; [reflexivity|].
    split; [reflexivity|].
    unfold Ring.ring_neighbors. rewrite !Z.rem_mod_nonneg by lia. reflexivity.
  - intros i j Hi Hj. rewrite !N by assumption. simpl.
    destruct (Z.eqb_spec i 0), (Z.eqb_spec (i + 1) count),
             (Z.eqb_spec j 0), (Z.eqb_spec (j + 1) count); lia.
  - intros H2 i Hi. rewrite N by assumption. simpl.
    destruct (Z.eqb_spec i 0), (Z.eqb_spec (i + 1) count); lia.
Qed.

(** The last agent of a ring of five is not its own neighbour. *)
Lemma C6_ring_topology_witness :
  (1 <= 5)%Z /\ (2 <= 5)%Z /\ (0 <= 4 < 5)%Z /\
  ~ In 4%Z (RingInv.neighbors_of
              (fst (Ring.createInitialAgents 5 (constant_rng (1 # 2)))) 4).
Proof.
  split; [lia|]. split; [lia|]. split; [lia|].
  apply (C6_ring_topology 5 (constant_rng (1 # 2))); lia.
Defined.

(** C7, as stated, fails: take the initial population (every power 3.5)
    with the interior agent Z2-A at 35 degrees.  It is the only hot agent,
    and the balancing pass leaves it with power 3.26, that is two
    decrements, where one clamped decrement would give 3.38. *)
Lemma C7_counterexample :
  let l := Swarm.modify 2 (Swarm.set_temp 35)
             (fst (Swarm.initial_agents (constant_rng (1 # 2)))) in
  exists l' a a',
    Swarm.hot l = [2%nat] /\
    Swarm.balance l = Some l' /\
    nth_error l 2 = Some a /\ nth_error l' 2 = Some a' /\
    33 < Swarm.temp a /\
    Swarm.status a' = Swarm.HOT /\
    Swarm.power a == 35 # 10 /\
    Swarm.power a' == 326 # 100 /\
    clamp (Swarm.power a - (12 # 100)) 1 6 == 338 # 100 /\
    ~ Swarm.power a' == clamp (Swarm.power a - (12 # 100)) 1 6.
Proof.
  do 3 eexists.
  split; [vm_compute; reflexivity|].
  split; [vm_compute; reflexivity|].
  split; [vm_compute; reflexivity|].
  split; [vm_compute; reflexivity|].
  split; [vm_compute; reflexivity|].
  split; [reflexivity|].
  split; [vm_compute; reflexivity|].
  split; [vm_compute; reflexivity|].
  split; [vm_compute; reflexivity|].
  vm_compute. discriminate.
Qed.

(** C7, amended.  In a population of the shape that script.js builds (six
    agents on a line), the body of [hot.forEach] for the agent at position
    [a] succeeds and: marks that agent HOT; lowers its power by the
    decrement once per neighbour it has, clamping to [1.0, 6.0] each time
    (twice for an interior agent, once for the two ends of the line);
    raises the power of each adjacent agent by the increment once, clamped
    to [1.5, 6.0]; and leaves every other field and every other agent as
    they were.  When [a] is the only hot agent, this is the whole
    balancing pass of the tick. *)
Theorem C7_redistribution :
  forall l a x,
    SwarmInv.shape l -> nth_error l a = Some x ->
    exists l',
      Swarm.heal l a = Some l' /\
      (Swarm.hot l = [a] -> Swarm.balance l = Some l') /\
      length (Swarm.neighbors x) = (if ((a =? 0) || (a =? 5))%nat then 1 else 2)%nat /\
      forall j y, nth_error l j = Some y ->
        exists y',
          nth_error l' j = Some y' /\
          Swarm.id y' = Swarm.id y /\ Swarm.neighbors y' = Swarm.neighbors y /\
          Swarm.temp y' = Swarm.temp y /\ Swarm.load y' = Swarm.load y /\
          Swarm.status y' = (if (j =? a)%nat then Swarm.HOT else Swarm.status y) /\
          Swarm.power y' =
            (if (j =? a)%nat
             then SwarmInv.lowered (length (Swarm.neighbors x)) (Swarm.power y)
             else if SwarmInv.adjacent j a then SwarmInv.raised (Swarm.power y)
             else Swarm.power y).
Proof.
  intros l a x S E.
  destruct (SwarmHeal.heal_effect l a x S E) as (l' & H & N & F).
  exists l'. split; [exact H|]. split; [|split; assumption].
  intro Hot. unfold Swarm.balance. rewrite Hot. simpl. rewrite H. reflexivity.
Qed.

(** The interior agent Z2-A, once hot, is lowered twice. *)
Lemma C7_redistribution_witness :
  let l := Swarm.modify 2 (Swarm.set_temp 35)
             (fst (Swarm.initial_agents (constant_rng (1 # 2)))) in
  exists x l' y',
    nth_error l 2 = Some x /\
    Swarm.heal l 2 = Some l' /\
    nth_error l' 2 = Some y' /\
    Swarm.power y' = SwarmInv.lowered 2 (Swarm.power x).
Proof.
  intro l.
  assert (S : SwarmInv.shape l) by (split; vm_compute; reflexivity).
  destruct (nth_error l 2) as [x|] eqn:E; [|vm_compute in E; discriminate].
  destruct (C7_redistribution l 2%nat x S E) as (l' & H & _ & N & F).
  destruct (F 2%nat x E) as (y' & Y & _ & _ & _ & _ & _ & P).
  exists x, l', y'. simpl in N, P. rewrite N in P.
  repeat split; assumption.
Defined.

(** C8, as stated, fails: constructing the ring engine with [agentCount = 0]
    does not end with [InvalidConfig]; it returns an engine whose
    population is empty. *)
Lemma C8_counterexample :
  create_engine 0 (constant_rng 0) <> Threw InvalidConfig /\
  exists s, create_engine 0 (constant_rng 0) = Returned s /\ Ring.agents s = [].
Proof.
  split; [discriminate|].
  eexists. split; reflexivity.
Qed.

(** C8, amended.  Construction never fails: for every [agentCount] and
    every random source it returns an engine, stopped at time 0, whose
    population has exactly [agentCount] agents when [agentCount >= 1] and is
    empty when [agentCount < 1]; the loop that builds it has ended (more
    fuel gives the same population). *)
Theorem C8_construction_total :
  forall agentCount g,
  exists s,
    create_engine agentCount g = Returned s /\
    Ring.isRunning s = false /\ Ring.time s = 0%Z /\
    length (Ring.agents s) = Z.to_nat agentCount /\
    ((1 <= agentCount)%Z -> Z.of_nat (length (Ring.agents s)) = agentCount) /\
    ((agentCount < 1)%Z -> Ring.agents s = []) /\
    (forall extra,
       fst (Ring.create_loop (Z.to_nat agentCount + extra) 0 agentCount g)
       = Ring.agents s).
Proof.
  intros agentCount g. exists (Ring.init agentCount g).
  assert (L : length (Ring.agents (Ring.init agentCount g)) = Z.to_nat agentCount).
  { rewrite RingFacts.init_agents, length_map, length_seq. reflexivity. }
  repeat split.
  - unfold Ring.init. destruct (Ring.createInitialAgents agentCount g). reflexivity.
  - unfold Ring.init. destruct (Ring.createInitialAgents agentCount g). reflexivity.
  - exact L.
  - intro H. rewrite L. lia.
  - intro H. apply length_zero_iff_nil. rewrite L. lia.
  - intro extra. rewrite RingFacts.create_loop_stable.
    unfold Ring.init. destruct (Ring.createInitialAgents agentCount g). reflexivity.
Qed.

(** A ring of five agents is constructed with five agents. *)
Lemma C8_construction_total_witness :
  (1 <= 5)%Z /\
  exists s, create_engine 5 (constant_rng (1 # 2)) = Returned s /\
            Z.of_nat (length (Ring.agents s)) = 5%Z.
Proof.
  split; [lia|].
  destruct (C8_construction_total 5 (constant_rng (1 # 2)))
    as (s & E & _ & _ & _ & H & _ & _).
  exists s. split; [exact E|]. apply H. lia.
Defined.

(** C9, as stated, fails: in the prototype scenario the step taken at
    tick 200 (reached by starting the hook and letting the timer fire 200
    times) wraps the counter back to 0. *)
Lemma C9_counterexample :
  let s := Tick.run Tick.prototype
             (Tick.PlayPause :: repeat Tick.Timer 200)
             (Tick.init Tick.prototype (constant_rng (1 # 2))) in
  Tick.isPlaying s = true /\
  Tick.step s = 200%Z /\
  Tick.step (Tick.timer Tick.prototype s) = 0%Z /\
  ~ (Tick.step s <= Tick.step (Tick.timer Tick.prototype s))%Z.
Proof.
  vm_compute. repeat split; try reflexivity. intro H. apply H. reflexivity.
Qed.

(** C9, amended.  While the hook is playing, a step taken below
    [maxSteps] increases the tick by exactly one, and a step taken at
    [maxSteps] or beyond wraps it to 0; while the hook is paused the timer
    does not exist and the state stays as it is.  Play/pause keeps the
    tick.  An injection issued while [canInjectFault] holds moves the tick
    strictly forward, to the fault tick; an injection with the latch set
    changes nothing. *)
Theorem C9_tick_progress :
  forall sc (s : Tick.State),
    (Tick.isPlaying s = true -> (Tick.step s < Tick.maxSteps sc)%Z ->
       Tick.step (Tick.timer sc s) = (Tick.step s + 1)%Z) /\
    (Tick.isPlaying s = true -> (Tick.maxSteps sc <= Tick.step s)%Z ->
       Tick.step (Tick.timer sc s) = 0%Z) /\
    (Tick.isPlaying s = false -> Tick.timer sc s = s) /\
    Tick.step (Tick.handlePlayPause s) = Tick.step s /\
    (Tick.canInjectFault sc s = true ->
       (Tick.step s < Tick.step (Tick.handleInjectFault sc s))%Z /\
       Tick.step (Tick.handleInjectFault sc s) = Tick.faultStep sc) /\
    (Tick.faultInjected s = true -> Tick.handleInjectFault sc s = s).
Proof.
  intros sc s. repeat split.
  - intros P L. rewrite TickFacts.timer_tick by exact P.
    destruct (Z.geb_spec (Tick.step s) (Tick.maxSteps sc)); [lia|reflexivity].
  - intros P L. rewrite TickFacts.timer_tick by exact P.
    destruct (Z.geb_spec (Tick.step s) (Tick.maxSteps sc)); [reflexivity|lia].
  - apply TickFacts.timer_paused.
  - unfold Tick.canInjectFault in H.
    apply andb_true_iff in H. destruct H as [L T].
    apply negb_true_iff in L. apply Z.ltb_lt in T.
    rewrite TickFacts.inject_tick by exact L. exact T.
  - unfold Tick.canInjectFault in H.
    apply andb_true_iff in H. destruct H as [L T].
    apply negb_true_iff in L.
    apply TickFacts.inject_tick; exact L.
  - apply TickFacts.inject_when_latched.
Qed.

(** The first step of a started prototype hook moves the tick from 0 to 1. *)
Lemma C9_tick_progress_witness :
  let s := Tick.handlePlayPause (Tick.init Tick.prototype (constant_rng (1 # 2))) in
  Tick.isPlaying s = true /\
  (Tick.step s < Tick.maxSteps Tick.prototype)%Z /\
  Tick.step (Tick.timer Tick.prototype s) = (Tick.step s + 1)%Z.
Proof.
  split; [reflexivity|]. split; [reflexivity|].
  apply (C9_tick_progress Tick.prototype
           (Tick.handlePlayPause (Tick.init Tick.prototype (constant_rng (1 # 2)))));
    reflexivity.
Defined.

(** C10.  In every ring of at least two agents, created from any fair
    random source, take any agent [i], start the hook and call
    [triggerFailure] on both ring neighbours of [i].  Agent [i] is still
    healthy, all its neighbours are failed, the sum of their loads is
    finite and positive and the number of healthy neighbours is 0, so the
    extra-load term is [+Infinity]; the step succeeds and leaves agent [i]
    with the load [+Infinity]. *)
Theorem C10_division_by_zero :
  forall count g i,
    (2 <= count)%Z -> (0 <= i < count)%Z -> fair g ->
    let s1 :=
      Ring.triggerFailure (Z.rem (i + 1) count)
        (Ring.triggerFailure (Z.rem (i - 1 + count) count)
           (Ring.toggleSimulation (Ring.init count g))) in
    exists a nb s2 a',
      Ring.lookup (Ring.agents s1) i = Some a /\
      Ring.healthStatus a = Ring.healthy /\
      map_opt (Ring.lookup (Ring.agents s1)) (Ring.neighbors a) = Some nb /\
      nb <> [] /\
      Forall (fun n => Ring.healthStatus n = Ring.failed) nb /\
      length (Ring.healthy_of nb) = 0%nat /\
      (exists q, Ring.sum_load (Ring.failed_of nb) = JS.Fin q /\ 0 < q) /\
      Ring.extraLoad (Ring.failed_of nb) (Ring.healthy_of nb) = JS.PInf /\
      Ring.timer s1 = Some s2 /\
      Ring.lookup (Ring.agents s2) i = Some a' /\
      Ring.load a' = JS.PInf.
Proof.
  intros count g i Hc Hi Hg s1.
  set (p := Z.rem (i - 1 + count) count) in *.
  set (q := Z.rem (i + 1) count) in *.
  assert (Hp : (0 <= p < count)%Z /\ p <> i).
  { unfold p. rewrite RingFacts.rem_pred by exact Hi.
    destruct (Z.eqb_spec i 0); lia. }
  assert (Hq : (0 <= q < count)%Z /\ q <> i).
  { unfold q. rewrite RingFacts.rem_succ by exact Hi.
    destruct (Z.eqb_spec (i + 1) count); lia. }
  assert (A1 : Ring.agents s1 =
               map (RingStep.fail_if q)
                 (map (RingStep.fail_if p)
                    (map (RingInv.initial_agent g count) (seq 0 (Z.to_nat count))))).
  { unfold s1, Ring.triggerFailure. simpl. rewrite RingFacts.init_agents. reflexivity. }
  assert (LK : forall k, (0 <= k < count)%Z ->
               Ring.lookup (Ring.agents s1) k =
               Some (RingStep.fail_if q (RingStep.fail_if p
                       (RingInv.initial_agent g count (Z.to_nat k))))).
  { intros k Hk. rewrite A1, !RingFailure.lookup_map.
    rewrite RingFacts.lookup_initial by exact Hk. reflexivity. }
  set (a := RingInv.initial_agent g count (Z.to_nat i)).
  set (ap := RingStep.fail_if q (RingStep.fail_if p
               (RingInv.initial_agent g count (Z.to_nat p)))).
  set (aq := RingStep.fail_if q (RingStep.fail_if p
               (RingInv.initial_agent g count (Z.to_nat q)))).
  assert (Ia : Ring.id a = i) by (unfold a; simpl; lia).
  assert (La : Ring.lookup (Ring.agents s1) i = Some a).
  { rewrite LK by exact Hi. fold a.
    rewrite (RingFailure.fail_if_other p a) by (rewrite Ia; lia).
    rewrite (RingFailure.fail_if_other q a) by (rewrite Ia; lia).
    reflexivity. }
  assert (Na : Ring.neighbors a = [p; q]).
  { unfold a. simpl. rewrite Z2Nat.id by lia. reflexivity. }
  assert (Fp : Ring.healthStatus ap = Ring.failed).
  { unfold ap. apply RingFailure.fail_if_status. right.
    apply RingFailure.fail_if_status. left. simpl. lia. }
  assert (Fq : Ring.healthStatus aq = Ring.failed).
  { unfold aq. apply RingFailure.fail_if_status. left.
    rewrite RingFailure.fail_if_id. simpl. lia. }
  assert (Nb : map_opt (Ring.lookup (Ring.agents s1)) (Ring.neighbors a)
               = Some [ap; aq]).
  { rewrite Na. unfold map_opt. rewrite (LK p), (LK q) by tauto. reflexivity. }
  assert (Ff : Ring.failed_of [ap; aq] = [ap; aq]).
  { unfold Ring.failed_of. simpl. rewrite Fp, Fq. reflexivity. }
  assert (Fh : Ring.healthy_of [ap; aq] = []).
  { unfold Ring.healthy_of. simpl. rewrite Fp, Fq. reflexivity. }
  pose proof (Hg (cursor g + 2 * Z.to_nat p + 1)%nat) as [Dp _].
  pose proof (Hg (cursor g + 2 * Z.to_nat q + 1)%nat) as [Dq _].
  set (lp := draws g (cursor g + 2 * Z.to_nat p + 1)%nat * 50 + 25) in *.
  set (lq := draws g (cursor g + 2 * Z.to_nat q + 1)%nat * 50 + 25) in *.
  assert (Sum : Ring.sum_load [ap; aq] = JS.Fin (0 + lp + lq)).
  { unfold Ring.sum_load, ap, aq. simpl.
    rewrite !RingFailure.fail_if_load. reflexivity. }
  assert (Pos : 0 < 0 + lp + lq) by (unfold lp, lq; lra).
  assert (Ex : Ring.extraLoad (Ring.failed_of [ap; aq]) (Ring.healthy_of [ap; aq])
               = JS.PInf).
  { unfold Ring.extraLoad. rewrite Ff, Fh, Sum.
    apply RingFailure.infinite_share. exact Pos. }
  assert (I1 : RingInv.inv s1).
  { unfold s1. do 2 apply RingRun.inv_triggerFailure.
    apply RingFailure.inv_toggle, RingRun.ring_inv_init, Hg. }
  destruct (RingRun.inv_simulationStep s1 I1) as (s2 & E2 & _ & _).
  assert (Hs : Ring.healthStatus a <> Ring.failed) by (unfold a; simpl; discriminate).
  destruct (RingStepFacts.updateAgent_fields a (Ring.agents s1) [ap; aq] Hs Nb)
    as (a' & Ea' & _ & _ & Ld & _).
  exists a, [ap; aq], s2, a'.
  split; [exact La|]. split; [reflexivity|]. split; [exact Nb|].
  split; [discriminate|].
  split; [repeat constructor; assumption|].
  split; [rewrite Fh; reflexivity|].
  split; [exists (0 + lp + lq); rewrite Ff; split; assumption|].
  split; [exact Ex|].
  split.
  { unfold Ring.timer.
    replace (Ring.isRunning s1) with true; [exact E2|].
    unfold s1, Ring.init. simpl.
    rewrite RingFacts.createInitialAgents_closed. reflexivity. }
  split.
  - unfold Ring.simulationStep in E2.
    destruct (map_opt (fun agent => Ring.updateAgent agent (Ring.agents s1))
                      (Ring.agents s1)) as [l'|] eqn:El; [|discriminate].
    simpl in E2. injection E2 as <-. simpl.
    unfold Ring.lookup in *. destruct (Z.ltb_spec i 0); [lia|].
    destruct (map_opt_nth _ _ _ El _ _ La) as (b & Eb & Nb').
    rewrite Nb'. congruence.
  - rewrite Ld. unfold RingStep.effectiveLoad_of. rewrite Ex.
    unfold a. simpl. reflexivity.
Qed.

(** Agent 2 of a ring of five, between the failed agents 1 and 3. *)
Lemma C10_division_by_zero_witness :
  exists a',
    Ring.lookup
      (Ring.agents
         (match Ring.timer
                  (Ring.triggerFailure 3
                     (Ring.triggerFailure 1
                        (Ring.toggleSimulation (Ring.init 5 (constant_rng (1 # 2))))))
          with Some s => s | None => Ring.init 5 (constant_rng (1 # 2)) end)) 2
    = Some a' /\ Ring.load a' = JS.PInf.
Proof.
  assert (F : fair (constant_rng (1 # 2))) by (intro n; simpl; lra).
  destruct (C10_division_by_zero 5 (constant_rng (1 # 2)) 2
              ltac:(lia) ltac:(lia) F)
    as (a & nb & s2 & a' & _ & _ & _ & _ & _ & _ & _ & _ & T & L & P).
  exists a'. change (Z.rem (2 + 1) 5) with 3%Z in T.
  change (Z.rem (2 - 1 + 5) 5) with 1%Z in T.
  rewrite T. split; assumption.
Defined.

(* ================================================================== *)
(** * Further properties of the code *)

(* ------------------------------------------------------------------ *)
(** ** The ring variant: what a step and a command keep *)

Module RingMoreFacts.
Import JS Ring RingInv RingStep RingMore RingFacts RingStepFacts RingRun RingFailed.

Lemma updateAgent_frame agent allAgents a' :
  updateAgent agent allAgents = Some a' ->
  id a' = id agent /\ neighbors a' = neighbors agent /\
  targetTemperature a' = targetTemperature agent.
Proof.
  unfold updateAgent.
  destruct (status_eqb (healthStatus agent) failed).
  - intro E. injection E as <-. repeat split.
  - destruct (map_opt (lookup allAgents) (neighbors agent)) as [nb|];
      [|discriminate].
    simpl.
    destruct ((0 <? length (failed_of nb))%nat
              && status_eqb (healthStatus agent) healthy);
      [|destruct (isHealing agent && (length (failed_of nb) =? 0)%nat)];
      intro E; injection E as <-; repeat split.
Qed.

Lemma updateAgent_status agent allAgents neighborAgents :
  healthStatus agent <> failed ->
  map_opt (lookup allAgents) (neighbors agent) = Some neighborAgents ->
  exists a',
    updateAgent agent allAgents = Some a' /\
    healthStatus a' = new_status agent neighborAgents /\
    isHealing a' = snd (healing_step agent neighborAgents) /\
    communicating a' = (0 <? length (failed_of neighborAgents))%nat.
Proof.
  intros Hs Hn. unfold updateAgent.
  destruct (status_eqb (healthStatus agent) failed) eqn:F.
  { apply status_eqb_eq in F. contradiction. }
  rewrite Hn. simpl. unfold new_status, healing_step, new_temp, new_fan,
    fan_target, effectiveLoad_of.
  destruct ((0 <? length (failed_of neighborAgents))%nat
            && status_eqb (healthStatus agent) healthy);
    [|destruct (isHealing agent && (length (failed_of neighborAgents) =? 0)%nat)];
    (eexists; split; [reflexivity|]; simpl; repeat split).
Qed.

Lemma new_status_not_failed agent nb :
  healthStatus agent <> failed -> new_status agent nb <> failed.
Proof.
  intro H. unfold new_status, healing_step.
  destruct (gt _ (Fin 35)); [discriminate|].
  destruct ((0 <? length (failed_of nb))%nat
            && status_eqb (healthStatus agent) healthy); simpl.
  - rewrite andb_false_r. discriminate.
  - destruct (isHealing agent && (length (failed_of nb) =? 0)%nat); simpl.
    + rewrite andb_false_r. discriminate.
    + destruct (le _ _ && status_eqb (healthStatus agent) warning);
        [destruct (isHealing agent); discriminate|exact H].
Qed.

(** The frame of the initial population does not depend on the draws. *)
Lemma frame_initial count g :
  frame (map (initial_agent g count) (seq 0 (Z.to_nat count)))
  = map (fun k => (Z.of_nat k, ring_neighbors (Z.of_nat k) count, Fin TARGET_TEMP))
        (seq 0 (Z.to_nat count)).
Proof.
  unfold frame. rewrite map_map. reflexivity.
Qed.

Lemma frame_init count g g' :
  frame (agents (init count g)) = frame (agents (init count g')).
Proof.
  rewrite !init_agents, !frame_initial. reflexivity.
Qed.

Lemma frame_map (f : Agent -> Agent) l :
  (forall a, (id (f a), neighbors (f a), targetTemperature (f a))
             = (id a, neighbors a, targetTemperature a)) ->
  frame (map f l) = frame l.
Proof.
  intro H. unfold frame. rewrite map_map. apply map_ext. exact H.
Qed.

Lemma frame_step s s' :
  simulationStep s = Some s' -> frame (agents s') = frame (agents s).
Proof.
  unfold simulationStep.
  destruct (map_opt (fun a => updateAgent a (agents s)) (agents s)) as [l'|] eqn:E;
    [|discriminate].
  simpl. intro H. injection H as <-. simpl.
  generalize dependent l'. generalize (agents s) at 1 as all.
  induction (agents s) as [|a l IH]; intros all l' E; simpl in E.
  - injection E as <-. reflexivity.
  - destruct (updateAgent a all) as [a'|] eqn:Ea; [|discriminate]. simpl in E.
    destruct (map_opt (fun a0 => updateAgent a0 all) l) as [r|] eqn:Er;
      [|discriminate].
    injection E as <-. unfold frame in *. simpl.
    destruct (updateAgent_frame a all a' Ea) as (-> & -> & ->).
    f_equal. apply (IH all). exact Er.
Qed.

Lemma frame_exec count c s s' :
  exec count c s = Some s' ->
  frame (agents s) = frame (agents (init count (rng s))) ->
  frame (agents s') = frame (agents (init count (rng s'))).
Proof.
  destruct c; simpl; intros E F.
  - unfold timer in E. destruct (isRunning s).
    + rewrite (frame_step s s' E), F.
      unfold simulationStep in E.
      destruct (map_opt _ _); [|discriminate]. simpl in E.
      injection E as <-. reflexivity.
    + injection E as <-. exact F.
  - injection E as <-. exact F.
  - injection E as <-. unfold resetSimulation. apply frame_init.
  - injection E as <-. unfold triggerFailure. simpl.
    rewrite frame_map; [exact F|].
    intro a. destruct (id a =? agentId)%Z; reflexivity.
  - injection E as <-. unfold repairAgent. simpl.
    rewrite frame_map; [exact F|].
    intro a. destruct (id a =? agentId)%Z; reflexivity.
Qed.

Lemma frame_run count cs :
  forall s s',
    run count cs s = Some s' ->
    frame (agents s) = frame (agents (init count (rng s))) ->
    frame (agents s') = frame (agents (init count (rng s'))).
Proof.
  induction cs as [|c cs IH]; intros s s' E F; simpl in E.
  - injection E as <-. exact F.
  - destruct (exec count c s) as [s1|] eqn:E1; [|discriminate]. simpl in E.
    eapply IH; [exact E|]. eapply frame_exec; eauto.
Qed.

Lemma frame_reachable count g cs s :
  run count cs (init count g) = Some s ->
  frame (agents s)
  = map (fun k => (Z.of_nat k, ring_neighbors (Z.of_nat k) count, Fin TARGET_TEMP))
        (seq 0 (Z.to_nat count)).
Proof.
  intro E.
  rewrite (frame_run count cs _ _ E).
  - rewrite init_agents. apply frame_initial.
  - apply frame_init.
Qed.

Lemma frame_length l l' : frame l = frame l' -> length l = length l'.
Proof.
  intro H. apply (f_equal (@length _)) in H. unfold frame in H.
  rewrite !length_map in H. exact H.
Qed.

Lemma frame_lookup count l k a :
  frame l
  = map (fun k => (Z.of_nat k, ring_neighbors (Z.of_nat k) count, Fin TARGET_TEMP))
        (seq 0 (Z.to_nat count)) ->
  lookup l k = Some a ->
  (0 <= k < count)%Z /\ id a = k /\ neighbors a = ring_neighbors k count /\
  targetTemperature a = Fin TARGET_TEMP.
Proof.
  intros F L. unfold lookup in L.
  destruct (Z.ltb_spec k 0); [discriminate|].
  assert (N : nth_error (frame l) (Z.to_nat k)
              = Some (id a, neighbors a, targetTemperature a)).
  { unfold frame. rewrite nth_error_map, L. reflexivity. }
  rewrite F, nth_error_map, nth_error_seq in N.
  destruct (Nat.ltb_spec (Z.to_nat k) (Z.to_nat count)); [|discriminate].
  simpl in N. injection N as N1 N2 N3.
  rewrite Z2Nat.id in * by lia.
  repeat split; try lia; congruence.
Qed.

End RingMoreFacts.

Module RingLive.
Import JS Ring RingInv RingStep RingMore RingFacts RingStepFacts RingRun RingFailed
       RingMoreFacts.

Lemma run_app count cs cs' s :
  run count (cs ++ cs') s = obind (run count cs s) (run count cs').
Proof.
  revert s. induction cs as [|c cs IH]; intro s; simpl; [reflexivity|].
  destruct (exec count c s); simpl; [apply IH|reflexivity].
Qed.

Lemma reachable_agent_ok count g cs s k a :
  fair g -> run count cs (init count g) = Some s ->
  lookup (agents s) k = Some a -> agent_ok a.
Proof.
  intros Hg Hr Hk.
  destruct (reachable_inv count g cs s Hg Hr) as (_ & O & _).
  rewrite Forall_forall in O. apply O.
  unfold lookup in Hk. destruct (k <? 0)%Z; [discriminate|].
  eapply nth_error_In; eauto.
Qed.

(** The step of an agent that has not failed, in a reachable state. *)
Lemma live_step count g cs s k a :
  fair g -> run count cs (init count g) = Some s ->
  lookup (agents s) k = Some a -> healthStatus a <> failed ->
  exists s' a' nb,
    simulationStep s = Some s' /\
    lookup (agents s') k = Some a' /\
    map_opt (lookup (agents s)) (neighbors a) = Some nb /\
    temperature a' = max (Fin 18) (min (Fin 40) (new_temp a (effectiveLoad_of a nb))) /\
    fanSpeed a' = new_fan a (effectiveLoad_of a nb) /\
    load a' = new_load a (effectiveLoad_of a nb) /\
    healthStatus a' = new_status a nb /\
    isHealing a' = snd (healing_step a nb) /\
    communicating a' = (0 <? length (failed_of nb))%nat.
Proof.
  intros Hg Hr Hk Hs.
  pose proof (reachable_inv count g cs s Hg Hr) as I.
  destruct (inv_simulationStep s I) as (s' & Es & _ & _).
  destruct (step_lookup s s' k a Es Hk) as (a' & Ea & La).
  destruct I as (L & _ & _).
  assert (Hn : Forall (fun n => (0 <= n < Z.of_nat (length (agents s)))%Z) (neighbors a)).
  { unfold linked in L. rewrite Forall_forall in L. apply L.
    unfold lookup in Hk. destruct (k <? 0)%Z; [discriminate|].
    eapply nth_error_In; eauto. }
  destruct (linked_neighbors (agents s) _ Hn) as (nb & Enb & _).
  destruct (updateAgent_fields a (agents s) nb Hs Enb) as (b & Eb & T & F & Ld & _).
  destruct (updateAgent_status a (agents s) nb Hs Enb) as (c & Ec & St & Hh & Cm).
  assert (b = a') by congruence. assert (c = a') by congruence. subst b c.
  exists s', a', nb. repeat split; assumption.
Qed.

Lemma live_fan agent E :
  within 0 100 (fanSpeed agent) ->
  exists f, new_fan agent E = Fin f /\ (75 # 10) <= f /\ f <= 100.
Proof.
  destruct (fan_target_range agent E) as (y & Hy & L & U).
  unfold new_fan. rewrite Hy.
  destruct (fanSpeed agent) as [f| | |]; simpl; try tauto.
  intros [F0 F1]. eexists. split; [reflexivity|]. split; lra.
Qed.

Lemma idle_load agent nb :
  failed_of nb = [] -> new_load agent (effectiveLoad_of agent nb) = load agent.
Proof.
  intro H. unfold new_load, effectiveLoad_of, extraLoad. rewrite H.
  assert (Z0 : or_else (div (sum_load []) (of_nat (length (healthy_of nb)))) (Fin 0)
               = Fin 0).
  { unfold sum_load, of_nat. simpl.
    destruct (Qeq_bool (inject_Z (Z.of_nat (length (healthy_of nb)))) 0) eqn:E.
    - reflexivity.
    - unfold or_else, truthy.
      replace (Qeq_bool (0 / inject_Z (Z.of_nat (length (healthy_of nb)))) 0)
        with true; [reflexivity|].
      symmetry. apply Qeq_bool_iff. unfold Qdiv. ring. }
  rewrite Z0.
  destruct (load agent) as [p| | |]; simpl; try reflexivity.
  replace (Qlt_bool p (p + 0)) with false; [reflexivity|].
  symmetry. apply Qlt_bool_false. lra.
Qed.

Lemma map_fixed {A} (f : A -> A) (l : list A) :
  (forall a, In a l -> f a = a) -> map f l = l.
Proof.
  intro H. induction l as [|a l IH]; simpl; [reflexivity|].
  rewrite H by (left; reflexivity). f_equal. apply IH.
  intros b Hb. apply H. right. exact Hb.
Qed.

Lemma with_agents_same s : with_agents s (agents s) = s.
Proof. destruct s. reflexivity. Qed.

Lemma time_exec count c s s' :
  c <> Reset -> exec count c s = Some s' ->
  (time s <= time s' <= time s + 1)%Z.
Proof.
  intros N E. destruct c; simpl in E; try congruence.
  - unfold timer in E. destruct (isRunning s).
    + unfold simulationStep in E. destruct (map_opt _ _); [|discriminate].
      simpl in E. injection E as <-. simpl. lia.
    + injection E as <-. lia.
  - injection E as <-. simpl. lia.
  - injection E as <-. simpl. lia.
  - injection E as <-. simpl. lia.
Qed.

Lemma clamped_above m v :
  lt (Fin m) v = true -> 18 <= m -> m < 40 ->
  exists t, max (Fin 18) (min (Fin 40) v) = Fin t /\ m < t /\ t <= 40.
Proof.
  intros L M1 M2.
  destruct v as [q| | |]; simpl in *; try discriminate.
  - apply Qlt_bool_iff in L.
    destruct (Qle_bool 40 q) eqn:T; simpl.
    + eexists. split; [reflexivity|]. lra.
    + apply Qle_bool_false in T.
      destruct (Qle_bool 18 q) eqn:T'.
      * eexists. split; [reflexivity|]. lra.
      * apply Qle_bool_false in T'. lra.
  - eexists. split; [reflexivity|]. lra.
Qed.

Lemma new_temp_shape agent E :
  within 18 40 (temperature agent) ->
  within 0 100 (fanSpeed agent) ->
  nonneg E ->
  (exists v, new_temp agent E = Fin v) \/ new_temp agent E = PInf.
Proof.
  intros Ht Hf HE.
  pose proof (new_fan_range agent E Hf) as Hnf.
  unfold new_temp.
  destruct (new_fan agent E) as [nf| | |]; try contradiction.
  destruct (temperature agent) as [t| | |]; try contradiction.
  destruct E as [e| | |]; try contradiction; simpl.
  - left. eexists. reflexivity.
  - right. reflexivity.
Qed.

Lemma not_le_lt v m :
  (exists q, v = Fin q) \/ v = PInf ->
  le v (Fin m) = false -> lt (Fin m) v = true.
Proof.
  intros [[q ->]| ->]; simpl; [|reflexivity].
  intro H. apply Qle_bool_false in H. apply Qlt_bool_iff. exact H.
Qed.

Lemma live_step_summary count g cs s k a :
  fair g -> run count cs (init count g) = Some s ->
  lookup (agents s) k = Some a -> healthStatus a <> failed ->
  exists s' a' f,
    simulationStep s = Some s' /\
    lookup (agents s') k = Some a' /\
    healthStatus a' <> failed /\
    fanSpeed a' = Fin f /\ (75 # 10) <= f /\ f <= 100.
Proof.
  intros Hg Hr Hk Hs.
  destruct (live_step count g cs s k a Hg Hr Hk Hs)
    as (s' & a' & nb & Es & La & _ & _ & Fn & _ & St & _).
  destruct (reachable_agent_ok count g cs s k a Hg Hr Hk) as (_ & Hf & _).
  destruct (live_fan a (effectiveLoad_of a nb) Hf) as (f & Ef & L & U).
  exists s', a', f. rewrite Fn, St.
  split; [exact Es|]. split; [exact La|].
  split; [apply new_status_not_failed; exact Hs|].
  repeat split; assumption.
Qed.

End RingLive.

(** X1.  Along every run of the ring hook the population keeps the size,
    the ids, the ring neighbours and the target temperature that
    [createInitialAgents] gave it: index [k] always holds the agent of id
    [k], with neighbours [(k-1+N)%N] and [(k+1)%N] and target 22. *)
Theorem X1_ring_structure_fixed :
  forall count g cs s,
    Ring.run count cs (Ring.init count g) = Some s ->
    length (Ring.agents s) = Z.to_nat count /\
    (forall k a,
       Ring.lookup (Ring.agents s) k = Some a ->
       (0 <= k < count)%Z /\ Ring.id a = k /\
       Ring.neighbors a = [Z.rem (k - 1 + count) count; Z.rem (k + 1) count] /\
       Ring.targetTemperature a = JS.Fin 22).
Proof.
  intros count g cs s E.
  pose proof (RingMoreFacts.frame_reachable count g cs s E) as F.
  split.
  - apply (f_equal (@length _)) in F. unfold RingMore.frame in F.
    rewrite !length_map, length_seq in F. exact F.
  - intros k a L. apply (RingMoreFacts.frame_lookup count _ k a F L).
Qed.

(** A ring of five, one failure, one step: agent 4 is still between 3 and 0. *)
Lemma X1_ring_structure_fixed_witness :
  exists s,
    Ring.run 5 [Ring.Toggle; Ring.TriggerFailure 1; Ring.Timer]
             (Ring.init 5 (constant_rng (1 # 2))) = Some s /\
    length (Ring.agents s) = 5%nat.
Proof.
  assert (F : fair (constant_rng (1 # 2))) by (intro n; simpl; lra).
  destruct (RingRun.ring_inv_run 5 [Ring.Toggle; Ring.TriggerFailure 1; Ring.Timer]
              (Ring.init 5 (constant_rng (1 # 2)))
              (RingRun.ring_inv_init 5 _ F)) as (s & E & _).
  exists s. split; [exact E|].
  apply (X1_ring_structure_fixed 5 (constant_rng (1 # 2)) _ s E).
Defined.

(** X2.  A step never makes an agent fail and never repairs one: in every
    reachable state the step succeeds, and the agent at any index is
    failed after it exactly when it was failed before it.  Failure and
    repair come from the two commands only. *)
Theorem X2_step_keeps_failed_set :
  forall count g cs s k a,
    fair g ->
    Ring.run count cs (Ring.init count g) = Some s ->
    Ring.lookup (Ring.agents s) k = Some a ->
    exists s' a',
      Ring.simulationStep s = Some s' /\
      Ring.lookup (Ring.agents s') k = Some a' /\
      (Ring.healthStatus a' = Ring.failed <-> Ring.healthStatus a = Ring.failed).
Proof.
  intros count g cs s k a Hg Hr Hk.
  destruct (RingStepFacts.status_eqb_eq (Ring.healthStatus a) Ring.failed) as [_ D].
  destruct (Ring.status_eqb (Ring.healthStatus a) Ring.failed) eqn:F.
  - apply RingStepFacts.status_eqb_eq in F.
    pose proof (RingFailed.reachable_inv count g cs s Hg Hr) as I.
    destruct (RingRun.inv_simulationStep s I) as (s' & Es & _ & _).
    destruct (RingFailed.step_lookup s s' k a Es Hk) as (a' & Ea & La).
    destruct (RingStepFacts.updateAgent_failed a (Ring.agents s) F)
      as (b & Eb & _ & _ & _ & Sb & _).
    assert (b = a') by congruence. subst b.
    exists s', a'. repeat split; auto.
  - assert (Hs : Ring.healthStatus a <> Ring.failed).
    { intro E. apply D in E. congruence. }
    destruct (RingLive.live_step count g cs s k a Hg Hr Hk Hs)
      as (s' & a' & nb & Es & La & _ & _ & _ & _ & St & _).
    exists s', a'. split; [exact Es|]. split; [exact La|].
    split; intro H; [|contradiction].
    exfalso. rewrite St in H.
    exact (RingMoreFacts.new_status_not_failed a nb Hs H).
Qed.

Lemma X2_step_keeps_failed_set_witness :
  exists s' a',
    Ring.simulationStep
      (Ring.triggerFailure 1 (Ring.init 5 (constant_rng (1 # 2)))) = Some s' /\
    Ring.lookup (Ring.agents s') 0 = Some a' /\
    Ring.healthStatus a' <> Ring.failed.
Proof.
  assert (F : fair (constant_rng (1 # 2))) by (intro n; simpl; lra).
  destruct (X2_step_keeps_failed_set 5 (constant_rng (1 # 2))
              [Ring.TriggerFailure 1]
              (Ring.triggerFailure 1 (Ring.init 5 (constant_rng (1 # 2))))
              0%Z (RingInv.initial_agent (constant_rng (1 # 2)) 5 0)
              F eq_refl eq_refl) as (s' & a' & E & L & H).
  exists s', a'. split; [exact E|]. split; [exact L|].
  intro K. apply H in K. discriminate.
Defined.



(** X4.  After a step, the [communicating] flag of an agent that has not
    failed says exactly whether one of its neighbours was failed; and an
    agent none of whose neighbours was failed keeps its load unchanged. *)
Theorem X4_communicating_and_load :
  forall count g cs s k a,
    fair g ->
    Ring.run count cs (Ring.init count g) = Some s ->
    Ring.lookup (Ring.agents s) k = Some a ->
    Ring.healthStatus a <> Ring.failed ->
    exists s' a' nb,
      Ring.simulationStep s = Some s' /\
      Ring.lookup (Ring.agents s') k = Some a' /\
      map_opt (Ring.lookup (Ring.agents s)) (Ring.neighbors a) = Some nb /\
      (Ring.communicating a' = true <->
         exists n, In n nb /\ Ring.healthStatus n = Ring.failed) /\
      ((forall n, In n nb -> Ring.healthStatus n <> Ring.failed) ->
         Ring.load a' = Ring.load a).
Proof.
  intros count g cs s k a Hg Hr Hk Hs.
  destruct (RingLive.live_step count g cs s k a Hg Hr Hk Hs)
    as (s' & a' & nb & Es & La & En & _ & _ & Ld & _ & _ & Cm).
  exists s', a', nb. split; [exact Es|]. split; [exact La|]. split; [exact En|].
  split.
  - rewrite Cm. unfold Ring.failed_of. split.
    + intro H. apply Nat.ltb_lt in H.
      destruct (filter _ nb) as [|n r] eqn:Ef; [simpl in H; lia|].
      assert (Hin : In n (filter (fun n => Ring.status_eqb (Ring.healthStatus n) Ring.failed) nb))
        by (rewrite Ef; left; reflexivity).
      apply filter_In in Hin. destruct Hin as [Hin Hf].
      exists n. split; [exact Hin|]. apply RingStepFacts.status_eqb_eq. exact Hf.
    + intros (n & Hin & Hf). apply Nat.ltb_lt.
      assert (Hin' : In n (filter (fun n => Ring.status_eqb (Ring.healthStatus n) Ring.failed) nb)).
      { apply filter_In. split; [exact Hin|].
        apply RingStepFacts.status_eqb_eq. exact Hf. }
      destruct (filter _ nb); [contradiction|simpl; lia].
  - intro H. rewrite Ld. apply RingLive.idle_load.
    unfold Ring.failed_of.
    destruct (filter _ nb) as [|n r] eqn:Ef; [reflexivity|].
    assert (Hin : In n (filter (fun n => Ring.status_eqb (Ring.healthStatus n) Ring.failed) nb))
      by (rewrite Ef; left; reflexivity).
    apply filter_In in Hin. destruct Hin as [Hin Hf].
    apply RingStepFacts.status_eqb_eq in Hf. exfalso. exact (H n Hin Hf).
Qed.

Lemma X4_communicating_and_load_witness :
  exists s' a',
    Ring.simulationStep (Ring.init 5 (constant_rng (1 # 2))) = Some s' /\
    Ring.lookup (Ring.agents s') 2 = Some a' /\
    Ring.load a' = JS.Fin ((1 # 2) * 50 + 25).
Proof.
  assert (F : fair (constant_rng (1 # 2))) by (intro n; simpl; lra).
  destruct (X4_communicating_and_load 5 (constant_rng (1 # 2)) []
              (Ring.init 5 (constant_rng (1 # 2)))
              2%Z (RingInv.initial_agent (constant_rng (1 # 2)) 5 2)
              F eq_refl eq_refl ltac:(discriminate))
    as (s' & a' & nb & E & L & En & _ & H).
  exists s', a'. split; [exact E|]. split; [exact L|].
  rewrite H; [reflexivity|].
  vm_compute in En. injection En as <-.
  intros n [<-|[<-|[]]]; discriminate.
Defined.

(** X5.  A command addressed to an id outside [0, agentCount) changes
    nothing: in every reachable state [triggerFailure] and [repairAgent]
    with such an id return the state as it is (no error is raised). *)
Theorem X5_unknown_id_is_ignored :
  forall count g cs s agentId,
    Ring.run count cs (Ring.init count g) = Some s ->
    (agentId < 0 \/ count <= agentId)%Z ->
    Ring.triggerFailure agentId s = s /\ Ring.repairAgent agentId s = s.
Proof.
  intros count g cs s agentId E H.
  pose proof (RingMoreFacts.frame_reachable count g cs s E) as F.
  assert (N : forall a, In a (Ring.agents s) -> (Ring.id a =? agentId)%Z = false).
  { intros a Ha. apply In_nth_error in Ha. destruct Ha as (n & Hn).
    assert (L : Ring.lookup (Ring.agents s) (Z.of_nat n) = Some a).
    { unfold Ring.lookup. destruct (Z.ltb_spec (Z.of_nat n) 0); [lia|].
      rewrite Nat2Z.id. exact Hn. }
    destruct (RingMoreFacts.frame_lookup count _ _ a F L) as (R & I & _).
    apply Z.eqb_neq. lia. }
  unfold Ring.triggerFailure, Ring.repairAgent.
  split; (rewrite RingLive.map_fixed; [apply RingLive.with_agents_same|]);
    intros a Ha; rewrite (N a Ha); reflexivity.
Qed.

Lemma X5_unknown_id_is_ignored_witness :
  Ring.triggerFailure 7 (Ring.init 5 (constant_rng (1 # 2)))
  = Ring.init 5 (constant_rng (1 # 2)).
Proof.
  apply (X5_unknown_id_is_ignored 5 (constant_rng (1 # 2)) [] _ 7%Z eq_refl).
  right. lia.
Defined.

(** X6.  [repairAgent(k)] makes the agent of id [k] healthy and clears its
    healing flag whatever its status was, and keeps its temperature, load
    and fan speed; and the step that follows no longer treats it as
    failed: it is not failed afterwards and its fan turns at 7.5 or more. *)
Theorem X6_repair_then_step :
  forall count g cs s k a,
    fair g ->
    Ring.run count cs (Ring.init count g) = Some s ->
    Ring.lookup (Ring.agents s) k = Some a ->
    exists a1 s' a' f,
      Ring.lookup (Ring.agents (Ring.repairAgent k s)) k = Some a1 /\
      Ring.healthStatus a1 = Ring.healthy /\ Ring.isHealing a1 = false /\
      Ring.temperature a1 = Ring.temperature a /\
      Ring.load a1 = Ring.load a /\ Ring.fanSpeed a1 = Ring.fanSpeed a /\
      Ring.simulationStep (Ring.repairAgent k s) = Some s' /\
      Ring.lookup (Ring.agents s') k = Some a' /\
      Ring.healthStatus a' <> Ring.failed /\
      Ring.fanSpeed a' = JS.Fin f /\ (75 # 10) <= f /\ f <= 100.
Proof.
  intros count g cs s k a Hg Hr Hk.
  pose proof (RingMoreFacts.frame_reachable count g cs s Hr) as F.
  destruct (RingMoreFacts.frame_lookup count _ k a F Hk) as (_ & Ia & _).
  assert (Hr1 : Ring.run count (cs ++ [Ring.RepairAgent k]) (Ring.init count g)
                = Some (Ring.repairAgent k s)).
  { rewrite RingLive.run_app, Hr. reflexivity. }
  assert (L1 : Ring.lookup (Ring.agents (Ring.repairAgent k s)) k
               = Some (Ring.mark_repaired a)).
  { unfold Ring.repairAgent. simpl. rewrite RingFailure.lookup_map, Hk. simpl.
    rewrite Ia, Z.eqb_refl. reflexivity. }
  destruct (RingLive.live_step_summary count g (cs ++ [Ring.RepairAgent k])
              (Ring.repairAgent k s) k (Ring.mark_repaired a) Hg Hr1 L1)
    as (s' & a' & f & Es & La & St & Fn & Lf & Uf); [discriminate|].
  exists (Ring.mark_repaired a), s', a', f.
  repeat split; assumption.
Qed.

Lemma X6_repair_then_step_witness :
  let s := Ring.triggerFailure 1 (Ring.init 5 (constant_rng (1 # 2))) in
  exists s' a',
    Ring.simulationStep (Ring.repairAgent 1 s) = Some s' /\
    Ring.lookup (Ring.agents s') 1 = Some a' /\
    Ring.healthStatus a' <> Ring.failed.
Proof.
  assert (F : fair (constant_rng (1 # 2))) by (intro n; simpl; lra).
  destruct (X6_repair_then_step 5 (constant_rng (1 # 2))
              [Ring.TriggerFailure 1]
              (Ring.triggerFailure 1 (Ring.init 5 (constant_rng (1 # 2))))
              1%Z
              (Ring.mark_failed (RingInv.initial_agent (constant_rng (1 # 2)) 5 1))
              F eq_refl eq_refl)
    as (a1 & s' & a' & f & _ & _ & _ & _ & _ & _ & E & L & H & _).
  exists s', a'. repeat split; assumption.
Defined.

(** X7.  [resetSimulation] stops the hook, sets the time to 0 and replaces
    the population by [agentCount] fresh agents: all healthy, not healing,
    not communicating, fan speed 50, temperature in [23, 27] and load in
    [25, 75]. *)
Theorem X7_reset_restores_initial_population :
  forall count (s : Ring.State),
    fair (Ring.rng s) ->
    let s' := Ring.resetSimulation count s in
    Ring.time s' = 0%Z /\ Ring.isRunning s' = false /\
    length (Ring.agents s') = Z.to_nat count /\
    Forall (fun a =>
              Ring.healthStatus a = Ring.healthy /\
              Ring.isHealing a = false /\ Ring.communicating a = false /\
              Ring.fanSpeed a = JS.Fin 50 /\
              JS.within 23 27 (Ring.temperature a) /\
              JS.within 25 75 (Ring.load a))
           (Ring.agents s').
Proof.
  intros count s Hg s'. subst s'. unfold Ring.resetSimulation, Ring.init.
  rewrite RingFacts.createInitialAgents_closed. simpl.
  split; [reflexivity|]. split; [reflexivity|].
  split; [rewrite length_map, length_seq; reflexivity|].
  rewrite Forall_forall. intros a Ha.
  apply in_map_iff in Ha. destruct Ha as (k & <- & _).
  unfold RingInv.initial_agent, Ring.INITIAL_TEMP.
  pose proof (Hg (cursor (Ring.rng s) + 2 * k)%nat) as [A B].
  pose proof (Hg (cursor (Ring.rng s) + 2 * k + 1)%nat) as [C D].
  simpl in *. repeat split; lra.
Qed.

Lemma X7_reset_restores_initial_population_witness :
  Ring.time (Ring.resetSimulation 5
               (Ring.triggerFailure 1 (Ring.init 5 (constant_rng (1 # 2))))) = 0%Z.
Proof.
  apply (X7_reset_restores_initial_population 5
           (Ring.triggerFailure 1 (Ring.init 5 (constant_rng (1 # 2))))).
  intro n. simpl. lra.
Defined.

(** X8.  The clock of the ring hook never wraps and never goes back: a
    sequence of commands without reset ends at a time that is at least the
    time it started from and exceeds it by at most the number of commands;
    a step of the running hook in a reachable state adds exactly one. *)
Theorem X8_ring_clock_monotone :
  (forall count cs s0 s,
     ~ In Ring.Reset cs ->
     Ring.run count cs s0 = Some s ->
     (Ring.time s0 <= Ring.time s <= Ring.time s0 + Z.of_nat (length cs))%Z) /\
  (forall count g cs s,
     fair g ->
     Ring.run count cs (Ring.init count g) = Some s ->
     Ring.isRunning s = true ->
     exists s', Ring.timer s = Some s' /\ Ring.time s' = (Ring.time s + 1)%Z).
Proof.
  split.
  - intros count cs. induction cs as [|c cs IH]; intros s0 s N E; simpl in E.
    + injection E as <-. simpl. lia.
    + destruct (Ring.exec count c s0) as [s1|] eqn:E1; [|discriminate].
      simpl in E.
      assert (Nc : c <> Ring.Reset) by (intro H; apply N; left; auto).
      pose proof (RingLive.time_exec count c s0 s1 Nc E1) as T1.
      assert (N' : ~ In Ring.Reset cs) by (intro H; apply N; right; exact H).
      pose proof (IH s1 s N' E) as T2.
      simpl length. lia.
  - intros count g cs s Hg Hr Hrun.
    pose proof (RingFailed.reachable_inv count g cs s Hg Hr) as I.
    destruct (RingRun.inv_simulationStep s I) as (s' & Es & _ & T).
    exists s'. unfold Ring.timer. rewrite Hrun. split; assumption.
Qed.

Lemma X8_ring_clock_monotone_witness :
  exists s',
    Ring.timer (Ring.toggleSimulation (Ring.init 5 (constant_rng (1 # 2)))) = Some s' /\
    Ring.time s' = 1%Z.
Proof.
  assert (F : fair (constant_rng (1 # 2))) by (intro n; simpl; lra).
  destruct (proj2 X8_ring_clock_monotone 5%Z (constant_rng (1 # 2))
              [Ring.Toggle]
              (Ring.toggleSimulation (Ring.init 5 (constant_rng (1 # 2))))
              F eq_refl eq_refl) as (s' & E & T).
  exists s'. split; [exact E|exact T].
Defined.

(** X9.  An agent that is in warning status after a step is hotter than
    25 degrees (its target plus 3): the status is set above 35 and is
    cleared as soon as the new temperature is at most 25.  So the card
    never shows a warning badge with the colour of a cool temperature. *)
Theorem X9_warning_means_hot :
  forall count g cs s k a,
    fair g ->
    Ring.run count cs (Ring.init count g) = Some s ->
    Ring.lookup (Ring.agents s) k = Some a ->
    Ring.healthStatus a <> Ring.failed ->
    exists s' a',
      Ring.simulationStep s = Some s' /\
      Ring.lookup (Ring.agents s') k = Some a' /\
      (Ring.healthStatus a' = Ring.warning ->
         (exists t, Ring.temperature a' = JS.Fin t /\ 25 < t /\ t <= 40) /\
         RingMore.getTempColor a' <> RingMore.text_primary).
Proof.
  intros count g cs s k a Hg Hr Hk Hs.
  destruct (RingLive.live_step count g cs s k a Hg Hr Hk Hs)
    as (s' & a' & nb & Es & La & En & T & _ & _ & St & _).
  exists s', a'. split; [exact Es|]. split; [exact La|].
  intro W.
  destruct (RingLive.reachable_agent_ok count g cs s k a Hg Hr Hk) as (Ht & Hf & Hl).
  pose proof (RingMoreFacts.frame_reachable count g cs s Hr) as F.
  destruct (RingMoreFacts.frame_lookup count _ k a F Hk) as (_ & _ & _ & Tg).
  assert (HE : JS.nonneg (RingStep.effectiveLoad_of a nb)).
  { apply RingStepFacts.nonneg_effectiveLoad; [exact Hl|].
    destruct (RingFailed.reachable_inv count g cs s Hg Hr) as (Lk & O & _).
    assert (Hn : Forall (fun n => (0 <= n < Z.of_nat (length (Ring.agents s)))%Z)
                        (Ring.neighbors a)).
    { unfold RingInv.linked in Lk. rewrite Forall_forall in Lk. apply Lk.
      unfold Ring.lookup in Hk. destruct (k <? 0)%Z; [discriminate|].
      eapply nth_error_In; eauto. }
    destruct (RingStepFacts.linked_neighbors _ _ Hn) as (nb' & Enb' & Fnb).
    assert (nb' = nb) by congruence. subst nb'.
    eapply Forall_impl; [|exact Fnb].
    intros n Hin. rewrite Forall_forall in O. apply O in Hin. apply Hin. }
  pose proof (RingLive.new_temp_shape a _ Ht Hf HE) as Sh.
  assert (Hot : JS.lt (JS.Fin 25) (RingStep.new_temp a (RingStep.effectiveLoad_of a nb))
                = true).
  { rewrite St in W. unfold RingMore.new_status in W.
    destruct (JS.gt (RingStep.new_temp a (RingStep.effectiveLoad_of a nb)) (JS.Fin 35))
      eqn:G.
    - unfold JS.gt in G.
      destruct Sh as [[v Ev]|Ev]; rewrite Ev in *; simpl in *; [|reflexivity].
      apply Qlt_bool_iff in G. apply Qlt_bool_iff. lra.
    - rewrite Tg in W. simpl JS.add in W.
      destruct (JS.le (RingStep.new_temp a (RingStep.effectiveLoad_of a nb))
                      (JS.Fin (Ring.TARGET_TEMP + 3))) eqn:Le.
      + simpl in W.
        destruct (Ring.status_eqb (fst (RingMore.healing_step a nb)) Ring.warning) eqn:Q.
        * destruct (snd (RingMore.healing_step a nb)); discriminate.
        * apply RingStepFacts.status_eqb_eq in W. congruence.
      + apply RingLive.not_le_lt in Le; [|exact Sh].
        destruct Sh as [[v Ev]|Ev]; rewrite Ev in *; simpl in *; [|reflexivity].
        apply Qlt_bool_iff in Le. apply Qlt_bool_iff.
        unfold Ring.TARGET_TEMP in Le. lra. }
  destruct (RingLive.clamped_above 25 _ Hot ltac:(lra) ltac:(lra)) as (t & Et & L & U).
  rewrite <- T in Et.
  split; [exists t; repeat split; assumption|].
  unfold RingMore.getTempColor. rewrite Et. simpl.
  destruct (Qlt_bool 30 t); [discriminate|].
  replace (Qlt_bool 25 t) with true; [discriminate|].
  symmetry. apply Qlt_bool_iff. exact L.
Qed.

(** Agent 2 of a running ring of five between the failed agents 1 and 3:
    the step puts it in warning status, at 40 degrees. *)
Lemma X9_warning_means_hot_witness :
  let s := Ring.triggerFailure 3
             (Ring.triggerFailure 1
                (Ring.toggleSimulation (Ring.init 5 (constant_rng (1 # 2))))) in
  exists s' a' t,
    Ring.simulationStep s = Some s' /\
    Ring.lookup (Ring.agents s') 2 = Some a' /\
    Ring.healthStatus a' = Ring.warning /\
    Ring.temperature a' = JS.Fin t /\ 25 < t /\ t <= 40 /\
    RingMore.getTempColor a' <> RingMore.text_primary.
Proof.
  intro s.
  assert (F : fair (constant_rng (1 # 2))) by (intro n; simpl; lra).
  destruct (X9_warning_means_hot 5 (constant_rng (1 # 2))
              [Ring.Toggle; Ring.TriggerFailure 1; Ring.TriggerFailure 3]
              s 2%Z (RingInv.initial_agent (constant_rng (1 # 2)) 5 2)
              F eq_refl eq_refl ltac:(discriminate))
    as (s' & a' & E & L & W).
  assert (Hw : Ring.healthStatus a' = Ring.warning).
  { pose proof E as E1. pose proof L as L1.
    vm_compute in E1. injection E1 as <-.
    vm_compute in L1. injection L1 as <-. reflexivity. }
  destruct (W Hw) as ((t & Et & Lt & Ut) & C).
  exists s', a', t.
  split; [exact E|]. split; [exact L|]. split; [exact Hw|].
  split; [exact Et|]. split; [exact Lt|]. split; [exact Ut|exact C].
Defined.

(* ------------------------------------------------------------------ *)
(** ** The ring variant: the chart history *)

Module RingHistory.
Import JS Ring RingInv RingStep RingMore RingFacts RingStepFacts RingRun.

Lemma floor_half (z : Z) : Qfloor (inject_Z z + (1 # 2)) = z.
Proof.
  apply Z.le_antisymm.
  - apply Z.lt_succ_r. rewrite Zlt_Qlt.
    eapply Qle_lt_trans; [apply Qfloor_le|].
    unfold Z.succ. rewrite inject_Z_plus. change (inject_Z 1) with 1. lra.
  - rewrite <- (Qfloor_Z z) at 1. apply Qfloor_resp_le. lra.
Qed.

(** The rounding to the nearest multiple of 2^-40 is a rounding. *)
Lemma nearest_40_rounding : rounding (1 # 2199023255552) nearest_40.
Proof.
  unfold rounding, nearest_40, two_40. split; [lra|]. split; [|split].
  - intros x y H.
    assert (F : (Qfloor (x * 1099511627776 + (1 # 2))
                 <= Qfloor (y * 1099511627776 + (1 # 2)))%Z)
      by (apply Qfloor_resp_le; lra).
    rewrite Zle_Qle in F.
    set (ix := inject_Z (Qfloor (x * 1099511627776 + (1 # 2)))) in *.
    set (iy := inject_Z (Qfloor (y * 1099511627776 + (1 # 2)))) in *.
    clearbody ix iy.
    assert (Dx : ix / 1099511627776 == ix * (1 # 1099511627776)) by field.
    assert (Dy : iy / 1099511627776 == iy * (1 # 1099511627776)) by field.
    rewrite Dx, Dy. lra.
  - intros n _.
    assert (E : inject_Z n * 1099511627776 + (1 # 2)
                == inject_Z (n * 1099511627776) + (1 # 2)).
    { rewrite inject_Z_mult. reflexivity. }
    rewrite E, floor_half, inject_Z_mult.
    change (inject_Z 1099511627776) with 1099511627776. field.
  - intros x L U.
    pose proof (Qfloor_le (x * 1099511627776 + (1 # 2))) as Lo.
    pose proof (Qlt_floor (x * 1099511627776 + (1 # 2))) as Up.
    rewrite inject_Z_plus in Up. change (inject_Z 1) with 1 in Up.
    set (iz := inject_Z (Qfloor (x * 1099511627776 + (1 # 2)))) in *.
    clearbody iz.
    assert (D : iz / 1099511627776 == iz * (1 # 1099511627776)) by field.
    rewrite D. split; lra.
Qed.

Lemma slice_last_length {A} n (l : list A) : (length (slice_last n l) <= n)%nat.
Proof.
  unfold slice_last. rewrite length_skipn. lia.
Qed.

Lemma skipn_Forall {A} (P : A -> Prop) n (l : list A) :
  Forall P l -> Forall P (skipn n l).
Proof.
  revert l. induction n as [|n IH]; intros l H; simpl; [exact H|].
  destruct H; [constructor|]. apply IH. assumption.
Qed.

Lemma assign_ok key v e :
  within 18 40 v ->
  Forall (fun kv => within 18 40 (snd kv)) e ->
  Forall (fun kv => within 18 40 (snd kv)) (assign key v e).
Proof.
  intros Hv. induction 1 as [|[k w] e Hk He IH]; simpl.
  - constructor; [exact Hv|constructor].
  - destruct (String.eqb k key); constructor; assumption.
Qed.

Section Rounding.

Variable eps : Q.
Variable fl : Q -> Q.
Hypothesis R : rounding eps fl.

(** The rounded product and the integer that [Math.round] makes of it. *)
Lemma product_range t :
  18 <= t -> t <= 40 ->
  180 <= fl (t * 10) /\ fl (t * 10) <= 400 /\
  (180 <= Qfloor (fl (t * 10) + (1 # 2)) <= 400)%Z.
Proof.
  intros L U. destruct R as (_ & Mono & Int & _).
  pose proof (Mono 180 (t * 10) ltac:(lra)) as P1.
  pose proof (Mono (t * 10) 400 ltac:(lra)) as P2.
  pose proof (Int 180%Z ltac:(lia)) as I1.
  pose proof (Int 400%Z ltac:(lia)) as I2.
  change (inject_Z 180) with 180 in I1. change (inject_Z 400) with 400 in I2.
  rewrite I1 in P1. rewrite I2 in P2.
  split; [exact P1|]. split; [exact P2|]. split.
  - change 180%Z with (Qfloor 180). apply Qfloor_resp_le. lra.
  - change 400%Z with (Qfloor (400 + (1 # 2))). apply Qfloor_resp_le. lra.
Qed.

Lemma chart_value_shape agent t :
  temperature agent = Fin t ->
  chart_value fl agent
  = Fin (fl (inject_Z (Qfloor (fl (t * 10) + (1 # 2))) / 10)).
Proof.
  intro E. unfold chart_value. rewrite E. cbn [mul rounded Math_round div].
  change (Qeq_bool 10 0) with false. reflexivity.
Qed.

Lemma chart_value_close agent t :
  temperature agent = Fin t -> 18 <= t -> t <= 40 ->
  exists q, chart_value fl agent = Fin q /\
            t - (1 # 20) - 80 * eps < q /\ q <= t + (1 # 20) + 80 * eps.
Proof.
  intros E L U. rewrite (chart_value_shape agent t E).
  eexists. split; [reflexivity|].
  destruct (product_range t L U) as (P1 & P2 & Z1 & Z2).
  destruct R as (E0 & Mono & Int & Err).
  destruct (Err (t * 10) ltac:(lra) ltac:(lra)) as [A1 A2].
  pose proof (Qfloor_le (fl (t * 10) + (1 # 2))) as Lo.
  pose proof (Qlt_floor (fl (t * 10) + (1 # 2))) as Up.
  rewrite inject_Z_plus in Up. change (inject_Z 1) with 1 in Up.
  rewrite Zle_Qle in Z1, Z2.
  change (inject_Z 180) with 180 in Z1. change (inject_Z 400) with 400 in Z2.
  set (p := fl (t * 10)) in *.
  set (iz := inject_Z (Qfloor (p + (1 # 2)))) in *. clearbody iz. clearbody p.
  assert (D : iz / 10 == iz * (1 # 10)) by field.
  destruct (Err (iz / 10)) as [B1 B2]; [rewrite D; lra|rewrite D; lra|].
  set (q := fl (iz / 10)) in *. clearbody q.
  rewrite D in B1, B2.
  assert (M1 : eps * (t * 10) <= eps * 400) by nra.
  assert (M2 : eps * (iz * (1 # 10)) <= eps * 40) by nra.
  split; lra.
Qed.

Lemma chart_value_range agent :
  within 18 40 (temperature agent) -> within 18 40 (chart_value fl agent).
Proof.
  destruct (temperature agent) as [t| | |] eqn:E; simpl; try tauto.
  intros [L U]. rewrite (chart_value_shape agent t E). cbn [within].
  destruct (product_range t L U) as (_ & _ & Z1 & Z2).
  destruct R as (_ & Mono & Int & _).
  rewrite Zle_Qle in Z1, Z2.
  change (inject_Z 180) with 180 in Z1. change (inject_Z 400) with 400 in Z2.
  set (iz := inject_Z (Qfloor (fl (t * 10) + (1 # 2)))) in *. clearbody iz.
  assert (D : iz / 10 == iz * (1 # 10)) by field.
  pose proof (Mono 18 (iz / 10) ltac:(rewrite D; lra)) as P1.
  pose proof (Mono (iz / 10) 40 ltac:(rewrite D; lra)) as P2.
  pose proof (Int 18%Z ltac:(lia)) as I1.
  pose proof (Int 40%Z ltac:(lia)) as I2.
  change (inject_Z 18) with 18 in I1. change (inject_Z 40) with 40 in I2.
  rewrite I1 in P1. rewrite I2 in P2. split; assumption.
Qed.

Lemma newEntry_ok time l : Forall agent_ok l -> values_ok (newEntry fl time l).
Proof.
  intro O. unfold values_ok, newEntry. simpl.
  assert (G : forall e, Forall (fun kv => within 18 40 (snd kv)) e ->
              Forall (fun kv => within 18 40 (snd kv))
                (fold_left
                   (fun e agent => assign (chart_key agent) (chart_value fl agent) e)
                   l e)).
  { induction O as [|a l Ha _ IH]; intros e He; simpl; [exact He|].
    apply IH, assign_ok; [|exact He].
    apply chart_value_range. apply Ha. }
  apply G. constructor.
Qed.

Lemma hinv_step h :
  hinv h -> exists h', simulationStep_h fl h = Some h' /\ hinv h'.
Proof.
  intros (I & L & F). unfold simulationStep_h.
  destruct (inv_simulationStep (core h) I) as (s' & E & I' & _).
  rewrite E. simpl. eexists. split; [reflexivity|].
  split; [exact I'|]. simpl. split; [apply slice_last_length|].
  unfold slice_last. apply skipn_Forall.
  apply Forall_app. split; [exact F|].
  constructor; [|constructor]. apply newEntry_ok. apply I'.
Qed.

Lemma hinv_exec count c h :
  hinv h -> exists h', exec_h fl count c h = Some h' /\ hinv h'.
Proof.
  intros H. destruct c; simpl.
  - unfold timer_h. destruct (isRunning (core h)); [apply hinv_step, H|eauto].
  - eexists. split; [reflexivity|]. exact H.
  - eexists. split; [reflexivity|]. destruct H as (I & _).
    split; [apply ring_inv_init, I|]. simpl. split; [lia|constructor].
  - eexists. split; [reflexivity|]. destruct H as (I & L & F).
    split; [apply inv_triggerFailure, I|]. split; assumption.
  - eexists. split; [reflexivity|]. destruct H as (I & L & F).
    split; [apply inv_repairAgent, I|]. split; assumption.
Qed.

Lemma hinv_run count cs :
  forall h, hinv h -> exists h', run_h fl count cs h = Some h' /\ hinv h'.
Proof.
  induction cs as [|c cs IH]; intros h H; simpl; [eauto|].
  destruct (hinv_exec count c h H) as (h1 & E & H1).
  rewrite E. simpl. apply IH, H1.
Qed.

End Rounding.

(** The history does not act on the simulation. *)
Lemma core_exec fl count c h :
  option_map core (exec_h fl count c h) = exec count c (core h).
Proof.
  destruct c; simpl; try reflexivity.
  unfold timer_h, timer. destruct (isRunning (core h)); [|reflexivity].
  unfold simulationStep_h. destruct (simulationStep (core h)); reflexivity.
Qed.

Lemma core_run fl count cs :
  forall h, option_map core (run_h fl count cs h) = run count cs (core h).
Proof.
  induction cs as [|c cs IH]; intro h; simpl; [reflexivity|].
  pose proof (core_exec fl count c h) as E.
  destruct (exec_h fl count c h) as [h1|]; simpl in *.
  - rewrite <- E. simpl. apply IH.
  - rewrite <- E. reflexivity.
Qed.

End RingHistory.

(** X10.  The chart history of the ring hook.  The product and the
    quotient of [Math.round(agent.temperature * 10) / 10] are rounded to
    numbers of the machine; of that rounding the theorem uses that it is
    monotone, keeps the integers up to 1000 and has a relative error of at
    most [eps] between 1 and 1000 (2^-53 for doubles).  Along every run
    the history holds at most 50 points, every recorded value lies in the
    domain [18, 40] of the chart, and keeping the history changes nothing
    in the simulation itself; the value recorded for a temperature [t]
    between 18 and 40 differs from [t] by at most 0.05 + 80 [eps]. *)
Theorem X10_chart_history :
  (forall eps fl count g cs,
     RingMore.rounding eps fl ->
     fair g ->
     exists h,
       RingMore.run_h fl count cs (RingMore.init_h count g) = Some h /\
       Ring.run count cs (Ring.init count g) = Some (RingMore.core h) /\
       (length (RingMore.temperatureHistory h) <= 50)%nat /\
       (forall e key v,
          In e (RingMore.temperatureHistory h) ->
          In (key, v) (RingMore.readings e) -> JS.within 18 40 v)) /\
  (forall eps fl agent t,
     RingMore.rounding eps fl ->
     Ring.temperature agent = JS.Fin t -> 18 <= t -> t <= 40 ->
     exists q, RingMore.chart_value fl agent = JS.Fin q /\
               t - (1 # 20) - 80 * eps < q /\ q <= t + (1 # 20) + 80 * eps).
Proof.
  split.
  - intros eps fl count g cs R Hg.
    destruct (RingHistory.hinv_run eps fl R count cs (RingMore.init_h count g))
      as (h & E & I & L & F).
    { split; [apply RingRun.ring_inv_init, Hg|]. simpl. split; [lia|constructor]. }
    exists h. split; [exact E|].
    split.
    { pose proof (RingHistory.core_run fl count cs (RingMore.init_h count g)) as C.
      rewrite E in C. simpl in C. symmetry. exact C. }
    split; [exact L|].
    intros e key v He Hv. rewrite Forall_forall in F.
    pose proof (F e He) as Fe. unfold RingMore.values_ok in Fe.
    rewrite Forall_forall in Fe. apply (Fe (key, v) Hv).
  - intros eps fl agent t R. apply (RingHistory.chart_value_close eps fl R).
Qed.

(** The history after two steps of a ring of five, and the value recorded
    for its agent 0 at 25 degrees, with the rounding to the nearest
    multiple of 2^-40. *)
Lemma X10_chart_history_witness :
  RingMore.rounding (1 # 2199023255552) RingMore.nearest_40 /\
  (exists h,
     RingMore.run_h RingMore.nearest_40 5 [Ring.Toggle; Ring.Timer; Ring.Timer]
                    (RingMore.init_h 5 (constant_rng (1 # 2))) = Some h /\
     (length (RingMore.temperatureHistory h) <= 50)%nat) /\
  (exists q,
     RingMore.chart_value RingMore.nearest_40
       (RingInv.initial_agent (constant_rng (1 # 2)) 5 0) = JS.Fin q /\
     25 - (1 # 20) - 80 * (1 # 2199023255552) < q /\
     q <= 25 + (1 # 20) + 80 * (1 # 2199023255552)).
Proof.
  assert (F : fair (constant_rng (1 # 2))) by (intro n; simpl; lra).
  pose proof RingHistory.nearest_40_rounding as R.
  split; [exact R|]. split.
  - destruct (proj1 X10_chart_history (1 # 2199023255552) RingMore.nearest_40
                5%Z (constant_rng (1 # 2))
                [Ring.Toggle; Ring.Timer; Ring.Timer] R F) as (h & E & _ & L & _).
    exists h. split; assumption.
  - destruct (proj2 X10_chart_history (1 # 2199023255552) RingMore.nearest_40
                (RingInv.initial_agent (constant_rng (1 # 2)) 5 0)
                (25 + (1 # 2) * 4 - 2) R eq_refl ltac:(lra) ltac:(lra))
      as (q & Eq & L1 & L2).
    exists q. split; [exact Eq|]. split; lra.
Defined.

(** X11.  The button of an agent card toggles the failure of its agent:
    the card offers Repair exactly when the agent is failed, and in every
    reachable state a click leaves the agent of the card failed exactly
    when it was not failed before, and leaves every other agent as it was. *)
Theorem X11_card_button_toggles_failure :
  forall count g cs s k a,
    Ring.run count cs (Ring.init count g) = Some s ->
    Ring.lookup (Ring.agents s) k = Some a ->
    exists a1,
      Ring.lookup (Ring.agents (RingMore.click_card a s)) k = Some a1 /\
      (Ring.healthStatus a1 = Ring.failed <-> Ring.healthStatus a <> Ring.failed) /\
      (forall j, j <> k ->
         Ring.lookup (Ring.agents (RingMore.click_card a s)) j
         = Ring.lookup (Ring.agents s) j).
Proof.
  intros count g cs s k a Hr Hk.
  pose proof (RingMoreFacts.frame_reachable count g cs s Hr) as F.
  destruct (RingMoreFacts.frame_lookup count _ k a F Hk) as (_ & Ia & _).
  assert (Other : forall (f : Ring.Agent -> Ring.Agent) j, j <> k ->
            Ring.lookup
              (map (fun b => if (Ring.id b =? k)%Z then f b else b) (Ring.agents s)) j
            = Ring.lookup (Ring.agents s) j).
  { intros f j Hj. rewrite RingFailure.lookup_map.
    destruct (Ring.lookup (Ring.agents s) j) as [b|] eqn:Lj; [|reflexivity].
    destruct (RingMoreFacts.frame_lookup count _ j b F Lj) as (_ & Ib & _).
    simpl. destruct (Z.eqb_spec (Ring.id b) k); [lia|reflexivity]. }
  unfold RingMore.click_card, RingMore.card_button.
  destruct (Ring.status_eqb (Ring.healthStatus a) Ring.failed) eqn:Fa.
  - apply RingStepFacts.status_eqb_eq in Fa.
    exists (Ring.mark_repaired a). rewrite Ia. split; [|split].
    + unfold Ring.repairAgent. simpl. rewrite RingFailure.lookup_map, Hk. simpl.
      rewrite Ia, Z.eqb_refl. reflexivity.
    + simpl. split; [discriminate|]. intro H. contradiction.
    + intros j Hj. unfold Ring.repairAgent. simpl. apply Other. exact Hj.
  - assert (Hs : Ring.healthStatus a <> Ring.failed).
    { intro E. apply RingStepFacts.status_eqb_eq in E. congruence. }
    exists (Ring.mark_failed a). rewrite Ia. split; [|split].
    + unfold Ring.triggerFailure. simpl. rewrite RingFailure.lookup_map, Hk. simpl.
      rewrite Ia, Z.eqb_refl. reflexivity.
    + simpl. split; [intros _; exact Hs|reflexivity].
    + intros j Hj. unfold Ring.triggerFailure. simpl. apply Other. exact Hj.
Qed.

Lemma X11_card_button_toggles_failure_witness :
  exists a1,
    Ring.lookup
      (Ring.agents
         (RingMore.click_card (RingInv.initial_agent (constant_rng (1 # 2)) 5 3)
            (Ring.init 5 (constant_rng (1 # 2))))) 3 = Some a1 /\
    Ring.healthStatus a1 = Ring.failed.
Proof.
  destruct (X11_card_button_toggles_failure 5 (constant_rng (1 # 2)) []
              (Ring.init 5 (constant_rng (1 # 2))) 3%Z
              (RingInv.initial_agent (constant_rng (1 # 2)) 5 3) eq_refl eq_refl)
    as (a1 & L & H & _).
  exists a1. split; [exact L|]. apply H. discriminate.
Defined.

(* ------------------------------------------------------------------ *)
(** ** The tick-counter variant: the clock, the snapshot and the views *)

Module TickMoreFacts.
Import Tick TickInv TickData TickView.

Lemma faultStep_range sc : (0 < faultStep sc < maxSteps sc)%Z.
Proof. destruct sc; split; reflexivity. Qed.

Lemma calculate_description sc t mf g :
  phaseDescription (fst (calculateSimulationData sc t mf g)) = snd (phase_of sc t mf).
Proof.
  unfold calculateSimulationData, bind, ret.
  destruct (generate sc (Z.to_nat (numAgents sc)) t mf 0 g) as [l g'].
  reflexivity.
Qed.

Lemma calculate_efficiency sc t mf g :
  efficiency (fst (calculateSimulationData sc t mf g))
  = (if is_vision sc
     then (if (t >? faultStep sc + 100)%Z then 1 else 85 # 100)
     else (if (t <? faultStep sc)%Z then 42 # 100
           else if (t >? faultStep sc + 100)%Z then 38 # 100
           else 30 # 100)).
Proof.
  unfold calculateSimulationData, bind, ret.
  destruct (generate sc (Z.to_nat (numAgents sc)) t mf 0 g) as [l g'].
  reflexivity.
Qed.

Lemma calculate_recoveryTime sc t mf g :
  recoveryTime (fst (calculateSimulationData sc t mf g))
  = (if (t >? faultStep sc)%Z && (t <? faultStep sc + 50)%Z
     then (t - faultStep sc)%Z else 0%Z).
Proof.
  unfold calculateSimulationData, bind, ret.
  destruct (generate sc (Z.to_nat (numAgents sc)) t mf 0 g) as [l g'].
  reflexivity.
Qed.

Lemma synced_of sc t mf g p :
  let r := calculateSimulationData sc t mf g in
  synced sc {| step := t; isPlaying := p; faultInjected := mf;
               data := fst r; rng := snd r |}.
Proof.
  split; simpl; [apply TickFacts.calculate_phase|apply calculate_description].
Qed.

Lemma clocked_init sc g : clocked sc (init sc g).
Proof.
  unfold init.
  pose proof (synced_of sc 0 false g false) as S.
  destruct (calculateSimulationData sc 0 false g) as [d g'].
  split; [|exact S]. simpl. destruct sc; split; discriminate.
Qed.

Lemma clocked_exec sc c s : clocked sc s -> clocked sc (exec sc c s).
Proof.
  intros [R S]. destruct c; simpl.
  - unfold timer. destruct (isPlaying s) eqn:P; [|split; assumption].
    set (next := if (step s >=? maxSteps sc)%Z then 0%Z else (step s + 1)%Z).
    pose proof (synced_of sc next (faultInjected s) (rng s) true) as S'.
    destruct (calculateSimulationData sc next (faultInjected s) (rng s)) as [d g'].
    split; [|exact S']. simpl. unfold next.
    destruct (Z.geb_spec (step s) (maxSteps sc)); [|lia].
    pose proof (faultStep_range sc). lia.
  - split; [exact R|exact S].
  - unfold handleReset.
    pose proof (synced_of sc 0 false (rng s) false) as S'.
    destruct (calculateSimulationData sc 0 false (rng s)) as [d g'].
    split; [|exact S']. simpl. pose proof (faultStep_range sc). lia.
  - unfold handleInjectFault. destruct (faultInjected s) eqn:L; simpl;
      [split; assumption|].
    pose proof (synced_of sc (faultStep sc) true (rng s) (isPlaying s)) as S'.
    destruct (calculateSimulationData sc (faultStep sc) true (rng s)) as [d g'].
    split; [|exact S']. simpl. pose proof (faultStep_range sc). lia.
Qed.

Lemma clocked_run sc cs : forall s, clocked sc s -> clocked sc (run sc cs s).
Proof.
  unfold run. induction cs as [|c cs IH]; intros s H; simpl; [exact H|].
  apply IH, clocked_exec, H.
Qed.

(** The agents of a snapshot, whatever the draws. *)
Lemma generate_all sc t mf (P : AgentData -> Prop) :
  (forall i g, P (fst (agent_at sc t mf i g))) ->
  forall fuel i g, Forall P (fst (generate sc fuel t mf i g)).
Proof.
  intros HP. induction fuel as [|fuel IH]; intros i g; simpl; [constructor|].
  destruct (i <? numAgents sc)%Z; [|constructor].
  unfold bind.
  pose proof (HP i g) as Ha.
  destruct (agent_at sc t mf i g) as [a g1].
  specialize (IH (i + 1)%Z g1).
  destruct (generate sc fuel t mf (i + 1) g1) as [r g2].
  simpl in *. constructor; assumption.
Qed.

Lemma generate_ids sc t mf :
  forall fuel i g,
    (i + Z.of_nat fuel = numAgents sc)%Z ->
    map id (fst (generate sc fuel t mf i g))
    = map (fun k => (i + Z.of_nat k)%Z) (seq 0 fuel).
Proof.
  induction fuel as [|fuel IH]; intros i g H; simpl; [reflexivity|].
  destruct (Z.ltb_spec i (numAgents sc)); [|lia].
  unfold bind.
  pose proof (agent_at_id sc t mf i g) as Hi.
  destruct (agent_at sc t mf i g) as [a g1].
  specialize (IH (i + 1)%Z g1).
  destruct (generate sc fuel t mf (i + 1) g1) as [r g2].
  simpl in *. rewrite Hi, IH by lia. f_equal; [lia|].
  rewrite <- seq_shift, map_map. apply map_ext. intro k. lia.
Qed.

Lemma seen_iff sc t mf :
  (t >=? faultStep sc)%Z || mf = true <-> fault_seen sc t mf.
Proof.
  unfold fault_seen. rewrite orb_true_iff, Z.geb_le. reflexivity.
Qed.

(** The status of the agent generated for index [i]. *)
Lemma agent_at_status sc t mf i g :
  let a := fst (agent_at sc t mf i g) in
  (status a = faulty <->
     fault_seen sc t mf /\ isFaultyAgent sc i = true /\ (t < faultStep sc + 100)%Z) /\
  (status a = compensating <->
     fault_seen sc t mf /\ isFaultyAgent sc i = false /\
     (Z.abs (i - (numAgents sc - 1)) <= radius sc)%Z /\ (t < faultStep sc + 50)%Z) /\
  status a <> cooling.
Proof.
  unfold agent_at, radius.
  pose proof (seen_iff sc t mf) as Seen.
  destruct ((t >=? faultStep sc)%Z || mf).
  - assert (S : fault_seen sc t mf) by (apply Seen; reflexivity).
    destruct (isFaultyAgent sc i) eqn:F; simpl;
      [destruct (Z.ltb_spec t (faultStep sc + 100)); simpl
      |destruct (Z.leb_spec (Z.abs (i - (numAgents sc - 1)))
                            (if is_vision sc then 5 else 2)%Z); simpl;
         [destruct (Z.ltb_spec t (faultStep sc + 50)); simpl|]];
      repeat split; intros;
      repeat match goal with H : _ /\ _ |- _ => destruct H end;
      try discriminate; try congruence; try lia; auto.
  - assert (S : ~ fault_seen sc t mf).
    { intro H. apply Seen in H. discriminate. }
    simpl. repeat split; intros;
      repeat match goal with H : _ /\ _ |- _ => destruct H end;
      try discriminate; try congruence; try contradiction.
Qed.

(** The colours of the agent generated for index [i]. *)
Lemma agent_at_colours sc t mf i g :
  fair g ->
  let a := fst (agent_at sc t mf i g) in
  (status a = faulty /\ getStatusColor a = "bg-fault"%string /\
   getGlow a = "glow-fault"%string) \/
  (status a = compensating /\ getStatusColor a = "bg-warning"%string /\
   getGlow a = "glow-optimal"%string) \/
  (status a = healthy /\ getStatusColor a = "bg-optimal"%string /\
   getGlow a = "glow-optimal"%string).
Proof.
  intro H.
  pose proof (H (cursor g)) as [? ?].
  pose proof (H (S (cursor g))) as [? ?].
  pose proof (H (S (S (cursor g)))) as [? ?].
  assert (Cool : forall v, 24 <= v -> v < 26 ->
            Qlt_bool v 24 = false /\ Qlt_bool v 26 = true).
  { intros v L U. split; [apply Qlt_bool_false|apply Qlt_bool_iff]; assumption. }
  unfold agent_at, targetTemp.
  destruct ((t >=? faultStep sc)%Z || mf);
    [destruct (isFaultyAgent sc i && (t <? faultStep sc + 100)%Z);
       [|destruct (negb (isFaultyAgent sc i)
                   && (Z.abs (i - (numAgents sc - 1))
                       <=? (if is_vision sc then 5 else 2))%Z);
         [destruct (t <? faultStep sc + 50)%Z|]]|];
    unfold bind, random, ret; cbn [fst]; unfold getStatusColor, getGlow;
      cbn [status temperature draws cursor].
  - left. repeat split.
  - right. left. split; [reflexivity|]. split; [reflexivity|].
    match goal with |- context [Qlt_bool ?v 26] =>
      replace (Qlt_bool v 26) with true; [reflexivity|];
      symmetry; apply Qlt_bool_iff; lra end.
  - right. right. split; [reflexivity|].
    match goal with |- context [Qlt_bool ?v 26] =>
      destruct (Cool v ltac:(lra) ltac:(lra)) as [C1 C2]; rewrite C1, C2 end.
    split; reflexivity.
  - right. right. split; [reflexivity|].
    match goal with |- context [Qlt_bool ?v 26] =>
      destruct (Cool v ltac:(destruct sc; simpl; lra) ltac:(destruct sc; simpl; lra))
        as [C1 C2]; rewrite C1, C2 end.
    split; reflexivity.
  - right. right. split; [reflexivity|].
    match goal with |- context [Qlt_bool ?v 26] =>
      destruct (Cool v ltac:(destruct sc; simpl; lra) ltac:(destruct sc; simpl; lra))
        as [C1 C2]; rewrite C1, C2 end.
    split; reflexivity.
Qed.

Lemma performance_texts sc t :
  let e := if is_vision sc
           then (if (t >? faultStep sc + 100)%Z then 1 else 85 # 100)
           else (if (t <? faultStep sc)%Z then 42 # 100
                 else if (t >? faultStep sc + 100)%Z then 38 # 100
                 else 30 # 100) in
  performance_text e
  = (if is_vision sc then "Optimal Performance" else "Recovery in Progress")%string /\
  performance_light e = (if is_vision sc then "bg-optimal" else "bg-fault")%string.
Proof.
  destruct sc; cbn [is_vision is_prototype];
    repeat match goal with
           | |- context [(t <? ?a)%Z] => destruct (t <? a)%Z
           | |- context [(t >? ?a)%Z] => destruct (t >? a)%Z
           end; split; reflexivity.
Qed.

Lemma agent_at_status_at sc t mf i g :
  status (fst (agent_at sc t mf i g)) = status_at sc t mf i.
Proof.
  unfold agent_at, status_at.
  destruct ((t >=? faultStep sc)%Z || mf);
    [destruct (isFaultyAgent sc i && (t <? faultStep sc + 100)%Z);
       [|destruct (negb (isFaultyAgent sc i)
                   && (Z.abs (i - (numAgents sc - 1))
                       <=? (if is_vision sc then 5 else 2))%Z);
         [destruct (t <? faultStep sc + 50)%Z|]]|];
    reflexivity.
Qed.

Lemma generate_statuses sc t mf :
  forall fuel i g,
    (i + Z.of_nat fuel = numAgents sc)%Z ->
    map status (fst (generate sc fuel t mf i g))
    = map (fun k => status_at sc t mf (i + Z.of_nat k)%Z) (seq 0 fuel).
Proof.
  induction fuel as [|fuel IH]; intros i g H; simpl; [reflexivity|].
  destruct (Z.ltb_spec i (numAgents sc)); [|lia].
  unfold bind.
  pose proof (agent_at_status_at sc t mf i g) as Hi.
  destruct (agent_at sc t mf i g) as [a g1].
  specialize (IH (i + 1)%Z g1).
  destruct (generate sc fuel t mf (i + 1) g1) as [r g2].
  simpl in *. rewrite Hi, IH by lia. f_equal; [f_equal; lia|].
  rewrite <- seq_shift, map_map. apply map_ext. intro k. f_equal. lia.
Qed.

Lemma coordinating_statuses l :
  coordinating l = length (filter is_compensating (map status l)).
Proof.
  unfold coordinating. induction l as [|a l IH]; simpl; [reflexivity|].
  destruct (is_compensating (status a)); simpl; rewrite IH; reflexivity.
Qed.

Lemma snapshot_init sc g : snapshot_of sc g (init sc g).
Proof.
  unfold init.
  pose proof (calculate_draws sc 0 false g) as D.
  destruct (calculateSimulationData sc 0 false g) as [d g'] eqn:E.
  split; [exact D|]. exists g. split; [reflexivity|]. simpl. rewrite E. reflexivity.
Qed.

Lemma snapshot_exec sc g0 c s : snapshot_of sc g0 s -> snapshot_of sc g0 (exec sc c s).
Proof.
  intros [D (g' & D' & E)]. destruct c; simpl.
  - unfold timer. destruct (isPlaying s); [|split; [exact D|exists g'; split; assumption]].
    set (next := if (step s >=? maxSteps sc)%Z then 0%Z else (step s + 1)%Z).
    pose proof (calculate_draws sc next (faultInjected s) (rng s)) as C.
    destruct (calculateSimulationData sc next (faultInjected s) (rng s)) as [d g1] eqn:E1.
    split; [simpl in *; congruence|]. exists (rng s). split; [exact D|].
    simpl. rewrite E1. reflexivity.
  - split; [exact D|]. exists g'. split; [exact D'|exact E].
  - unfold handleReset.
    pose proof (calculate_draws sc 0 false (rng s)) as C.
    destruct (calculateSimulationData sc 0 false (rng s)) as [d g1] eqn:E1.
    split; [simpl in *; congruence|]. exists (rng s). split; [exact D|].
    simpl. rewrite E1. reflexivity.
  - unfold handleInjectFault. destruct (faultInjected s) eqn:L; simpl;
      [split; [exact D|exists g'; split; [exact D'|rewrite L; exact E]]|].
    pose proof (calculate_draws sc (faultStep sc) true (rng s)) as C.
    destruct (calculateSimulationData sc (faultStep sc) true (rng s)) as [d g1] eqn:E1.
    split; [simpl in *; congruence|]. exists (rng s). split; [exact D|].
    simpl. rewrite E1. reflexivity.
Qed.

Lemma snapshot_run sc g0 cs :
  forall s, snapshot_of sc g0 s -> snapshot_of sc g0 (run sc cs s).
Proof.
  unfold run. induction cs as [|c cs IH]; intros s H; simpl; [exact H|].
  apply IH, snapshot_exec, H.
Qed.

Lemma progress_range sc t :
  (0 <= t <= maxSteps sc)%Z ->
  0 <= progress_width t (maxSteps sc) /\ progress_width t (maxSteps sc) <= 100.
Proof.
  intros [L U]. unfold progress_width.
  rewrite Zle_Qle in L, U.
  set (iz := inject_Z t) in *. clearbody iz.
  destruct sc; cbn [maxSteps is_prototype] in *.
  - assert (D : iz / inject_Z 200 * 100 == iz * (1 # 2)) by (unfold inject_Z; field).
    rewrite D. unfold inject_Z in *. split; lra.
  - assert (D : iz / inject_Z 250 * 100 == iz * (2 # 5)) by (unfold inject_Z; field).
    rewrite D. unfold inject_Z in *. split; lra.
Qed.

Lemma healthy_before sc i g :
  status (fst (agent_at sc 0 false i g)) = healthy.
Proof. rewrite agent_at_status_at. destruct sc; reflexivity. Qed.

End TickMoreFacts.

Module TickPageFacts.
Import Tick TickView TickPage.

Lemma maxSteps_le sc : (Tick.maxSteps sc <= 250)%Z.
Proof. destruct sc; unfold maxSteps, is_prototype; lia. Qed.

Lemma page_inv_init g : inv g (init g).
Proof.
  unfold inv, init. cbn [hook]. unfold Tick.init.
  pose proof (TickData.calculate_draws prototype 0 false g) as D.
  destruct (calculateSimulationData prototype 0 false g) as [d g1] eqn:E.
  cbn [step rng data faultInjected]. split; [lia|]. split; [exact D|].
  exists prototype, g. split; [reflexivity|]. rewrite E. reflexivity.
Qed.

Lemma page_inv_handle g0 e p : inv g0 p -> inv g0 (handle e p).
Proof.
  intros (R & D & sc0 & g' & D' & E).
  destruct e as [sc|c]; [split; [exact R|split; [exact D|eauto]]|].
  unfold inv, handle. cbn [hook scenario].
  set (sc := scenario p) in *. set (s := TickPage.hook p) in *.
  clearbody sc s.
  pose proof (maxSteps_le sc) as M.
  pose proof (TickMoreFacts.faultStep_range sc) as Fr.
  destruct c; simpl.
  - unfold timer. destruct (isPlaying s); [|split; [exact R|split; [exact D|eauto]]].
    set (next := if (step s >=? maxSteps sc)%Z then 0%Z else (step s + 1)%Z).
    assert (N : (0 <= next <= 250)%Z).
    { unfold next. destruct (Z.geb_spec (step s) (maxSteps sc)); lia. }
    pose proof (TickData.calculate_draws sc next (faultInjected s) (rng s)) as C.
    destruct (calculateSimulationData sc next (faultInjected s) (rng s))
      as [d g1] eqn:E1.
    cbn [step rng data faultInjected]. split; [exact N|].
    split; [simpl in C; congruence|].
    exists sc, (rng s). split; [exact D|]. rewrite E1. reflexivity.
  - split; [exact R|]. split; [exact D|]. exists sc0, g'. split; assumption.
  - unfold handleReset.
    pose proof (TickData.calculate_draws sc 0 false (rng s)) as C.
    destruct (calculateSimulationData sc 0 false (rng s)) as [d g1] eqn:E1.
    cbn [step rng data faultInjected]. split; [lia|].
    split; [simpl in C; congruence|].
    exists sc, (rng s). split; [exact D|]. rewrite E1. reflexivity.
  - unfold handleInjectFault. destruct (faultInjected s) eqn:L; simpl.
    + split; [exact R|]. split; [exact D|]. exists sc0, g'.
      split; [exact D'|]. rewrite L. exact E.
    + pose proof (TickData.calculate_draws sc (faultStep sc) true (rng s)) as C.
      destruct (calculateSimulationData sc (faultStep sc) true (rng s))
        as [d g1] eqn:E1.
      cbn [step rng data faultInjected]. split; [lia|].
      split; [simpl in C; congruence|].
      exists sc, (rng s). split; [exact D|]. rewrite E1. reflexivity.
Qed.

Lemma page_inv_run g0 es : forall p, inv g0 p -> inv g0 (run es p).
Proof.
  unfold run. induction es as [|e es IH]; intros p H; simpl; [exact H|].
  apply IH, page_inv_handle, H.
Qed.

Lemma progress_bound sc t :
  (0 <= t <= 250)%Z ->
  0 <= progress_width t (maxSteps sc) /\
  progress_width t (maxSteps sc) <= (if is_vision sc then 100 else 125).
Proof.
  intros [L U]. unfold progress_width.
  rewrite Zle_Qle in L, U.
  change (inject_Z 0) with 0 in L. change (inject_Z 250) with 250 in U.
  set (iz := inject_Z t) in *. clearbody iz.
  destruct sc; cbn [maxSteps is_prototype is_vision].
  - assert (D : iz / inject_Z 200 * 100 == iz * (1 # 2)) by (unfold inject_Z; field).
    rewrite D. split; lra.
  - assert (D : iz / inject_Z 250 * 100 == iz * (2 # 5)) by (unfold inject_Z; field).
    rewrite D. split; lra.
Qed.

(** Events of the hook under one scenario. *)
Lemma run_hooks cs :
  forall p,
    run (map Hook cs) p
    = {| scenario := scenario p; hook := Tick.run (scenario p) cs (hook p) |}.
Proof.
  unfold run, Tick.run.
  induction cs as [|c cs IH]; intros [sc s]; simpl; [reflexivity|].
  rewrite IH. reflexivity.
Qed.

Lemma page_run_app es es' p : run (es ++ es') p = run es' (run es p).
Proof. unfold run. apply fold_left_app. Qed.

(** The ticks of a playing hook below [maxSteps]. *)
Lemma ticks sc n :
  forall s,
    isPlaying s = true -> (step s + Z.of_nat n <= maxSteps sc)%Z ->
    step (Tick.run sc (repeat Timer n) s) = (step s + Z.of_nat n)%Z.
Proof.
  unfold Tick.run.
  induction n as [|n IH]; intros s P H; [simpl; lia|].
  cbn [repeat fold_left exec].
  pose proof (TickFacts.timer_tick sc s P) as T.
  assert (P' : isPlaying (timer sc s) = true).
  { unfold timer. rewrite P.
    destruct (calculateSimulationData sc _ (faultInjected s) (rng s)).
    reflexivity. }
  destruct (Z.geb_spec (step s) (maxSteps sc)); [lia|].
  rewrite IH; [lia|exact P'|lia].
Qed.

Lemma overrun_step g : step (hook (run overrun (init g))) = 250%Z.
Proof.
  unfold overrun.
  change (SetScenario vision :: Hook PlayPause
            :: map Hook (repeat Timer 250) ++ [SetScenario prototype])%list
    with ([SetScenario vision; Hook PlayPause]
            ++ map Hook (repeat Timer 250) ++ [SetScenario prototype])%list.
  rewrite !page_run_app, run_hooks.
  cbn [run fold_left handle hook scenario].
  rewrite ticks.
  - unfold init, Tick.init.
    destruct (calculateSimulationData prototype 0 false g). reflexivity.
  - unfold init, Tick.init.
    destruct (calculateSimulationData prototype 0 false g). reflexivity.
  - unfold init, Tick.init.
    destruct (calculateSimulationData prototype 0 false g). simpl.
    unfold maxSteps, is_prototype. lia.
Qed.

Lemma overrun_scenario g : scenario (run overrun (init g)) = prototype.
Proof.
  unfold overrun.
  change (SetScenario vision :: Hook PlayPause
            :: map Hook (repeat Timer 250) ++ [SetScenario prototype])%list
    with ([SetScenario vision; Hook PlayPause]
            ++ map Hook (repeat Timer 250) ++ [SetScenario prototype])%list.
  rewrite !page_run_app. reflexivity.
Qed.

End TickPageFacts.

(** X12.  The clock and the display of the tick-counter hook.  On the page
    that lets the user change the scenario, in the state reached by any
    sequence of scenario clicks, timer ticks and commands, the tick lies
    between 0 and 250; the progress bar of the phase indicator is between
    0 and 100 percent wide while the vision scenario is selected and
    between 0 and 125 percent while the prototype scenario is; and the
    snapshot on display was computed for the tick and the latch of that
    state, in the scenario selected at the time.  The 125 percent are
    reached: the vision scenario played to its last tick and the prototype
    scenario selected then.  For a hook that is always called with the
    same scenario, the tick stays between 0 and [maxSteps] and the
    snapshot is the one of that scenario for the tick and the latch. *)
Theorem X12_tick_clock_and_snapshot :
  (forall g es,
     let p := TickPage.run es (TickPage.init g) in
     let s := TickPage.hook p in
     (0 <= Tick.step s <= 250)%Z /\
     0 <= TickPage.progress p /\
     TickPage.progress p
     <= (if Tick.is_vision (TickPage.scenario p) then 100 else 125) /\
     exists sc0 g',
       draws g' = draws g /\
       Tick.data s
       = fst (Tick.calculateSimulationData sc0 (Tick.step s)
                (Tick.faultInjected s) g')) /\
  (forall g,
     TickPage.progress (TickPage.run TickPage.overrun (TickPage.init g)) == 125) /\
  (forall sc g cs,
     let s := Tick.run sc cs (Tick.init sc g) in
     (0 <= Tick.step s <= Tick.maxSteps sc)%Z /\
     exists g',
       draws g' = draws g /\
       Tick.data s
       = fst (Tick.calculateSimulationData sc (Tick.step s)
                (Tick.faultInjected s) g')).
Proof.
  split; [|split].
  - intros g es p s.
    destruct (TickPageFacts.page_inv_run g es _ (TickPageFacts.page_inv_init g))
      as (R & _ & Sn).
    fold p in R, Sn. fold s in R, Sn.
    destruct (TickPageFacts.progress_bound (TickPage.scenario p) _ R) as [P1 P2].
    split; [exact R|]. split; [exact P1|]. split; [exact P2|exact Sn].
  - intro g. unfold TickPage.progress.
    rewrite TickPageFacts.overrun_step, TickPageFacts.overrun_scenario.
    reflexivity.
  - intros sc g cs s.
    destruct (TickMoreFacts.clocked_run sc cs _ (TickMoreFacts.clocked_init sc g))
      as [R _].
    destruct (TickMoreFacts.snapshot_run sc g cs _ (TickMoreFacts.snapshot_init sc g))
      as [_ Sn].
    split; [exact R|exact Sn].
Qed.

(** X13.  Once a fault has been injected by hand, the phase indicator
    knows two labels only.  On the page that lets the user change the
    scenario, in every reachable state whose latch is set the label is
    Fault Detected or Stable Operation; the labels Self-Healing Response
    and System Stabilized are not shown until a reset, and the inject
    button stays disabled.  For a hook that is always called with the same
    scenario the label is Fault Detected exactly when the tick is at or
    past the fault tick, and Stable Operation when the clock has wrapped
    below it; after a change of scenario this need not hold, the label
    being the one of the scenario in which the snapshot was computed. *)
Theorem X13_latched_fault_labels :
  (forall g es,
     let p := TickPage.run es (TickPage.init g) in
     let s := TickPage.hook p in
     Tick.faultInjected s = true ->
     (Tick.phase (Tick.data s) = label_text FaultDetected \/
      Tick.phase (Tick.data s) = label_text Stable) /\
     Tick.phase (Tick.data s) <> label_text SelfHealing /\
     Tick.phase (Tick.data s) <> label_text Stabilized /\
     Tick.canInjectFault (TickPage.scenario p) s = false) /\
  (forall sc g cs,
     let s := Tick.run sc cs (Tick.init sc g) in
     Tick.faultInjected s = true ->
     ((Tick.faultStep sc <= Tick.step s)%Z /\
      Tick.phase (Tick.data s) = label_text FaultDetected) \/
     ((Tick.step s < Tick.faultStep sc)%Z /\
      Tick.phase (Tick.data s) = label_text Stable)) /\
  (let p := TickPage.run [TickPage.Hook Tick.InjectFault;
                          TickPage.SetScenario Tick.vision]
                         (TickPage.init (constant_rng (1 # 2))) in
   Tick.faultInjected (TickPage.hook p) = true /\
   Tick.phase (Tick.data (TickPage.hook p)) = label_text FaultDetected /\
   (Tick.step (TickPage.hook p) < Tick.faultStep (TickPage.scenario p))%Z).
Proof.
  split; [|split].
  - intros g es p s L.
    destruct (TickPageFacts.page_inv_run g es _ (TickPageFacts.page_inv_init g))
      as (_ & _ & sc0 & g' & _ & E).
    fold p in E. fold s in E.
    rewrite E, TickFacts.calculate_phase, L.
    unfold Tick.canInjectFault. rewrite L. unfold Tick.phase_of.
    destruct (Tick.step s <? Tick.faultStep sc0)%Z.
    + repeat split; try discriminate. right. reflexivity.
    + rewrite orb_true_r. repeat split; try discriminate. left. reflexivity.
  - intros sc g cs s L.
    destruct (TickMoreFacts.clocked_run sc cs _ (TickMoreFacts.clocked_init sc g))
      as [_ [P _]].
    fold s in P. rewrite P, L. unfold Tick.phase_of.
    destruct (Z.ltb_spec (Tick.step s) (Tick.faultStep sc)).
    + right. split; [assumption|reflexivity].
    + rewrite orb_true_r. left. split; [assumption|reflexivity].
  - vm_compute. repeat split.
Qed.

(** After an injection in the prototype scenario and a change to the
    vision scenario the latch is set and the label is not Self-Healing
    Response. *)
Lemma X13_latched_fault_labels_witness :
  let p := TickPage.run [TickPage.Hook Tick.InjectFault;
                         TickPage.SetScenario Tick.vision;
                         TickPage.Hook Tick.PlayPause; TickPage.Hook Tick.Timer]
             (TickPage.init (constant_rng (1 # 2))) in
  Tick.faultInjected (TickPage.hook p) = true /\
  Tick.phase (Tick.data (TickPage.hook p)) <> label_text SelfHealing /\
  Tick.canInjectFault (TickPage.scenario p) (TickPage.hook p) = false.
Proof.
  intro p.
  assert (L : Tick.faultInjected (TickPage.hook p) = true) by reflexivity.
  split; [exact L|].
  destruct (proj1 X13_latched_fault_labels (constant_rng (1 # 2))
              [TickPage.Hook Tick.InjectFault; TickPage.SetScenario Tick.vision;
               TickPage.Hook Tick.PlayPause; TickPage.Hook Tick.Timer] L)
    as (_ & N & _ & C).
  split; [exact N|exact C].
Defined.

(** X14.  The icon of the phase indicator, for the labels that the hook
    produces: a seedling before the fault tick, the warning sign at the
    fault tick or under a manual fault, the gear during the fifty ticks of
    the self-healing response and the arrows afterwards.  The check mark
    of [getPhaseIcon] is never shown: no label of the hook contains
    the word Recovery, and System Stabilized gets the fallback icon. *)
Theorem X14_phase_icons :
  forall sc t mf,
    let icon := TickView.getPhaseIcon (fst (Tick.phase_of sc t mf)) in
    icon = (if (t <? Tick.faultStep sc)%Z then "🌱"
            else if (t =? Tick.faultStep sc)%Z || mf then "⚠️"
            else if (t <? Tick.faultStep sc + 50)%Z then "⚙️"
            else "🔄")%string /\
    icon <> "✅"%string.
Proof.
  intros sc t mf. unfold Tick.phase_of.
  destruct (t <? Tick.faultStep sc)%Z;
    [|destruct ((t =? Tick.faultStep sc)%Z || mf);
      [|destruct (t <? Tick.faultStep sc + 50)%Z]];
    cbn [fst]; split; try reflexivity; vm_compute; discriminate.
Qed.

(** X15.  The status light of the metrics panel depends on the scenario
    alone: for every tick, latch and stream of draws the efficiency of the
    snapshot is at most 0.5 in the prototype scenario, which shows
    Recovery in Progress on the fault colour, and above 0.8 in the vision
    scenario, which shows Optimal Performance; the text Stabilizing is
    never shown.  The recovery time is the distance from the fault tick
    during the 49 ticks after it and 0 otherwise. *)
Theorem X15_metrics_status_light :
  forall sc t mf g,
    let d := fst (Tick.calculateSimulationData sc t mf g) in
    TickView.performance_text (Tick.efficiency d)
    = (if Tick.is_vision sc then "Optimal Performance"
       else "Recovery in Progress")%string /\
    TickView.performance_light (Tick.efficiency d)
    = (if Tick.is_vision sc then "bg-optimal" else "bg-fault")%string /\
    TickView.performance_text (Tick.efficiency d) <> "Stabilizing"%string /\
    (0 <= Tick.recoveryTime d < 50)%Z /\
    ((Tick.faultStep sc < t < Tick.faultStep sc + 50)%Z ->
     Tick.recoveryTime d = (t - Tick.faultStep sc)%Z).
Proof.
  intros sc t mf g d. unfold d.
  rewrite TickMoreFacts.calculate_efficiency, TickMoreFacts.calculate_recoveryTime.
  destruct (TickMoreFacts.performance_texts sc t) as [T L].
  cbv zeta in T, L. rewrite T, L.
  split; [reflexivity|]. split; [reflexivity|].
  split; [destruct sc; discriminate|].
  destruct (Z.gtb_spec t (Tick.faultStep sc));
    destruct (Z.ltb_spec t (Tick.faultStep sc + 50)); cbn [andb];
    split; try lia; intros; lia.
Qed.

(** In the prototype scenario, 20 ticks after the fault, the recovery
    time is 20. *)
Lemma X15_metrics_status_light_witness :
  (Tick.faultStep Tick.prototype < 70 < Tick.faultStep Tick.prototype + 50)%Z /\
  Tick.recoveryTime
    (fst (Tick.calculateSimulationData Tick.prototype 70 false (constant_rng (1 # 2))))
  = (70 - Tick.faultStep Tick.prototype)%Z.
Proof.
  assert (H : (Tick.faultStep Tick.prototype < 70
               < Tick.faultStep Tick.prototype + 50)%Z) by (split; reflexivity).
  split; [exact H|].
  apply (X15_metrics_status_light Tick.prototype 70%Z false (constant_rng (1 # 2))).
  exact H.
Defined.

(** X16.  The colours of the agent circles.  With draws in [0, 1), every
    agent of every snapshot is drawn in one of three ways: faulty agents
    in the fault colour with the fault glow, compensating agents in the
    warning colour with the optimal glow, healthy agents in the optimal
    colour with the optimal glow.  The cooling and the heating colour of
    [getStatusColor], and the empty glow, are never used: the temperature
    of a healthy agent stays within [24, 26). *)
Theorem X16_agent_colours :
  forall sc t mf g,
    fair g ->
    Forall
      (fun a =>
         (Tick.status a = Tick.faulty /\
          TickView.getStatusColor a = "bg-fault"%string /\
          TickView.getGlow a = "glow-fault"%string) \/
         (Tick.status a = Tick.compensating /\
          TickView.getStatusColor a = "bg-warning"%string /\
          TickView.getGlow a = "glow-optimal"%string) \/
         (Tick.status a = Tick.healthy /\
          TickView.getStatusColor a = "bg-optimal"%string /\
          TickView.getGlow a = "glow-optimal"%string))
      (Tick.agents (fst (Tick.calculateSimulationData sc t mf g))).
Proof.
  intros sc t mf g Hg. rewrite TickData.calculate_agents.
  apply TickData.generate_Forall; [|exact Hg].
  intros i g' Hg'. apply (TickMoreFacts.agent_at_colours sc t mf i g' Hg').
Qed.

Lemma X16_agent_colours_witness :
  fair (constant_rng (1 # 2)) /\
  Forall
    (fun a =>
       (Tick.status a = Tick.faulty /\
        TickView.getStatusColor a = "bg-fault"%string /\
        TickView.getGlow a = "glow-fault"%string) \/
       (Tick.status a = Tick.compensating /\
        TickView.getStatusColor a = "bg-warning"%string /\
        TickView.getGlow a = "glow-optimal"%string) \/
       (Tick.status a = Tick.healthy /\
        TickView.getStatusColor a = "bg-optimal"%string /\
        TickView.getGlow a = "glow-optimal"%string))
    (Tick.agents
       (fst (Tick.calculateSimulationData Tick.prototype 60 false
               (constant_rng (1 # 2))))).
Proof.
  assert (F : fair (constant_rng (1 # 2))) by (intro n; simpl; lra).
  split; [exact F|].
  apply (X16_agent_colours Tick.prototype 60%Z false (constant_rng (1 # 2)) F).
Defined.

(** X17.  Who is shown faulty and who compensates.  In every snapshot the
    ids are 0, 1, ..., [numAgents - 1] in this order; an agent is faulty
    exactly when the fault has happened (by the tick or by hand), the agent
    is one of those selected as faulty and fewer than 100 ticks separate
    the tick from the fault tick; it is compensating exactly when the fault
    has happened, the agent is not selected, its index is within the
    radius (2 in the prototype, 5 in the vision scenario) of the last index
    and fewer than 50 ticks separate the tick from the fault tick.  The
    status cooling of the type is never assigned. *)
Theorem X17_snapshot_statuses :
  forall sc t mf g,
    let l := Tick.agents (fst (Tick.calculateSimulationData sc t mf g)) in
    map Tick.id l = TickView.ids_upto (Tick.numAgents sc) /\
    Forall
      (fun a =>
         (Tick.status a = Tick.faulty <->
            TickView.fault_seen sc t mf /\
            Tick.isFaultyAgent sc (Tick.id a) = true /\
            (t < Tick.faultStep sc + 100)%Z) /\
         (Tick.status a = Tick.compensating <->
            TickView.fault_seen sc t mf /\
            Tick.isFaultyAgent sc (Tick.id a) = false /\
            (Z.abs (Tick.id a - (Tick.numAgents sc - 1)) <= TickView.radius sc)%Z /\
            (t < Tick.faultStep sc + 50)%Z) /\
         Tick.status a <> Tick.cooling)
      l.
Proof.
  intros sc t mf g l. unfold l. rewrite TickData.calculate_agents. split.
  - rewrite TickMoreFacts.generate_ids.
    + unfold TickView.ids_upto. apply map_ext. intro k. reflexivity.
    + pose proof (TickData.numAgents_pos sc). lia.
  - apply TickMoreFacts.generate_all. intros i g'.
    rewrite TickData.agent_at_id.
    apply (TickMoreFacts.agent_at_status sc t mf i g').
Qed.

(** X18.  The number of coordinating agents that the network panel
    reports: once the fault has happened, and for as long as fewer than 50
    ticks separate the tick from the fault tick, exactly 2 agents
    compensate in the prototype scenario and exactly 3 in the vision
    scenario; at every other time none does. *)
Theorem X18_coordinating_agents :
  forall sc t mf g,
    TickView.coordinating
      (Tick.agents (fst (Tick.calculateSimulationData sc t mf g)))
    = if ((t >=? Tick.faultStep sc)%Z || mf) && (t <? Tick.faultStep sc + 50)%Z
      then (if Tick.is_vision sc then 3%nat else 2%nat)
      else 0%nat.
Proof.
  intros sc t mf g.
  rewrite TickMoreFacts.coordinating_statuses, TickData.calculate_agents.
  rewrite TickMoreFacts.generate_statuses
    by (pose proof (TickData.numAgents_pos sc); lia).
  unfold TickView.status_at.
  set (b1 := (t >=? Tick.faultStep sc)%Z || mf).
  set (b2 := (t <? Tick.faultStep sc + 100)%Z).
  set (b3 := (t <? Tick.faultStep sc + 50)%Z).
  clearbody b1 b2 b3.
  destruct sc, b1, b2, b3; reflexivity.
Qed.

(** X19.  Reset shows a stable system whatever came before: from every
    state, [handleReset] gives tick 0, a paused hook with the latch
    cleared and the inject button enabled, the label Stable Operation,
    recovery time 0 and a snapshot in which every agent is healthy. *)
Theorem X19_reset_shows_stable_system :
  forall sc (s : Tick.State),
    let s' := Tick.handleReset sc s in
    Tick.step s' = 0%Z /\
    Tick.isPlaying s' = false /\
    Tick.faultInjected s' = false /\
    Tick.canInjectFault sc s' = true /\
    Tick.phase (Tick.data s') = label_text Stable /\
    Tick.recoveryTime (Tick.data s') = 0%Z /\
    Z.of_nat (length (Tick.agents (Tick.data s'))) = Tick.numAgents sc /\
    Forall (fun a => Tick.status a = Tick.healthy) (Tick.agents (Tick.data s')).
Proof.
  intros sc s s'. unfold s', Tick.handleReset.
  pose proof (TickFacts.calculate_phase sc 0 false (Tick.rng s)) as P.
  pose proof (TickMoreFacts.calculate_recoveryTime sc 0 false (Tick.rng s)) as R.
  pose proof (TickData.calculate_agents sc 0 false (Tick.rng s)) as A.
  destruct (Tick.calculateSimulationData sc 0 false (Tick.rng s)) as [d g'].
  cbn [fst] in P, R, A.
  unfold Tick.canInjectFault. cbn [Tick.step Tick.isPlaying Tick.faultInjected Tick.data].
  rewrite P, R, A.
  repeat split.
  - destruct sc; reflexivity.
  - destruct sc; reflexivity.
  - destruct sc; reflexivity.
  - rewrite TickData.generate_length by (pose proof (TickData.numAgents_pos sc); lia).
    pose proof (TickData.numAgents_pos sc). lia.
  - apply TickMoreFacts.generate_all. intros i g0.
    apply TickMoreFacts.healthy_before.
Qed.

(* ------------------------------------------------------------------ *)
(** ** The script variant: the KPI cards, the badges and the anomaly check *)

Module SwarmMoreFacts.
Import Swarm SwarmInv SwarmFacts SwarmPhases SwarmMore.

(** A loop whose body acts on a projection of the store as [f] does. *)
Lemma for_each_sim {A S T} (body : S -> A -> option S) (f : T -> A -> T)
      (proj : S -> T) :
  (forall s x s', body s x = Some s' -> proj s' = f (proj s) x) ->
  forall l s s', for_each body l s = Some s' -> proj s' = fold_left f l (proj s).
Proof.
  intros H. induction l as [|x l IH]; intros s s' E; simpl in *.
  - injection E as <-. reflexivity.
  - destruct (body s x) as [s1|] eqn:B; [|discriminate]. simpl in E.
    rewrite (IH _ _ E), (H _ _ _ B). reflexivity.
Qed.

Lemma fold_left_same {A T} (l : list A) (t : T) :
  fold_left (fun t _ => t) l t = t.
Proof. induction l; simpl; auto. Qed.

Lemma views_modify_same i f l :
  (forall a, view (f a) = view a) -> views (modify i f l) = views l.
Proof. apply modify_map. Qed.

Lemma views_modify_upd st i f l :
  (forall a, view (f a) = (temp a, st)) ->
  views (modify i f l) = upd_status st i (views l).
Proof.
  intro H. unfold views. revert i.
  induction l as [|a l IH]; intros [|i]; simpl; try reflexivity.
  - rewrite H. reflexivity.
  - rewrite IH. reflexivity.
Qed.

Lemma share_duty_views a l nid l' :
  share_duty a l nid = Some l' -> views l' = views l.
Proof.
  unfold share_duty. destruct (agentById l nid); simpl; [|discriminate].
  intro E. injection E as <-.
  rewrite !views_modify_same; reflexivity.
Qed.

Lemma boost_views l nid l' : boost l nid = Some l' -> views l' = views l.
Proof.
  unfold boost. destruct (agentById l nid); simpl; [|discriminate].
  intro E. injection E as <-.
  rewrite views_modify_same; reflexivity.
Qed.

Lemma heal_views l a l' :
  heal l a = Some l' -> views l' = upd_status HOT a (views l).
Proof.
  unfold heal. destruct (nth_error l a) as [x|]; simpl; [|discriminate].
  intro E.
  apply (for_each_sim (share_duty a) (fun t _ => t) views) in E.
  - rewrite fold_left_same in E. rewrite E.
    apply views_modify_upd. reflexivity.
  - intros s nid s' Hs. eapply share_duty_views, Hs.
Qed.

Lemma upd_at_app st pre v r :
  upd_status st (length pre) (pre ++ v :: r) = (pre ++ (fst v, st) :: r)%list.
Proof.
  induction pre as [|p pre IH]; simpl; [reflexivity|].
  rewrite IH. reflexivity.
Qed.

(** The marks of the balancing phase, position by position. *)
Lemma marks l :
  forall pre,
    fold_left (fun vs a => upd_status HOT a vs) (hot_from (length pre) l)
              (pre ++ views l)
    = (pre ++ map mark_view (views l))%list.
Proof.
  induction l as [|a l IH]; intro pre; simpl; [reflexivity|].
  unfold mark_view at 1. cbn [view fst].
  destruct (Qlt_bool 33 (temp a)); simpl.
  - rewrite upd_at_app. cbn [view fst].
    replace (pre ++ (temp a, HOT) :: views l)%list
      with ((pre ++ [(temp a, HOT)]) ++ views l)%list
      by (rewrite <- app_assoc; reflexivity).
    replace (S (length pre)) with (length (pre ++ [(temp a, HOT)]))
      by (rewrite length_app; simpl; lia).
    rewrite IH, <- app_assoc. reflexivity.
  - replace (pre ++ view a :: views l)%list
      with ((pre ++ [view a]) ++ views l)%list
      by (rewrite <- app_assoc; reflexivity).
    replace (S (length pre)) with (length (pre ++ [view a]))
      by (rewrite length_app; simpl; lia).
    rewrite IH, <- app_assoc. reflexivity.
Qed.

Lemma balance_views l l' :
  balance l = Some l' -> views l' = map mark_view (views l).
Proof.
  unfold balance, hot. intro E.
  apply (for_each_sim heal (fun vs a => upd_status HOT a vs) views) in E.
  - rewrite E. apply (marks l []).
  - intros s a s' Hs. apply heal_views, Hs.
Qed.

Lemma rare_failure_views l g l' g' :
  rare_failure l g = Some (l', g') ->
  views l' = views l \/ exists i, views l' = upd_status FAIL i (views l).
Proof.
  unfold rare_failure, random. cbv beta iota zeta.
  destruct (Qlt_bool (draws g (cursor g)) (2 # 100)).
  - match goal with |- context [(?i <? 0)%Z] => set (k := i) end.
    destruct (k <? 0)%Z; [discriminate|].
    destruct (nth_error l (Z.to_nat k)) as [failing|]; simpl; [|discriminate].
    destruct (for_each boost (neighbors failing)
                       (modify (Z.to_nat k) fail_agent l)) as [l3|] eqn:E;
      simpl; [|discriminate].
    intro H. injection H as <- <-. right. exists (Z.to_nat k).
    apply (for_each_sim boost (fun t _ => t) views) in E.
    + rewrite fold_left_same in E. rewrite E.
      apply views_modify_upd. reflexivity.
    + intros s nid s' Hs. eapply boost_views, Hs.
  - intro H. injection H as <- <-. left. reflexivity.
Qed.

Lemma settle_views l :
  forall g, views (fst (settle l g)) = map settle_view (views l).
Proof.
  induction l as [|a l IH]; intro g; simpl; [reflexivity|].
  unfold settle_view at 1. cbn [view fst snd].
  destruct (Qle_bool (temp a) 33 && negb (status_eqb (status a) FAIL)).
  - unfold bind, rnd, random. cbv beta iota zeta.
    match goal with
    | |- context [settle l ?g1] =>
        specialize (IH g1); destruct (settle l g1) as [r g2]
    end.
    simpl in *. rewrite IH. reflexivity.
  - unfold bind. specialize (IH g). destruct (settle l g) as [r g2].
    simpl in *. rewrite IH. reflexivity.
Qed.

(** The badges after the phases. *)
Lemma mark_flagged v : hot_flagged (mark_view v).
Proof.
  unfold hot_flagged, mark_view.
  destruct (Qlt_bool 33 (fst v)) eqn:E; simpl; intro H; [discriminate|].
  apply Qlt_bool_false in E. lra.
Qed.

Lemma upd_fail (P : Q * Status -> Prop) i vs :
  (forall t, P (t, FAIL)) -> Forall P vs -> Forall P (upd_status FAIL i vs).
Proof.
  intros H F. revert i. induction F as [|v vs Hv Hvs IH]; intros [|i]; simpl;
    constructor; auto.
Qed.

Lemma settle_ok v : hot_flagged v -> view_ok (settle_view v).
Proof.
  unfold hot_flagged, view_ok, settle_view. destruct v as [t st]. simpl.
  intro H.
  destruct (Qle_bool t 33) eqn:E; simpl.
  - apply Qle_bool_iff in E. destruct st; simpl; split; intros; try discriminate;
      try assumption; try lra.
  - apply Qle_bool_false in E. split; intro S; [|exact E].
    exfalso. apply (H E S).
Qed.

Lemma badge_views l : Forall badge_ok l <-> Forall view_ok (views l).
Proof. unfold views. rewrite Forall_map. reflexivity. Qed.

Lemma failed_flagged t : hot_flagged (t, FAIL).
Proof. intros _. discriminate. Qed.

Lemma failed_ok t : view_ok (t, FAIL).
Proof. split; discriminate. Qed.

Lemma swarmStep_badges Math_sin copy s s' :
  swarmStep Math_sin copy s = Some s' -> Forall badge_ok (agents s').
Proof.
  unfold swarmStep.
  match goal with
  | |- context [local_update ?a ?b ?l ?g] =>
      destruct (local_update a b l g) as [l1 g1]
  end.
  destruct (balance l1) as [l2|] eqn:B; [|discriminate]. cbn [obind].
  apply balance_views in B.
  assert (F2 : Forall hot_flagged (views l2)).
  { rewrite B. apply Forall_map. apply Forall_forall. intros v _.
    apply mark_flagged. }
  destruct copy.
  - destruct (rare_failure l2 g1) as [[l3 g3]|] eqn:R; [|discriminate].
    cbn [obind].
    pose proof (settle_views l3 g3) as S.
    destruct (settle l3 g3) as [l4 g4]. simpl in S.
    intro E. injection E as <-. cbn [agents].
    apply badge_views. rewrite S. apply Forall_map.
    assert (F3 : Forall hot_flagged (views l3)).
    { apply rare_failure_views in R. destruct R as [R|[i R]]; rewrite R;
        [exact F2|apply upd_fail; [apply failed_flagged|exact F2]]. }
    eapply Forall_impl; [|exact F3]. intros v. apply settle_ok.
  - pose proof (settle_views l2 g1) as S.
    destruct (settle l2 g1) as [l3 g3]. simpl in S.
    destruct (rare_failure l3 g3) as [[l4 g4]|] eqn:R; [|discriminate].
    cbn [obind].
    intro E. injection E as <-. cbn [agents].
    apply badge_views.
    assert (F3 : Forall view_ok (views l3)).
    { rewrite S. apply Forall_map.
      eapply Forall_impl; [|exact F2]. intros v. apply settle_ok. }
    apply rare_failure_views in R. destruct R as [R|[i R]]; rewrite R;
      [exact F3|apply upd_fail; [apply failed_ok|exact F3]].
Qed.

Lemma swarmStep_fields Math_sin copy s s' :
  swarmStep Math_sin copy s = Some s' ->
  tick s' = tick s /\ history s' = history s /\ data s' = data s /\
  running s' = running s.
Proof.
  unfold swarmStep.
  match goal with
  | |- context [local_update ?a ?b ?l ?g] =>
      destruct (local_update a b l g) as [l1 g1]
  end.
  destruct (balance l1) as [l2|]; [|discriminate]. cbn [obind].
  match goal with
  | |- context [obind ?m _] => destruct m as [[l4 g4]|]; [|discriminate]
  end.
  cbn [obind]. intro E. injection E as <-. repeat split.
Qed.

Lemma step_badges Math_sin copy s s' :
  step Math_sin copy s = Some s' -> Forall badge_ok (agents s').
Proof.
  unfold step, rnd, random. cbv beta iota zeta.
  match goal with
  | |- context [swarmStep Math_sin copy ?s1] =>
      destruct (swarmStep Math_sin copy s1) as [s2|] eqn:E; [|discriminate]
  end.
  cbn [obind]. intro H. injection H as <-. cbn [agents].
  eapply swarmStep_badges, E.
Qed.

Lemma at_last_app {A} (l : list A) x : at_last (l ++ [x]) = Some x.
Proof.
  unfold at_last. rewrite map_app. simpl. apply last_last.
Qed.

Lemma at_last_tl {A} (l : list A) :
  (2 <= length l)%nat -> at_last (tl l) = at_last l.
Proof.
  destruct l as [|a [|b l]]; simpl; intro H; try lia. reflexivity.
Qed.

Lemma Math_abs_nonneg x : 0 <= Math_abs x.
Proof. unfold Math_abs. qtest; lra. Qed.

Lemma uptime_range v :
  0 <= v ->
  (999 # 10) <= clamp ((9990 # 100) + v * (1 # 10)) (997 # 10) 100 /\
  clamp ((9990 # 100) + v * (1 # 10)) (997 # 10) 100 <= 100.
Proof.
  intro H. unfold clamp, Math_max, Math_min. qtest; lra.
Qed.

Lemma step_kinv Math_sin copy s s' :
  step Math_sin copy s = Some s' -> kinv s -> kinv s'.
Proof.
  unfold step, rnd, random. cbv beta iota zeta.
  match goal with
  | |- context [swarmStep Math_sin copy ?s1] =>
      destruct (swarmStep Math_sin copy s1) as [s2|] eqn:E; [|discriminate]
  end.
  cbn [obind]. intro H. injection H as <-.
  apply swarmStep_fields in E. destruct E as (T & Hi & D & _).
  cbn [tick history data] in *.
  intros (K1 & K2 & K3 & K4 & K5).
  unfold kinv. cbn [tick history data]. rewrite T, Hi, D.
  match goal with
  | |- context [(history s ++ [?d])%list] => set (d' := d) in *
  end.
  assert (Od : kpi_ok d').
  { unfold kpi_ok, d'. cbn [energyMW lossPct uptime renMix].
    repeat match goal with
           | |- context [clamp ?v 12 40] =>
               pose proof (clamp_bounds v 12 40 ltac:(lra)) as [? ?];
               set (e := clamp v 12 40) in *; clearbody e
           | |- context [clamp ?v 15 80] =>
               pose proof (clamp_bounds v 15 80 ltac:(lra)) as [? ?];
               set (r := clamp v 15 80) in *; clearbody r
           | |- context [clamp ?v 2 (62 # 10)] =>
               pose proof (clamp_bounds v 2 (62 # 10) ltac:(lra)) as [? ?];
               set (lo := clamp v 2 (62 # 10)) in *; clearbody lo
           end.
    match goal with
    | |- context [Math_abs ?x] =>
        pose proof (uptime_range (Math_abs x) (Math_abs_nonneg x)) as [? ?]
    end.
    repeat split; assumption. }
  clearbody d'.
  assert (L : length (history s ++ [d']) = S (length (history s)))
    by (rewrite length_app; simpl; lia).
  split; [lia|].
  destruct (Nat.ltb_spec 120 (length (history s ++ [d']))) as [G|G].
  - split; [|split; [exact Od|split]].
    + destruct (history s ++ [d'])%list eqn:Eh; simpl in *; lia.
    + assert (F : Forall kpi_ok (history s ++ [d'])).
      { apply Forall_app. split; [exact K4|constructor; [exact Od|constructor]]. }
      destruct (history s ++ [d'])%list; simpl; [constructor|].
      inversion F; assumption.
    + intros h Hh. rewrite at_last_tl in Hh by lia.
      rewrite at_last_app in Hh. congruence.
  - split; [lia|]. split; [exact Od|]. split.
    + apply Forall_app. split; [exact K4|constructor; [exact Od|constructor]].
    + intros h Hh. rewrite at_last_app in Hh. congruence.
Qed.

Lemma initial_data_ok : kpi_ok initial_data.
Proof. unfold kpi_ok, initial_data. simpl. repeat split; lra. Qed.

Lemma kinv_fresh r l g :
  kinv {| running := r; tick := 0; history := []; data := initial_data;
          agents := l; rng := g |}.
Proof.
  unfold kinv. simpl. repeat split; try lia; try apply initial_data_ok.
  - constructor.
  - discriminate.
Qed.

Lemma kinv_same s s' :
  tick s' = tick s -> history s' = history s -> data s' = data s ->
  kinv s -> kinv s'.
Proof. unfold kinv. intros -> -> ->. exact (fun H => H). Qed.

Lemma kinv_start s : kinv s -> kinv (start s).
Proof. unfold start. destruct (running s); [auto|apply kinv_same; reflexivity]. Qed.

Lemma kinv_stop s : kinv s -> kinv (stop s).
Proof. unfold stop. destruct (running s); [apply kinv_same; reflexivity|auto]. Qed.

Lemma kinv_reset s : kinv (reset s).
Proof.
  unfold reset. destruct (redraw (agents (stop s)) (rng (stop s))).
  apply kinv_fresh.
Qed.

Lemma kinv_init g : kinv (init g).
Proof.
  unfold init. destruct (initial_agents g) as [l g']. apply kinv_start, kinv_fresh.
Qed.

(** The badges of freshly drawn agents. *)
Lemma create_badges names :
  forall g, fair g -> Forall view_ok (views (fst (create names g))).
Proof.
  induction names as [|name names IH]; intros g H; simpl; [constructor|].
  unfold bind, rnd, random. cbv beta iota zeta. cbn [draws cursor].
  match goal with
  | |- context [create names ?g1] =>
      pose proof (IH g1 ltac:(intro n; apply H)) as I;
      destruct (create names g1) as [r g2]
  end.
  simpl in *. constructor; [|exact I].
  destruct (H (cursor g)). split; simpl; intro; [lra|discriminate].
Qed.

Lemma redraw_badges l :
  forall g, fair g -> Forall view_ok (views (fst (redraw l g))).
Proof.
  induction l as [|a l IH]; intros g H; simpl; [constructor|].
  unfold bind, rnd, random. cbv beta iota zeta. cbn [draws cursor].
  match goal with
  | |- context [redraw l ?g1] =>
      pose proof (IH g1 ltac:(intro n; apply H)) as I;
      destruct (redraw l g1) as [r g2]
  end.
  simpl in *. constructor; [|exact I].
  destruct (H (cursor g)). split; simpl; intro; [lra|discriminate].
Qed.

Lemma link_one_views l i : views (link_one l i) = views l.
Proof.
  unfold link_one.
  assert (M : forall (f : Agent -> list string) l0,
             views (modify i (fun a => set_neighbors (f a) a) l0) = views l0).
  { intros f l0. apply views_modify_same. reflexivity. }
  destruct (0 <? i)%nat; [destruct (nth_error l (i - 1))|];
    destruct (i <? length l - 1)%nat;
    repeat match goal with
           | |- context [nth_error ?l1 (i + 1)] => destruct (nth_error l1 (i + 1))
           end;
    rewrite ?M; reflexivity.
Qed.

Lemma link_views l : views (link l) = views l.
Proof.
  unfold link. generalize (seq 0 (length l)). intros idx. revert l.
  induction idx as [|i idx IH]; intros l; simpl; [reflexivity|].
  rewrite IH. apply link_one_views.
Qed.

Lemma init_badges g : fair g -> Forall badge_ok (agents (init g)).
Proof.
  intro H. unfold init, initial_agents, bind, ret.
  pose proof (create_badges agentNames g H) as C.
  destruct (create agentNames g) as [l g']. simpl in C.
  unfold start. cbn [running agents].
  apply badge_views. rewrite link_views. exact C.
Qed.

Lemma reset_badges s : fair (rng s) -> Forall badge_ok (agents (reset s)).
Proof.
  intro H. unfold reset.
  assert (E : agents (stop s) = agents s /\ rng (stop s) = rng s)
    by (unfold stop; destruct (running s); split; reflexivity).
  destruct E as [-> ->].
  pose proof (redraw_badges (agents s) (rng s) H) as R.
  destruct (redraw (agents s) (rng s)) as [l g]. simpl in R.
  cbn [agents]. apply badge_views, R.
Qed.

Section Script.

Variable Math_sin : Q -> Q.
Variable copy : Copy.
Hypothesis sine : bounded_sine Math_sin.

Lemma full_inv_init g : fair g -> full_inv (init g).
Proof.
  intro H. split; [apply SwarmRun.swarm_inv_init, H|].
  split; [apply kinv_init|apply init_badges, H].
Qed.

Lemma full_inv_exec c s :
  full_inv s -> exists s', exec Math_sin copy c s = Some s' /\ full_inv s'.
Proof.
  intros (I & K & B).
  destruct (SwarmRun.swarm_inv_exec Math_sin copy sine c s I) as (s' & E & I').
  exists s'. split; [exact E|]. split; [exact I'|].
  destruct c; simpl in E.
  - unfold timer in E. destruct (running s).
    + split; [eapply step_kinv; eauto|eapply step_badges; eauto].
    + injection E as <-. split; assumption.
  - injection E as <-. split; [apply kinv_start, K|].
    unfold start. destruct (running s); exact B.
  - injection E as <-. split; [apply kinv_stop, K|].
    unfold stop. destruct (running s); exact B.
  - injection E as <-. split; [apply kinv_reset|].
    apply reset_badges. apply I.
Qed.

Lemma full_inv_run cs :
  forall s, full_inv s ->
    exists s', run Math_sin copy cs s = Some s' /\ full_inv s'.
Proof.
  induction cs as [|c cs IH]; intros s H; simpl.
  - exists s. split; [reflexivity|exact H].
  - destruct (full_inv_exec c s H) as (s1 & E & H1).
    rewrite E. simpl. apply IH, H1.
Qed.

End Script.

(** The anomaly check. *)
Lemma runAI_loop_spec l :
  forall n ul,
    fold_left
      (fun (acc : nat * list Finding) a =>
         if Qlt_bool 33 (temp a)
         then (S (fst acc), (snd acc ++ [bad_item (id a) (temp a)])%list)
         else acc)
      l (n, ul)
    = ((n + length (hot l))%nat,
       (ul ++ map (fun a => bad_item (id a) (temp a))
                  (filter (fun a => Qlt_bool 33 (temp a)) l))%list).
Proof.
  unfold hot. generalize 0%nat as k.
  induction l as [|a l IH]; intros k n ul; simpl.
  - rewrite Nat.add_0_r, app_nil_r. reflexivity.
  - destruct (Qlt_bool 33 (temp a)); simpl.
    + rewrite (IH (S k)). simpl. rewrite <- app_assoc. simpl.
      f_equal. lia.
    + apply IH.
Qed.

Lemma hot_length l :
  length (hot l) = length (filter (fun a => Qlt_bool 33 (temp a)) l).
Proof.
  unfold hot. generalize 0%nat as k.
  induction l as [|a l IH]; intro k; simpl; [reflexivity|].
  destruct (Qlt_bool 33 (temp a)); simpl; rewrite IH; reflexivity.
Qed.

End SwarmMoreFacts.

Module SwarmCheck.
Import Swarm SwarmMore.

Lemma runAI_spec l :
  runAI l
  = match filter (fun a => Qlt_bool 33 (temp a)) l with
    | [] => [good_item]
    | a :: r => map (fun a => bad_item (id a) (temp a)) (a :: r)
    end.
Proof.
  unfold runAI, runAI_loop. rewrite SwarmMoreFacts.runAI_loop_spec.
  rewrite SwarmMoreFacts.hot_length.
  destruct (filter (fun a => Qlt_bool 33 (temp a)) l); reflexivity.
Qed.

Lemma no_hot_iff l :
  filter (fun a => Qlt_bool 33 (temp a)) l = [] <-> Forall (fun a => temp a <= 33) l.
Proof.
  induction l as [|a l IH]; simpl.
  - split; [constructor|reflexivity].
  - destruct (Qlt_bool 33 (temp a)) eqn:E.
    + apply Qlt_bool_iff in E. split; [discriminate|].
      intro F. inversion F; subst. lra.
    + apply Qlt_bool_false in E. rewrite IH. split.
      * intro F. constructor; assumption.
      * intro F. inversion F; assumption.
Qed.

Lemma delta_zero key s :
  kinv s ->
  kpi_delta key s == 0 /\ delta_class (kpi_delta key s) = "up"%string.
Proof.
  intros (_ & _ & _ & _ & L).
  assert (E : kpi_prev key s = key (data s)).
  { unfold kpi_prev. destruct (at_last (history s)) as [h|] eqn:A; [|reflexivity].
    rewrite (L h eq_refl). reflexivity. }
  unfold kpi_delta, delta_class. rewrite E. split; [ring|].
  replace (Qle_bool 0 (key (data s) - key (data s))) with true; [reflexivity|].
  symmetry. apply Qle_bool_iff. lra.
Qed.

End SwarmCheck.

(** X20.  The KPIs of script.js along every run.  With draws in [0, 1) and
    a sine between -1 and 1, every sequence of timer ticks and of clicks on
    Start, Stop and Reset ends in a state where the tick is not negative,
    the history holds exactly min(tick, 120) snapshots, and the current
    data as well as every snapshot of the history keep the load within
    [12, 40], the loss within [2, 6.2], the renewable mix within [15, 80]
    and the uptime within [99.9, 100]: the lower clamp 99.7 of the uptime
    is never reached. *)
Theorem X20_kpi_history :
  forall Math_sin copy g cs,
    SwarmInv.bounded_sine Math_sin -> fair g ->
    exists s,
      Swarm.run Math_sin copy cs (Swarm.init g) = Some s /\
      (0 <= Swarm.tick s)%Z /\
      Z.of_nat (length (Swarm.history s)) = Z.min (Swarm.tick s) 120 /\
      SwarmMore.kpi_ok (Swarm.data s) /\
      Forall SwarmMore.kpi_ok (Swarm.history s).
Proof.
  intros Math_sin copy g cs Hs Hg.
  destruct (SwarmMoreFacts.full_inv_run Math_sin copy Hs cs (Swarm.init g)
              (SwarmMoreFacts.full_inv_init g Hg))
    as (s & E & _ & (K1 & K2 & K3 & K4 & _) & _).
  exists s. split; [exact E|]. split; [exact K1|]. split; [exact K2|].
  split; [exact K3|exact K4].
Qed.

Lemma X20_kpi_history_witness :
  exists s,
    Swarm.run (fun _ => 0) Swarm.HacktonWeb1 [Swarm.Timer; Swarm.Stop; Swarm.Timer]
              (Swarm.init (constant_rng (1 # 2))) = Some s /\
    (0 <= Swarm.tick s)%Z /\
    Z.of_nat (length (Swarm.history s)) = Z.min (Swarm.tick s) 120 /\
    SwarmMore.kpi_ok (Swarm.data s) /\
    Forall SwarmMore.kpi_ok (Swarm.history s).
Proof.
  apply (X20_kpi_history (fun _ => 0) Swarm.HacktonWeb1 (constant_rng (1 # 2))
           [Swarm.Timer; Swarm.Stop; Swarm.Timer]).
  - intro x. lra.
  - intro n. simpl. lra.
Defined.

(** X21.  The delta of the KPI cards is always zero.  [step] pushes a copy
    of the data onto the history before it renders, [reset] and the load
    of the script leave the history empty, so in every state of every run
    the previous value that [renderKPIs] reads, the last entry of the
    history or else the current data, is the current value: each of the
    four cards shows the delta 0 with the class up, never down. *)
Theorem X21_kpi_delta_is_zero :
  forall Math_sin copy g cs,
    SwarmInv.bounded_sine Math_sin -> fair g ->
    exists s,
      Swarm.run Math_sin copy cs (Swarm.init g) = Some s /\
      Forall (fun key =>
                SwarmMore.kpi_delta key s == 0 /\
                SwarmMore.delta_class (SwarmMore.kpi_delta key s) = "up"%string)
             SwarmMore.KPIS.
Proof.
  intros Math_sin copy g cs Hs Hg.
  destruct (SwarmMoreFacts.full_inv_run Math_sin copy Hs cs (Swarm.init g)
              (SwarmMoreFacts.full_inv_init g Hg))
    as (s & E & _ & K & _).
  exists s. split; [exact E|].
  apply Forall_forall. intros key _. apply SwarmCheck.delta_zero, K.
Qed.

Lemma X21_kpi_delta_is_zero_witness :
  exists s,
    Swarm.run (fun _ => 0) Swarm.newWeb [Swarm.Timer; Swarm.Timer]
              (Swarm.init (constant_rng (1 # 2))) = Some s /\
    Forall (fun key =>
              SwarmMore.kpi_delta key s == 0 /\
              SwarmMore.delta_class (SwarmMore.kpi_delta key s) = "up"%string)
           SwarmMore.KPIS.
Proof.
  apply (X21_kpi_delta_is_zero (fun _ => 0) Swarm.newWeb (constant_rng (1 # 2))
           [Swarm.Timer; Swarm.Timer]).
  - intro x. lra.
  - intro n. simpl. lra.
Defined.

(** X22.  The badge of an agent agrees with its temperature.  In both
    copies of script.js, in the state reached by any run, an agent with
    the badge OK is at 33 degrees or below and an agent with the badge HOT
    is above 33 degrees, so the badge HOT always comes with the
    temperature class hot and the badge OK never does; and when the
    anomaly check reports the swarm as stable, no agent carries the badge
    HOT. *)
Theorem X22_badge_agrees_with_temperature :
  forall Math_sin copy g cs,
    SwarmInv.bounded_sine Math_sin -> fair g ->
    exists s,
      Swarm.run Math_sin copy cs (Swarm.init g) = Some s /\
      Forall (fun a =>
                (Swarm.status a = Swarm.OK ->
                 Swarm.temp a <= 33 /\ SwarmMore.tempClass a <> "hot"%string) /\
                (Swarm.status a = Swarm.HOT ->
                 33 < Swarm.temp a /\ SwarmMore.tempClass a = "hot"%string))
             (Swarm.agents s) /\
      (SwarmMore.runAI (Swarm.agents s) = [SwarmMore.good_item] ->
       Forall (fun a => Swarm.status a <> Swarm.HOT) (Swarm.agents s)).
Proof.
  intros Math_sin copy g cs Hs Hg.
  destruct (SwarmMoreFacts.full_inv_run Math_sin copy Hs cs (Swarm.init g)
              (SwarmMoreFacts.full_inv_init g Hg))
    as (s & E & _ & _ & B).
  exists s. split; [exact E|]. split.
  - eapply Forall_impl; [|exact B]. intros a [A1 A2].
    unfold SwarmMore.view in A1, A2. simpl in A1, A2.
    unfold SwarmMore.tempClass. split; intro S.
    + specialize (A1 S). split; [exact A1|].
      replace (Qlt_bool 33 (Swarm.temp a)) with false
        by (symmetry; apply Qlt_bool_false; exact A1).
      destruct (Qlt_bool (Swarm.temp a) 23); discriminate.
    + specialize (A2 S). split; [exact A2|].
      replace (Qlt_bool 33 (Swarm.temp a)) with true
        by (symmetry; apply Qlt_bool_iff; exact A2).
      reflexivity.
  - intro R. rewrite SwarmCheck.runAI_spec in R.
    destruct (filter (fun a => Qlt_bool 33 (Swarm.temp a)) (Swarm.agents s))
      as [|a r] eqn:F; [|discriminate].
    apply SwarmCheck.no_hot_iff in F.
    rewrite Forall_forall in F, B. apply Forall_forall. intros a Ha S.
    destruct (B a Ha) as [_ A2]. specialize (A2 S). specialize (F a Ha).
    unfold SwarmMore.view in A2. simpl in A2. lra.
Qed.

Lemma X22_badge_agrees_with_temperature_witness :
  exists s,
    Swarm.run (fun _ => 0) Swarm.HacktonWeb1 [Swarm.Timer; Swarm.Timer]
              (Swarm.init (constant_rng (1 # 2))) = Some s /\
    Forall (fun a =>
              (Swarm.status a = Swarm.OK ->
               Swarm.temp a <= 33 /\ SwarmMore.tempClass a <> "hot"%string) /\
              (Swarm.status a = Swarm.HOT ->
               33 < Swarm.temp a /\ SwarmMore.tempClass a = "hot"%string))
           (Swarm.agents s) /\
    (SwarmMore.runAI (Swarm.agents s) = [SwarmMore.good_item] ->
     Forall (fun a => Swarm.status a <> Swarm.HOT) (Swarm.agents s)).
Proof.
  apply (X22_badge_agrees_with_temperature (fun _ => 0) Swarm.HacktonWeb1
           (constant_rng (1 # 2)) [Swarm.Timer; Swarm.Timer]).
  - intro x. lra.
  - intro n. simpl. lra.
Defined.

(** X23.  The anomaly check [runAI] on any agent array: the list of
    findings is never empty; it is the single good item exactly when no
    agent is above 33 degrees; otherwise it holds one bad item for every
    agent above 33 degrees, in the order of the array and with the id and
    the temperature of that agent, and no good item.  The agents it
    reports are as many as the balancing phase of [swarmStep] selects. *)
Theorem X23_anomaly_check :
  forall l : list Swarm.Agent,
    SwarmMore.runAI l <> [] /\
    (SwarmMore.runAI l = [SwarmMore.good_item] <->
       Forall (fun a => Swarm.temp a <= 33) l) /\
    (SwarmMore.runAI l <> [SwarmMore.good_item] ->
       SwarmMore.runAI l
       = map (fun a => SwarmMore.bad_item (Swarm.id a) (Swarm.temp a))
             (filter (fun a => Qlt_bool 33 (Swarm.temp a)) l) /\
       length (SwarmMore.runAI l) = length (Swarm.hot l)).
Proof.
  intro l. rewrite SwarmCheck.runAI_spec.
  pose proof (SwarmCheck.no_hot_iff l) as N.
  pose proof (SwarmMoreFacts.hot_length l) as H.
  destruct (filter (fun a => Qlt_bool 33 (Swarm.temp a)) l) as [|a r].
  - split; [discriminate|]. split.
    + split; [intros _; apply N; reflexivity|reflexivity].
    + intro C. exfalso. apply C. reflexivity.
  - split; [discriminate|]. split.
    + split; [discriminate|]. intro F. apply N in F. discriminate.
    + intros _. split; [reflexivity|]. rewrite length_map, H. reflexivity.
Qed.

(** An array with one agent at 35 degrees. *)
Lemma X23_anomaly_check_witness :
  let l := [{| Swarm.id := "Z1-A"%string; Swarm.temp := 35; Swarm.load := 1 # 2;
               Swarm.power := 3; Swarm.neighbors := [];
               Swarm.status := Swarm.HOT |}] in
  SwarmMore.runAI l <> [SwarmMore.good_item] /\
  length (SwarmMore.runAI l) = length (Swarm.hot l).
Proof.
  intro l.
  assert (H : SwarmMore.runAI l <> [SwarmMore.good_item]) by (vm_compute; discriminate).
  split; [exact H|].
  apply (X23_anomaly_check l). exact H.
Defined.

(* ------------------------------------------------------------------ *)
(** ** The optimizer panel *)

Module OptimizerFacts.
Import Optimizer.

Lemma Math_min_le_r x c : Math_min x c <= c.
Proof. unfold Math_min. qtest; lra. Qed.

Lemma Math_min_mono x x' c : x <= x' -> Math_min x c <= Math_min x' c.
Proof. intro H. unfold Math_min. qtest; lra. Qed.

Lemma Math_min_ge x c lo : lo <= x -> lo <= c -> lo <= Math_min x c.
Proof. intros H1 H2. unfold Math_min. qtest; lra. Qed.

Lemma Math_min_saturated x c : c <= x -> Math_min x c == c.
Proof. intro H. unfold Math_min. qtest; lra. Qed.

Lemma clamp_mono v v' a b : v <= v' -> clamp v a b <= clamp v' a b.
Proof. intro H. unfold clamp, Math_max, Math_min. qtest; lra. Qed.

Lemma clamp_eq v v' a b : v == v' -> clamp v a b == clamp v' a b.
Proof.
  intro H. apply Qle_antisym; apply clamp_mono; rewrite H; apply Qle_refl.
Qed.

(** The loss as a product of three factors. *)
Lemma loss_mono A A' C C' D :
  0 <= A' -> A' <= A -> 0 <= C' -> C' <= C -> 0 <= D ->
  baseLoss * A' * C' * D <= baseLoss * A * C * D.
Proof.
  intros HA' HA HC' HC HD. unfold baseLoss.
  assert (P : A' * C' <= A * C) by nra.
  assert (P2 : A' * C' * D <= A * C * D) by nra.
  lra.
Qed.

End OptimizerFacts.

(** X24.  The optimizer panel never rewards less equipment.  For slider
    values with renewables between 0 and 100 percent, a battery that is
    not negative and a growth that is not negative, raising the
    renewables or the battery never raises the loss or the PUE and never
    lowers the uptime or the CO2 figure; the uptime stays within
    [99, 99.999], the PUE within [1.15, 1.6] and the loss stays positive.
    The battery saturates: beyond 15 MWh it no longer changes the loss,
    beyond 10 MWh it no longer changes the uptime or the PUE. *)
Theorem X24_optimizer_monotone :
  forall r r' b b' g,
    0 <= r -> r <= r' -> r' <= 100 -> 0 <= b -> b <= b' -> 0 <= g ->
    let k := Optimizer.computeKPIs r b g in
    let k' := Optimizer.computeKPIs r' b' g in
    (Optimizer.loss k' <= Optimizer.loss k /\
     Optimizer.uptime k <= Optimizer.uptime k' /\
     Optimizer.pue k' <= Optimizer.pue k /\
     Optimizer.co2 k <= Optimizer.co2 k') /\
    (0 < Optimizer.loss k /\
     99 <= Optimizer.uptime k /\ Optimizer.uptime k <= (99999 # 1000) /\
     (115 # 100) <= Optimizer.pue k /\ Optimizer.pue k <= (16 # 10)) /\
    (15 <= b -> Optimizer.loss (Optimizer.computeKPIs r b' g) == Optimizer.loss k) /\
    (10 <= b ->
     Optimizer.uptime (Optimizer.computeKPIs r b' g) == Optimizer.uptime k /\
     Optimizer.pue (Optimizer.computeKPIs r b' g) == Optimizer.pue k).
Proof.
  intros r r' b b' g R0 R1 R2 B0 B1 G0 k k'. unfold k, k', Optimizer.computeKPIs.
  cbn [Optimizer.loss Optimizer.uptime Optimizer.pue Optimizer.co2].
  pose proof (OptimizerFacts.Math_min_le_r b 15) as M15.
  pose proof (OptimizerFacts.Math_min_le_r b' 15) as M15'.
  pose proof (OptimizerFacts.Math_min_mono b b' 15 B1) as N15.
  pose proof (OptimizerFacts.Math_min_ge b 15 0 B0 ltac:(lra)) as P15.
  pose proof (OptimizerFacts.Math_min_mono b b' 10 B1) as N10.
  split; [|split; [|split]].
  - split; [|split; [|split]].
    + apply OptimizerFacts.loss_mono; lra.
    + apply OptimizerFacts.clamp_mono. lra.
    + apply OptimizerFacts.clamp_mono. lra.
    + lra.
  - split.
    + set (m := Math_min b 15) in *. clearbody m. unfold Optimizer.baseLoss.
      assert (A : (7 # 10) <= 1 - r * (3 # 1000)) by lra.
      assert (C : (85 # 100) <= 1 - m * (1 # 100)) by lra.
      assert (D : 1 <= 1 + g * (4 # 1000)) by lra.
      assert (AC : 0 < (1 - r * (3 # 1000)) * (1 - m * (1 # 100))) by nra.
      assert (ACD : 0 < (1 - r * (3 # 1000)) * (1 - m * (1 # 100))
                        * (1 + g * (4 # 1000))) by nra.
      lra.
    + match goal with
      | |- context [clamp ?v 99 (99999 # 1000)] =>
          pose proof (clamp_bounds v 99 (99999 # 1000) ltac:(lra)) as [? ?]
      end.
      match goal with
      | |- context [clamp ?v (115 # 100) (16 # 10)] =>
          pose proof (clamp_bounds v (115 # 100) (16 # 10) ltac:(lra)) as [? ?]
      end.
      repeat split; assumption.
  - intro S.
    rewrite (OptimizerFacts.Math_min_saturated b 15 S).
    rewrite (OptimizerFacts.Math_min_saturated b' 15 ltac:(lra)).
    reflexivity.
  - intro S. split; apply OptimizerFacts.clamp_eq;
      rewrite (OptimizerFacts.Math_min_saturated b 10 S);
      rewrite (OptimizerFacts.Math_min_saturated b' 10 ltac:(lra));
      reflexivity.
Qed.

(** From 30 to 60 percent renewables and from 12 to 20 MWh of battery, at
    5 percent growth. *)
Lemma X24_optimizer_monotone_witness :
  Optimizer.loss (Optimizer.computeKPIs 60 20 5)
  <= Optimizer.loss (Optimizer.computeKPIs 30 12 5) /\
  Optimizer.uptime (Optimizer.computeKPIs 30 20 5)
  == Optimizer.uptime (Optimizer.computeKPIs 30 12 5).
Proof.
  pose proof (X24_optimizer_monotone 30 60 12 20 5
                ltac:(lra) ltac:(lra) ltac:(lra) ltac:(lra) ltac:(lra) ltac:(lra))
    as (M & _ & _ & S).
  split; [apply M|apply S; lra].
Defined.

(* ------------------------------------------------------------------ *)
(** ** The diagram: zoom and pan *)

Module DiagramFacts.
Import Diagram.

Lemma zoom_ok_initial : zoom_ok initial.
Proof. unfold zoom_ok, initial, minS, maxS. simpl. split; lra. Qed.

Lemma zoom_ok_handle e v : zoom_ok v -> zoom_ok (handle e v).
Proof.
  unfold zoom_ok, minS, maxS. intros [L U]. destruct e; simpl;
    unfold minS, maxS in *.
  - unfold Math_min. qtest; split; lra.
  - assert (D : scale v / (115 # 100) == scale v * (100 # 115)) by field.
    unfold Math_max. qtest; rewrite ?D in *; split; lra.
  - split; lra.
  - destruct onNode; simpl; split; assumption.
  - destruct (dragging v); simpl; split; assumption.
  - split; assumption.
  - destruct ctrlKey; simpl; [|split; assumption].
    apply clamp_bounds. lra.
Qed.

Lemma zoom_ok_run es : forall v, zoom_ok v -> zoom_ok (run es v).
Proof.
  unfold run. induction es as [|e es IH]; intros v H; simpl; [exact H|].
  apply IH, zoom_ok_handle, H.
Qed.

(** The wheel keeps the point of the content under the pointer. *)
Lemma wheel_fixed p pan old new :
  ~ old == 0 -> ~ new == 0 ->
  (p - (p - (p - pan) * (new / old))) / new == (p - pan) / old.
Proof. intros H1 H2. field. split; assumption. Qed.

(** The moves of a drag in progress. *)
Lemma drag_moves ps :
  forall v,
    dragging v = true ->
    let v' := run (moves ps) v in
    let p := last ps (last_x v, last_y v) in
    panX v' == panX v + (fst p - last_x v) /\
    panY v' == panY v + (snd p - last_y v) /\
    scale v' = scale v /\ dragging v' = true.
Proof.
  unfold run.
  induction ps as [|[x y] ps IH]; intros v D; simpl.
  - repeat split; try assumption; ring.
  - rewrite D.
    match goal with
    | |- context [fold_left _ (moves ps) ?v1] =>
        destruct (IH v1 eq_refl) as (I1 & I2 & I3 & I4)
    end.
    cbn [panX panY scale last_x last_y dragging] in I1, I2, I3, I4.
    cbn zeta in I1, I2.
    assert (E : last ps (x, y)
                = match ps with [] => (x, y) | _ :: _ => last ps (last_x v, last_y v) end).
    { destruct ps as [|q ps']; [reflexivity|].
      clear. revert q. induction ps' as [|q' ps' IH']; intro q; [reflexivity|].
      change (last (q :: q' :: ps') (x, y)) with (last (q' :: ps') (x, y)).
      change (last (q :: q' :: ps') (last_x v, last_y v))
        with (last (q' :: ps') (last_x v, last_y v)).
      apply IH'. }
    rewrite E in I1, I2.
    split; [|split; [|split; assumption]].
    + rewrite I1. destruct ps; simpl; ring.
    + rewrite I2. destruct ps; simpl; ring.
Qed.

Lemma idle_moves ps : forall v, dragging v = false -> run (moves ps) v = v.
Proof.
  unfold run. induction ps as [|p ps IH]; intros v D; simpl; [reflexivity|].
  rewrite D. apply IH, D.
Qed.

End DiagramFacts.

(** X25.  Zooming the diagram.  Whatever the sequence of button clicks,
    mouse events and wheel events, the scale stays within [0.7, 2.2], so
    it is never zero; and a wheel event with the control key pressed keeps
    the point of the content that lies under the pointer where it is, on
    both axes, at the limits of the scale as well. *)
Theorem X25_zoom_keeps_scale_and_pointer :
  forall es,
    let v := Diagram.run es Diagram.initial in
    Diagram.minS <= Diagram.scale v /\ Diagram.scale v <= Diagram.maxS /\
    forall deltaY px py,
      let v' := Diagram.handle (Diagram.Wheel true deltaY px py) v in
      Diagram.content_x v' px == Diagram.content_x v px /\
      Diagram.content_y v' py == Diagram.content_y v py.
Proof.
  intros es v.
  pose proof (DiagramFacts.zoom_ok_run es _ DiagramFacts.zoom_ok_initial) as Z.
  fold v in Z.
  pose proof Z as [L U]. split; [exact L|]. split; [exact U|].
  intros deltaY px py v'.
  pose proof (DiagramFacts.zoom_ok_handle (Diagram.Wheel true deltaY px py) v Z)
    as [L' U'].
  fold v' in L', U'.
  unfold Diagram.minS in *.
  unfold Diagram.content_x, Diagram.content_y.
  assert (N : ~ Diagram.scale v == 0) by lra.
  assert (N' : ~ Diagram.scale v' == 0) by lra.
  unfold v' in *. cbn [Diagram.handle Diagram.scale Diagram.panX Diagram.panY] in *.
  split; apply DiagramFacts.wheel_fixed; assumption.
Qed.

(** X26.  Dragging the diagram.  A press outside the nodes followed by any
    number of mouse moves shifts the pan by exactly the displacement of
    the pointer since the press, on both axes, and leaves the scale as it
    is; a press inside a node starts no drag, and mouse moves without a
    drag in progress change nothing. *)
Theorem X26_drag_follows_pointer :
  forall v x0 y0 ps,
    let v' := Diagram.run (Diagram.MouseDown false x0 y0 :: Diagram.moves ps) v in
    let p := Diagram.pointer_after x0 y0 ps in
    (Diagram.panX v' == Diagram.panX v + (fst p - x0) /\
     Diagram.panY v' == Diagram.panY v + (snd p - y0) /\
     Diagram.scale v' = Diagram.scale v) /\
    Diagram.handle (Diagram.MouseDown true x0 y0) v = v /\
    (Diagram.dragging v = false -> Diagram.run (Diagram.moves ps) v = v).
Proof.
  intros v x0 y0 ps v' p. split; [|split].
  - unfold v', p, Diagram.pointer_after, Diagram.run. simpl.
    match goal with
    | |- context [fold_left _ (Diagram.moves ps) ?v1] =>
        destruct (DiagramFacts.drag_moves ps v1 eq_refl) as (I1 & I2 & I3 & _)
    end.
    unfold Diagram.run in I1, I2, I3. simpl in I1, I2, I3.
    split; [exact I1|]. split; [exact I2|exact I3].
  - reflexivity.
  - apply DiagramFacts.idle_moves.
Qed.

Lemma X26_drag_follows_pointer_witness :
  Diagram.dragging Diagram.initial = false /\
  Diagram.run (Diagram.moves [(3, 4); (5, 6)]) Diagram.initial = Diagram.initial.
Proof.
  split; [reflexivity|].
  apply (X26_drag_follows_pointer Diagram.initial 0 0 [(3, 4); (5, 6)]).
  reflexivity.
Defined.

(* ------------------------------------------------------------------ *)
(** ** The dashboard of the SmartGrid Edge script *)

Module GridFacts.
Import Grid.

Lemma grid_initial_data_ok : data_ok initial_data.
Proof. unfold data_ok, initial_data. simpl. repeat split; lra. Qed.

Lemma grid_inv_fresh r g :
  inv {| running := r; tick := 0; data := initial_data; history := []; rng := g |}.
Proof.
  unfold inv. simpl. split; [lia|]. split; [reflexivity|].
  split; [apply grid_initial_data_ok|]. split; [constructor|discriminate].
Qed.

Lemma grid_inv_same s s' :
  tick s' = tick s -> history s' = history s -> data s' = data s ->
  inv s -> inv s'.
Proof. unfold inv. intros -> -> ->. exact (fun H => H). Qed.

Lemma grid_inv_start s : inv s -> inv (start s).
Proof. unfold start. destruct (running s); [auto|apply grid_inv_same; reflexivity]. Qed.

Lemma grid_inv_stop s : inv s -> inv (stop s).
Proof. unfold stop. destruct (running s); [apply grid_inv_same; reflexivity|auto]. Qed.

Lemma grid_inv_reset s : inv (reset s).
Proof. unfold reset. apply grid_inv_fresh. Qed.

Lemma grid_inv_init g : inv (init g).
Proof. unfold init. apply grid_inv_start, grid_inv_fresh. Qed.

Lemma grid_inv_step Math_sin s : inv s -> inv (step Math_sin s).
Proof.
  intros (K1 & K2 & K3 & K4 & K5).
  unfold step, rnd, random. cbv beta iota zeta.
  unfold inv. cbn [tick history data].
  match goal with
  | |- context [(history s ++ [?d])%list] => set (d' := d) in *
  end.
  assert (Od : data_ok d').
  { unfold data_ok, d'.
    cbn [gridLoad lossPct uptime renMix rackTemp rackAmps].
    match goal with
    | |- context [Math_abs ?x] =>
        pose proof (SwarmMoreFacts.uptime_range (Math_abs x)
                      (SwarmMoreFacts.Math_abs_nonneg x)) as [? ?]
    end.
    repeat match goal with
           | |- context [clamp ?v 12 40] =>
               pose proof (clamp_bounds v 12 40 ltac:(lra)) as [? ?];
               set (e := clamp v 12 40) in *; clearbody e
           end.
    repeat match goal with
           | |- context [clamp ?v (22 # 10) (65 # 10)] =>
               pose proof (clamp_bounds v (22 # 10) (65 # 10) ltac:(lra)) as [? ?];
               set (lo := clamp v (22 # 10) (65 # 10)) in *; clearbody lo
           end.
    repeat match goal with
           | |- context [clamp ?v 15 80] =>
               pose proof (clamp_bounds v 15 80 ltac:(lra)) as [? ?];
               set (r := clamp v 15 80) in *; clearbody r
           end.
    repeat match goal with
           | |- context [clamp ?v 20 40] =>
               pose proof (clamp_bounds v 20 40 ltac:(lra)) as [? ?];
               set (rt := clamp v 20 40) in *; clearbody rt
           end.
    repeat match goal with
           | |- context [clamp ?v 200 1000] =>
               pose proof (clamp_bounds v 200 1000 ltac:(lra)) as [? ?];
               set (ra := clamp v 200 1000) in *; clearbody ra
           end.
    repeat split; assumption. }
  clearbody d'.
  assert (L : length (history s ++ [d']) = S (length (history s)))
    by (rewrite length_app; simpl; lia).
  split; [lia|].
  destruct (Nat.ltb_spec 120 (length (history s ++ [d']))) as [G|G].
  - split; [|split; [exact Od|split]].
    + destruct (history s ++ [d'])%list eqn:Eh; simpl in *; lia.
    + assert (F : Forall data_ok (history s ++ [d'])).
      { apply Forall_app. split; [exact K4|constructor; [exact Od|constructor]]. }
      destruct (history s ++ [d'])%list; simpl; [constructor|].
      inversion F; assumption.
    + intros h Hh. rewrite SwarmMoreFacts.at_last_tl in Hh by lia.
      rewrite SwarmMoreFacts.at_last_app in Hh. congruence.
  - split; [lia|]. split; [exact Od|]. split.
    + apply Forall_app. split; [exact K4|constructor; [exact Od|constructor]].
    + intros h Hh. rewrite SwarmMoreFacts.at_last_app in Hh. congruence.
Qed.

Lemma grid_inv_exec Math_sin c s : inv s -> inv (exec Math_sin c s).
Proof.
  intro H. destruct c; simpl.
  - unfold timer. destruct (running s); [apply grid_inv_step, H|exact H].
  - apply grid_inv_start, H.
  - apply grid_inv_stop, H.
  - apply grid_inv_reset.
Qed.

Lemma grid_inv_run Math_sin cs : forall s, inv s -> inv (run Math_sin cs s).
Proof.
  unfold run. induction cs as [|c cs IH]; intros s H; simpl; [exact H|].
  apply IH, grid_inv_exec, H.
Qed.

Lemma findings_length d : (length (findings d) <= 4)%nat.
Proof.
  unfold findings.
  destruct (Qlt_bool 33 (rackTemp d)), (Qlt_bool (55 # 10) (lossPct d)),
    (Qlt_bool 850 (rackAmps d)), (Qlt_bool (renMix d) 22); simpl; lia.
Qed.

End GridFacts.

(** X27.  The dashboard of the SmartGrid Edge script along every run.
    Whatever the draws and whatever [Math.sin] returns, every sequence of
    timer ticks and of clicks on Start, Stop and Reset leaves the grid load
    within [12, 40], the loss within [2.2, 6.5], the uptime within
    [99.9, 100], the renewable mix within [15, 80], the rack temperature
    within [20, 40] and the rack current within [200, 1000], in the data
    and in every snapshot of the history; the history holds exactly
    min(tick, 120) snapshots; and the delta that each KPI card shows is
    zero, because the snapshot is pushed before the cards are rendered. *)
Theorem X27_grid_dashboard :
  forall Math_sin g cs,
    let s := Grid.run Math_sin cs (Grid.init g) in
    (0 <= Grid.tick s)%Z /\
    Z.of_nat (length (Grid.history s)) = Z.min (Grid.tick s) 120 /\
    Grid.data_ok (Grid.data s) /\
    Forall Grid.data_ok (Grid.history s) /\
    Forall (fun key => Grid.kpi_delta key s == 0) Grid.KPIS.
Proof.
  intros Math_sin g cs s.
  destruct (GridFacts.grid_inv_run Math_sin cs _ (GridFacts.grid_inv_init g))
    as (K1 & K2 & K3 & K4 & K5).
  fold s in K1, K2, K3, K4, K5.
  split; [exact K1|]. split; [exact K2|]. split; [exact K3|]. split; [exact K4|].
  apply Forall_forall. intros key _.
  unfold Grid.kpi_delta, Grid.kpi_prev.
  destruct (SwarmMore.at_last (Grid.history s)) as [h|] eqn:A.
  - rewrite (K5 h eq_refl). ring.
  - ring.
Qed.

(** X28.  The fault detection of the SmartGrid Edge script.  The list that
    [runAI] shows is never empty and has at most four items; it is the
    single item that reports no deviation exactly when the rack
    temperature is at most 33, the loss at most 5.5, the rack current at
    most 850 and the renewable mix at least 22; and a rack temperature
    above 33 is always the first item shown. *)
Theorem X28_grid_fault_detection :
  forall d : Grid.Data,
    Grid.runAI d <> [] /\
    (length (Grid.runAI d) <= 4)%nat /\
    (Grid.runAI d = [Grid.no_deviation] <->
       Grid.rackTemp d <= 33 /\ Grid.lossPct d <= (55 # 10) /\
       Grid.rackAmps d <= 850 /\ 22 <= Grid.renMix d) /\
    (33 < Grid.rackTemp d ->
     hd Grid.no_deviation (Grid.runAI d)
     = Grid.finding Grid.bad Grid.HighRackTemp (Grid.rackTemp d)).
Proof.
  intro d. unfold Grid.runAI.
  pose proof (GridFacts.findings_length d) as Len.
  unfold Grid.findings in *.
  destruct (Qlt_bool 33 (Grid.rackTemp d)) eqn:E1;
    destruct (Qlt_bool (55 # 10) (Grid.lossPct d)) eqn:E2;
    destruct (Qlt_bool 850 (Grid.rackAmps d)) eqn:E3;
    destruct (Qlt_bool (Grid.renMix d) 22) eqn:E4;
    cbn [app length Nat.eqb hd] in *;
    repeat match goal with
           | H : Qlt_bool _ _ = true |- _ => apply Qlt_bool_iff in H
           | H : Qlt_bool _ _ = false |- _ => apply Qlt_bool_false in H
           end;
    (split; [discriminate|]); (split; [simpl; lia|]);
    (split; [split; [try discriminate; intros _; repeat split; assumption
                    |intros (? & ? & ? & ?); try reflexivity; exfalso; lra]
            |intro; try reflexivity; exfalso; lra]).
Qed.

(** Data with a rack at 35 degrees. *)
Lemma X28_grid_fault_detection_witness :
  let d := {| Grid.gridLoad := 20; Grid.lossPct := 38 # 10;
              Grid.uptime := 9995 # 100; Grid.renMix := 34;
              Grid.rackTemp := 35; Grid.rackAmps := 420 |} in
  33 < Grid.rackTemp d /\
  hd Grid.no_deviation (Grid.runAI d)
  = Grid.finding Grid.bad Grid.HighRackTemp (Grid.rackTemp d).
Proof.
  intro d.
  assert (H : 33 < Grid.rackTemp d) by (unfold d; simpl; lra).
  split; [exact H|].
  apply (X28_grid_fault_detection d). exact H.
Defined.

(* ------------------------------------------------------------------ *)
(** ** The presentation page *)

Module PresentationFacts.
Import JS Presentation.

Lemma round_div pos h k :
  0 < h ->
  (inject_Z k - (1 # 2)) * h <= pos -> pos < (inject_Z k + (1 # 2)) * h ->
  Qfloor (pos / h + (1 # 2)) = k.
Proof.
  intros H L U.
  assert (D : pos / h * h == pos) by (field; lra).
  set (q := pos / h) in *. clearbody q.
  assert (L' : inject_Z k <= q + (1 # 2)) by nra.
  assert (U' : q + (1 # 2) < inject_Z k + 1) by nra.
  apply Z.le_antisymm.
  - apply Z.lt_succ_r. rewrite Zlt_Qlt.
    eapply Qle_lt_trans; [apply Qfloor_le|].
    unfold Z.succ. rewrite inject_Z_plus. exact U'.
  - rewrite <- (Qfloor_Z k). apply Qfloor_resp_le. exact L'.
Qed.

Lemma nonzero_divisor h : 0 < h -> Qeq_bool h 0 = false.
Proof.
  intro H. destruct (Qeq_bool h 0) eqn:E; [|reflexivity].
  apply Qeq_bool_eq in E. lra.
Qed.

End PresentationFacts.

(** X29.  The active scene of the presentation.  For a window of positive
    height, the scene that [handleScroll] makes active is [k] for every
    scroll position from half a window above [k] windows (included) to
    half a window below (excluded); so scrolling to the position that
    [scrollToScene(k)] asks for makes scene [k] the active one. *)
Theorem X29_active_scene :
  forall (k : Z) (pos h : Q),
    0 < h ->
    ((inject_Z k - (1 # 2)) * h <= pos -> pos < (inject_Z k + (1 # 2)) * h ->
     Presentation.currentScene (JS.Fin pos) (JS.Fin h) = JS.Fin (inject_Z k)) /\
    Presentation.currentScene
      (Presentation.scroll_top (JS.Fin (inject_Z k)) (JS.Fin h)) (JS.Fin h)
    = JS.Fin (inject_Z k).
Proof.
  intros k pos h H.
  assert (R : forall p,
             (inject_Z k - (1 # 2)) * h <= p -> p < (inject_Z k + (1 # 2)) * h ->
             Presentation.currentScene (JS.Fin p) (JS.Fin h) = JS.Fin (inject_Z k)).
  { intros p L U. unfold Presentation.currentScene, RingMore.Math_round, JS.div.
    rewrite (PresentationFacts.nonzero_divisor h H).
    rewrite (PresentationFacts.round_div p h k H L U). reflexivity. }
  split; [apply R|].
  unfold Presentation.scroll_top, JS.mul. apply R; nra.
Qed.

(** Scene 4 in a window of 800 pixels. *)
Lemma X29_active_scene_witness :
  Presentation.currentScene
    (Presentation.scroll_top (JS.Fin (inject_Z 4)) (JS.Fin 800)) (JS.Fin 800)
  = JS.Fin (inject_Z 4).
Proof.
  apply (X29_active_scene 4%Z 0 800). reflexivity.
Defined.

(* ------------------------------------------------------------------ *)
(** ** The ring variant: the bars of the agent card *)

Module RingCard.
Import JS Ring RingMore.

Lemma temperature_bar a :
  within 18 40 (temperature a) -> within 45 100 (temperature_progress a).
Proof.
  unfold temperature_progress. destruct (temperature a) as [t| | |]; simpl;
    try contradiction.
  intros [L U].
  assert (D : t / 40 * 100 == t * (5 # 2)) by field.
  rewrite D. split; lra.
Qed.

End RingCard.

(** X30.  The bars of the agent card of the ring variant.  With draws in
    [0, 1), in the state reached by any run the temperature bar, which is
    fed [(temperature / 40) * 100], shows a finite value between 45 and
    100 for every agent, failed or not, and the fan bar a finite value
    between 0 and 100: neither bar is ever fed a value outside the range
    of a progress bar, and the temperature bar is never less than 45
    percent full. *)
Theorem X30_card_bars_in_range :
  forall count g cs,
    fair g ->
    exists s,
      Ring.run count cs (Ring.init count g) = Some s /\
      Forall (fun a =>
                JS.within 45 100 (RingMore.temperature_progress a) /\
                JS.within 0 100 (Ring.fanSpeed a))
             (Ring.agents s).
Proof.
  intros count g cs Hg.
  destruct (RingRun.ring_inv_run count cs (Ring.init count g)
              (RingRun.ring_inv_init count g Hg)) as (s & E & _ & O & _).
  exists s. split; [exact E|].
  eapply Forall_impl; [|exact O].
  intros a (T & F & _). split; [apply RingCard.temperature_bar, T|exact F].
Qed.

Lemma X30_card_bars_in_range_witness :
  exists s,
    Ring.run 5 [Ring.Toggle; Ring.TriggerFailure 2; Ring.Timer]
             (Ring.init 5 (constant_rng (1 # 2))) = Some s /\
    Forall (fun a =>
              JS.within 45 100 (RingMore.temperature_progress a) /\
              JS.within 0 100 (Ring.fanSpeed a))
           (Ring.agents s).
Proof.
  apply (X30_card_bars_in_range 5%Z (constant_rng (1 # 2))
           [Ring.Toggle; Ring.TriggerFailure 2; Ring.Timer]).
  intro n. simpl. lra.
Defined.
